(** * PicoWeatherStation: sensor compensation, battery monitor, transmit buffer

    A shallow embedding of [bme280.py], [power.py], [wifimanager.py], the
    simulated hardware of [hardwaresim.py] and the constants of [config.py],
    with the properties the station's specification states about them and
    further properties of the code.

    Numbers.  Python [int] is [Z].  Python [float] is kept abstract behind the
    interface [PyFloat], so every method is written once, with the operators of
    the source, and is run at two instances:
      - [Exact.exact_float]: the rationals [Q], arithmetic without rounding;
      - [Binary64.binary64_float]: IEEE 754 binary64 with
        round-to-nearest-even, the arithmetic of CPython's [float].
    What depends on the order of the tests alone is proved for every
    instance.  What depends on the arithmetic is proved in exact arithmetic;
    in binary64 the comparisons are proved from their specification, NaN
    included, and the formulas are evaluated at concrete inputs.

    Surroundings.  The converter, the wireless interface, [urequests] and
    the clock are inputs: each method takes the state of the world with the
    object and returns both.  Console output is left out. *)

From Stdlib Require Import ZArith QArith Lqa Lia List Bool.
From Stdlib Require Import PrimFloat SpecFloat FloatOps FloatAxioms.
From Stdlib Require Reals.
From Stdlib Require Lra.
From coqutil Require Import Z.bitblast.
Import ListNotations.

Set Implicit Arguments.

(* ================================================================== *)
(** * Python numbers *)

Module Num.

(** The part of Python's [float] the drivers use.  [of_int] is the implicit
    promotion of an [int] operand (and a literal such as [16384.0]); [dec n d]
    is the decimal literal [n/d] (as [17.27] is [dec 1727 100]); [to_int] is
    [int(x)], truncation toward zero, which raises on NaN and infinities. *)
Class PyFloat (F : Type) : Type := {
  of_int : Z -> F;
  dec    : Z -> positive -> F;
  fadd   : F -> F -> F;
  fsub   : F -> F -> F;
  fmul   : F -> F -> F;
  fdiv   : F -> F -> F;
  feqb   : F -> F -> bool;
  fltb   : F -> F -> bool;
  fleb   : F -> F -> bool;
  to_int : F -> option Z
}.

Declare Scope py_scope.
Delimit Scope py_scope with py.

(** [x ** 2] *)
Definition sqr {F} `{PyFloat F} (x : F) : F := fmul x x.

(** [x / y] where [y] is not a literal: Python raises [ZeroDivisionError]
    when the divisor compares equal to zero. *)
Definition checked_div {F} `{PyFloat F} (x y : F) : option F :=
  if feqb y (of_int 0) then None else Some (fdiv x y).

End Num.
Import Num.

(** ** Exact arithmetic *)

Module Exact.

Definition trunc (q : Q) : Z := Z.quot (Qnum q) (Zpos (Qden q)).

#[global] Instance exact_float : PyFloat Q := {|
  of_int := inject_Z;
  dec    := Qmake;
  fadd   := Qplus;
  fsub   := Qminus;
  fmul   := Qmult;
  fdiv   := Qdiv;
  feqb   := Qeq_bool;
  fltb   := fun x y => negb (Qle_bool y x);
  fleb   := Qle_bool;
  to_int := fun q => Some (trunc q)
|}.

End Exact.

(** ** IEEE 754 binary64 *)

Module Binary64.

(** [float(z)]: the nearest double, ties to even. *)
Definition of_Z (z : Z) : float :=
  SF2Prim (binary_normalize prec emax z 0 false).

(** [int(x)] *)
Definition trunc (x : float) : option Z :=
  match Prim2SF x with
  | S754_zero _ => Some 0%Z
  | S754_finite s m e =>
      let a := match e with
               | Z0 => Zpos m
               | Zpos p => Z.shiftl (Zpos m) (Zpos p)
               | Zneg p => Z.shiftr (Zpos m) (Zpos p)
               end in
      Some (if s then Z.opp a else a)
  | S754_infinity _ | S754_nan => None
  end.

(** [x] is not a NaN; [x] is neither a NaN nor an infinity. *)
Definition is_number (x : float) : bool :=
  match Prim2SF x with
  | S754_nan => false
  | _ => true
  end.

Definition is_finite (x : float) : bool :=
  match Prim2SF x with
  | S754_zero _ | S754_finite _ _ _ => true
  | S754_infinity _ | S754_nan => false
  end.

#[global] Instance binary64_float : PyFloat PrimFloat.float := {|
  of_int := of_Z;
  dec    := fun n d => PrimFloat.div (of_Z n) (of_Z (Zpos d));
  fadd   := PrimFloat.add;
  fsub   := PrimFloat.sub;
  fmul   := PrimFloat.mul;
  fdiv   := PrimFloat.div;
  feqb   := PrimFloat.eqb;
  fltb   := PrimFloat.ltb;
  fleb   := PrimFloat.leb;
  to_int := trunc
|}.

End Binary64.

(* ================================================================== *)
(** * Methods that update [self] *)

Module St.

(** A method of an object of type [S] returning an [A]: the attribute
    assignments of the body are threaded through. *)
Definition M (S A : Type) : Type := S -> A * S.

Definition ret {S A} (a : A) : M S A := fun s => (a, s).
Definition bind {S A B} (m : M S A) (k : A -> M S B) : M S B :=
  fun s => let (a, s') := m s in k a s'.
Definition get {S} : M S S := fun s => (s, s).
Definition put {S} (s : S) : M S unit := fun _ => (tt, s).
Definition modify {S} (f : S -> S) : M S unit := fun s => (tt, f s).
Definition when {S} (b : bool) (m : M S unit) : M S unit :=
  if b then m else ret tt.

Declare Scope st_scope.
Delimit Scope st_scope with st.
Notation "x <- m ;; k" := (bind m (fun x => k))
  (at level 61, m at next level, right associativity) : st_scope.
Notation "m ;; k" := (bind m (fun _ => k))
  (at level 61, right associativity) : st_scope.

End St.

(* ================================================================== *)
(** * config.py *)

Module Config.

Section Constants.
Context {F : Type} `{PyFloat F}.

Definition BATTERY_VOLTAGE_DIVIDER_RATIO : F := of_int 2.
Definition BATTERY_LOW_VOLTAGE : F := dec 33 10.
Definition BATTERY_CRITICAL_VOLTAGE : F := of_int 3.
Definition BATTERY_FULL_VOLTAGE : F := dec 42 10.
Definition VREF : F := dec 33 10.

End Constants.

Definition SENSOR_READ_INTERVAL : Z := 300.
Definition DATA_BUFFER_SIZE : nat := 50.
Definition USE_THINGSPEAK : bool := true.
Definition USE_HTTP_POST : bool := false.

End Config.

(* ================================================================== *)
(** * bme280.py *)

Module BME280.

Section Driver.
Context {F : Type} `{PyFloat F}.

(** The operators at [F]; an [int] operand of a float operator is promoted. *)
Local Coercion promote (z : Z) : F := of_int z.
Local Notation "x + y" := (@fadd F _ x y) : py_scope.
Local Notation "x - y" := (@fsub F _ x y) : py_scope.
Local Notation "x * y" := (@fmul F _ x y) : py_scope.
Local Notation "x / y" := (@fdiv F _ x y) : py_scope.
Local Notation "x == y" := (@feqb F _ x y) : py_scope.
Local Notation "x < y" := (@fltb F _ x y) : py_scope.
Local Notation "x <= y" := (@fleb F _ x y) : py_scope.
Local Notation "x > y" := (@fltb F _ y x) (only parsing) : py_scope.
Local Notation "x >= y" := (@fleb F _ y x) (only parsing) : py_scope.
Local Open Scope Z_scope.
Local Open Scope py_scope.

(** The attributes [_load_calibration] fills, and [t_fine]. *)
Record BME280 : Type := {
  dig_T1 : Z; dig_T2 : Z; dig_T3 : Z;
  dig_P1 : Z; dig_P2 : Z; dig_P3 : Z; dig_P4 : Z; dig_P5 : Z;
  dig_P6 : Z; dig_P7 : Z; dig_P8 : Z; dig_P9 : Z;
  dig_H1 : Z; dig_H2 : Z; dig_H3 : Z; dig_H4 : Z; dig_H5 : Z; dig_H6 : Z;
  t_fine : Z
}.

Definition set_t_fine (self : BME280) (t : Z) : BME280 :=
  {| dig_T1 := dig_T1 self; dig_T2 := dig_T2 self; dig_T3 := dig_T3 self;
     dig_P1 := dig_P1 self; dig_P2 := dig_P2 self; dig_P3 := dig_P3 self;
     dig_P4 := dig_P4 self; dig_P5 := dig_P5 self; dig_P6 := dig_P6 self;
     dig_P7 := dig_P7 self; dig_P8 := dig_P8 self; dig_P9 := dig_P9 self;
     dig_H1 := dig_H1 self; dig_H2 := dig_H2 self; dig_H3 := dig_H3 self;
     dig_H4 := dig_H4 self; dig_H5 := dig_H5 self; dig_H6 := dig_H6 self;
     t_fine := t |}.

(** Register addresses. *)
Definition REG_DIG_T1 : Z := 0x88.
Definition REG_DIG_H1 : Z := 0xA1.
Definition REG_DIG_H2 : Z := 0xE1.

(** [_read_uint16_le] and [_read_int16_le], over the bytes [mem] the device
    holds at each register. *)
Definition _read_uint16_le (mem : Z -> Z) (reg : Z) : Z :=
  (mem reg + 256 * mem (reg + 1))%Z.

Definition _read_int16_le (mem : Z -> Z) (reg : Z) : Z :=
  let u := _read_uint16_le mem reg in
  if (u <? 32768)%Z then u else (u - 65536)%Z.

(** [_load_calibration]; [t_fine] is the 0 that [__init__] gives it. *)
Definition _load_calibration (mem : Z -> Z) : BME280 :=
  let e4 := mem (REG_DIG_H2 + 3)%Z in
  let e5 := mem (REG_DIG_H2 + 4)%Z in
  let e6 := mem (REG_DIG_H2 + 5)%Z in
  let h4 := Z.lor (Z.shiftl e4 4) (Z.land e5 0x0F) in
  let h5 := Z.lor (Z.land (Z.shiftr e5 4) 0x0F) (Z.shiftl e6 4) in
  let h6 := mem (REG_DIG_H2 + 6)%Z in
  {| dig_T1 := _read_uint16_le mem REG_DIG_T1;
     dig_T2 := _read_int16_le mem (REG_DIG_T1 + 2);
     dig_T3 := _read_int16_le mem (REG_DIG_T1 + 4);
     dig_P1 := _read_uint16_le mem (REG_DIG_T1 + 6);
     dig_P2 := _read_int16_le mem (REG_DIG_T1 + 8);
     dig_P3 := _read_int16_le mem (REG_DIG_T1 + 10);
     dig_P4 := _read_int16_le mem (REG_DIG_T1 + 12);
     dig_P5 := _read_int16_le mem (REG_DIG_T1 + 14);
     dig_P6 := _read_int16_le mem (REG_DIG_T1 + 16);
     dig_P7 := _read_int16_le mem (REG_DIG_T1 + 18);
     dig_P8 := _read_int16_le mem (REG_DIG_T1 + 20);
     dig_P9 := _read_int16_le mem (REG_DIG_T1 + 22);
     dig_H1 := mem REG_DIG_H1;
     dig_H2 := _read_int16_le mem REG_DIG_H2;
     dig_H3 := mem (REG_DIG_H2 + 2)%Z;
     dig_H4 := if (Z.land h4 0x800 =? 0)%Z then h4 else (h4 - 4096)%Z;
     dig_H5 := if (Z.land h5 0x800 =? 0)%Z then h5 else (h5 - 4096)%Z;
     dig_H6 := if (127 <? h6)%Z then (h6 - 256)%Z else h6;
     t_fine := 0 |}.

(** [_compensate_temperature]: the value returned and the object with its
    [t_fine] updated; [None] when [int(var1 + var2)] raises. *)
Definition _compensate_temperature (self : BME280) (raw_temp : Z)
  : option (F * BME280) :=
  let var1 := (raw_temp / 16384 - dig_T1 self / 1024) * dig_T2 self in
  let var2 := sqr (raw_temp / 131072 - dig_T1 self / 8192) * dig_T3 self in
  match to_int (var1 + var2) with
  | Some t => Some (t / 5120, set_t_fine self t)
  | None => None
  end.

(** [_compensate_pressure] reads [t_fine] as the previous
    [_compensate_temperature] left it.  [None] is [ZeroDivisionError]. *)
Definition _compensate_pressure (self : BME280) (raw_press : Z) : option F :=
  let var1 := t_fine self / 2 - 64000 in
  let var2 := var1 * var1 * dig_P6 self / 32768 in
  let var2 := var2 + var1 * dig_P5 self * 2 in
  let var2 := var2 / 4 + dig_P4 self * 65536 in
  let var1 := (dig_P3 self * var1 * var1 / 524288 + dig_P2 self * var1)
              / 524288 in
  let var1 := (1 + var1 / 32768) * dig_P1 self in
  if var1 == 0 then Some (promote 0)
  else
    let press := 1048576 - raw_press in
    match checked_div ((press - var2 / 4096) * 6250) var1 with
    | None => None
    | Some press =>
        let var1 := dig_P9 self * press * press / 2147483648 in
        let var2 := press * dig_P8 self / 32768 in
        let press := press + (var1 + var2 + dig_P7 self) / 16 in
        Some (press / 100)
    end.

(** The value of [var1] that [_compensate_pressure] tests against zero: the
    factor [1.0 + var1 / 32768.0], times [dig_P1]. *)
Definition pressure_scale (self : BME280) : F :=
  let var1 := t_fine self / 2 - 64000 in
  let var1 := (dig_P3 self * var1 * var1 / 524288 + dig_P2 self * var1)
              / 524288 in
  1 + var1 / 32768.

Definition pressure_var1 (self : BME280) : F :=
  pressure_scale self * dig_P1 self.

(** The value of [h] before [_compensate_humidity] clamps it. *)
Definition humidity_poly (self : BME280) (raw_hum : Z) : F :=
  let h := t_fine self - 76800 in
  let h := (raw_hum - (dig_H4 self * 64 + dig_H5 self / 16384 * h))
           * (dig_H2 self / 65536
              * (1 + dig_H6 self / 67108864 * h
                     * (1 + dig_H3 self / 67108864 * h))) in
  h * (1 - dig_H1 self * h / 524288).

Definition _compensate_humidity (self : BME280) (raw_hum : Z) : F :=
  let h := humidity_poly self raw_hum in
  if h > 100 then promote 100
  else if h < 0 then promote 0
  else h.

(** [_read_raw_data], on the eight bytes of the burst read at 0xF7. *)
Definition _read_raw_data (data : list Z) : Z * Z * Z :=
  let d i := nth i data 0%Z in
  let press_raw :=
    Z.lor (Z.lor (Z.shiftl (d 0%nat) 12) (Z.shiftl (d 1%nat) 4))
          (Z.shiftr (d 2%nat) 4) in
  let temp_raw :=
    Z.lor (Z.lor (Z.shiftl (d 3%nat) 12) (Z.shiftl (d 4%nat) 4))
          (Z.shiftr (d 5%nat) 4) in
  let hum_raw := Z.lor (Z.shiftl (d 6%nat) 8) (d 7%nat) in
  (temp_raw, press_raw, hum_raw).

(** [read_compensated_data]: temperature first, so that pressure and
    humidity see the [t_fine] of this reading. *)
Definition read_compensated_data (self : BME280) (data : list Z)
  : option (F * F * F * BME280) :=
  let '(temp_raw, press_raw, hum_raw) := _read_raw_data data in
  match _compensate_temperature self temp_raw with
  | None => None
  | Some (temperature, self) =>
      match _compensate_pressure self press_raw with
      | None => None
      | Some pressure =>
          let humidity := _compensate_humidity self hum_raw in
          Some (temperature, pressure, humidity, self)
      end
  end.

(** [calculate_dew_point]; [None] is [ZeroDivisionError]. *)
Definition calculate_dew_point (temperature_c humidity_percent : F)
  : option F :=
  let a := dec 1727 100 in
  let b := dec 2377 10 in
  match checked_div (a * temperature_c) (b + temperature_c) with
  | None => None
  | Some q =>
      let alpha := q + humidity_percent / 100 in
      checked_div (b * alpha) (a - alpha)
  end.

End Driver.

End BME280.

(* ================================================================== *)
(** * hardwaresim.py *)

Module HardwareSim.

(** The registers of [SimulatedI2C]: [registers.get(reg, 0)] after
    [_init_calibration_data]. *)
Definition registers (reg : Z) : Z :=
  match reg with
  | 0xD0 => 0x60
  | 0xF7 => 0x50 | 0xF8 => 0x80 | 0xF9 => 0x00
  | 0xFA => 0x80 | 0xFB => 0x00 | 0xFC => 0x00
  | 0xFD => 0x70 | 0xFE => 0x00
  | 0x88 => 0x70 | 0x89 => 0x6B
  | 0x8A => 0x43 | 0x8B => 0x67
  | 0x8C => 0x18 | 0x8D => 0xFC
  | 0x8E => 0x5F | 0x8F => 0x8E
  | 0x90 => 0xAF | 0x91 => 0xD6
  | 0x92 => 0x0B | 0x93 => 0x30
  | 0x94 => 0x93 | 0x95 => 0x89
  | 0x96 => 0x04 | 0x97 => 0x00
  | 0x98 => 0x08 | 0x99 => 0x00
  | 0x9A => 0x00 | 0x9B => 0x00
  | 0x9C => 0x00 | 0x9D => 0x00
  | 0x9E => 0x88 | 0x9F => 0x00
  | 0xA1 => 0x4B
  | 0xE1 => 0x64 | 0xE2 => 0x01
  | 0xE3 => 0x00
  | 0xE4 => 0x10 | 0xE5 => 0x00 | 0xE6 => 0x1E
  | 0xE7 => 0x1E
  | _ => 0
  end%Z.

(** The sensor object the driver builds on the simulated bus. *)
Definition sensor : BME280.BME280 := BME280._load_calibration registers.

(** The burst read at 0xF7 for the raw values [readfrom_mem] starts from,
    before it adds its random offsets. *)
Definition burst (press_raw temp_raw hum_raw : Z) : list Z :=
  [ Z.land (Z.shiftr press_raw 12) 0xFF;
    Z.land (Z.shiftr press_raw 4) 0xFF;
    Z.land (Z.shiftl press_raw 4) 0xF0;
    Z.land (Z.shiftr temp_raw 12) 0xFF;
    Z.land (Z.shiftr temp_raw 4) 0xFF;
    Z.land (Z.shiftl temp_raw 4) 0xF0;
    Z.land (Z.shiftr hum_raw 8) 0xFF;
    Z.land hum_raw 0xFF ]%Z.

End HardwareSim.

(* ================================================================== *)
(** * power.py *)

Module Power.

Import St.

Inductive BatteryState : Type := CRITICAL | LOW | FULL | NORMAL.

Section Manager.
Context {F : Type} `{PyFloat F}.

Local Coercion promote (z : Z) : F := of_int z.
Local Notation "x + y" := (@fadd F _ x y) : py_scope.
Local Notation "x - y" := (@fsub F _ x y) : py_scope.
Local Notation "x * y" := (@fmul F _ x y) : py_scope.
Local Notation "x / y" := (@fdiv F _ x y) : py_scope.
Local Notation "x < y" := (@fltb F _ x y) : py_scope.
Local Notation "x <= y" := (@fleb F _ x y) : py_scope.
Local Notation "x > y" := (@fltb F _ y x) (only parsing) : py_scope.
Local Notation "x >= y" := (@fleb F _ y x) (only parsing) : py_scope.
Local Open Scope Z_scope.
Local Open Scope py_scope.
Local Open Scope st_scope.

(** The attributes of [PowerManager].  [adc] is the converter: the value
    [read_u16] gives at each successive read, and [adc_reads] the number of
    reads made so far. *)
Record PowerManager : Type := {
  adc : nat -> Z;
  adc_reads : nat;
  voltage_divider_ratio : F;
  vref : F;
  low_voltage : F;
  critical_voltage : F;
  full_voltage : F;
  current_voltage : F;
  battery_percentage : F;
  is_low_battery : bool;
  is_critical_battery : bool;
  calibration_factor : F;
  voltage_samples : list F;
  max_samples : nat
}.

Definition __init__ (adc : nat -> Z) : PowerManager :=
  {| adc := adc;
     adc_reads := 0;
     voltage_divider_ratio := Config.BATTERY_VOLTAGE_DIVIDER_RATIO;
     vref := Config.VREF;
     low_voltage := Config.BATTERY_LOW_VOLTAGE;
     critical_voltage := Config.BATTERY_CRITICAL_VOLTAGE;
     full_voltage := Config.BATTERY_FULL_VOLTAGE;
     current_voltage := promote 0;
     battery_percentage := promote 0;
     is_low_battery := false;
     is_critical_battery := false;
     calibration_factor := promote 1;
     voltage_samples := [];
     max_samples := 10 |}.

(** Attribute assignments. *)
Definition set_adc_reads (n : nat) (s : PowerManager) : PowerManager :=
  {| adc := adc s; adc_reads := n;
     voltage_divider_ratio := voltage_divider_ratio s; vref := vref s;
     low_voltage := low_voltage s; critical_voltage := critical_voltage s;
     full_voltage := full_voltage s; current_voltage := current_voltage s;
     battery_percentage := battery_percentage s;
     is_low_battery := is_low_battery s;
     is_critical_battery := is_critical_battery s;
     calibration_factor := calibration_factor s;
     voltage_samples := voltage_samples s; max_samples := max_samples s |}.

Definition set_current_voltage (v : F) (s : PowerManager) : PowerManager :=
  {| adc := adc s; adc_reads := adc_reads s;
     voltage_divider_ratio := voltage_divider_ratio s; vref := vref s;
     low_voltage := low_voltage s; critical_voltage := critical_voltage s;
     full_voltage := full_voltage s; current_voltage := v;
     battery_percentage := battery_percentage s;
     is_low_battery := is_low_battery s;
     is_critical_battery := is_critical_battery s;
     calibration_factor := calibration_factor s;
     voltage_samples := voltage_samples s; max_samples := max_samples s |}.

Definition set_battery_percentage (p : F) (s : PowerManager) : PowerManager :=
  {| adc := adc s; adc_reads := adc_reads s;
     voltage_divider_ratio := voltage_divider_ratio s; vref := vref s;
     low_voltage := low_voltage s; critical_voltage := critical_voltage s;
     full_voltage := full_voltage s; current_voltage := current_voltage s;
     battery_percentage := p;
     is_low_battery := is_low_battery s;
     is_critical_battery := is_critical_battery s;
     calibration_factor := calibration_factor s;
     voltage_samples := voltage_samples s; max_samples := max_samples s |}.

Definition set_is_low_battery (b : bool) (s : PowerManager) : PowerManager :=
  {| adc := adc s; adc_reads := adc_reads s;
     voltage_divider_ratio := voltage_divider_ratio s; vref := vref s;
     low_voltage := low_voltage s; critical_voltage := critical_voltage s;
     full_voltage := full_voltage s; current_voltage := current_voltage s;
     battery_percentage := battery_percentage s;
     is_low_battery := b;
     is_critical_battery := is_critical_battery s;
     calibration_factor := calibration_factor s;
     voltage_samples := voltage_samples s; max_samples := max_samples s |}.

Definition set_is_critical_battery (b : bool) (s : PowerManager)
  : PowerManager :=
  {| adc := adc s; adc_reads := adc_reads s;
     voltage_divider_ratio := voltage_divider_ratio s; vref := vref s;
     low_voltage := low_voltage s; critical_voltage := critical_voltage s;
     full_voltage := full_voltage s; current_voltage := current_voltage s;
     battery_percentage := battery_percentage s;
     is_low_battery := is_low_battery s;
     is_critical_battery := b;
     calibration_factor := calibration_factor s;
     voltage_samples := voltage_samples s; max_samples := max_samples s |}.

Definition set_calibration_factor (c : F) (s : PowerManager) : PowerManager :=
  {| adc := adc s; adc_reads := adc_reads s;
     voltage_divider_ratio := voltage_divider_ratio s; vref := vref s;
     low_voltage := low_voltage s; critical_voltage := critical_voltage s;
     full_voltage := full_voltage s; current_voltage := current_voltage s;
     battery_percentage := battery_percentage s;
     is_low_battery := is_low_battery s;
     is_critical_battery := is_critical_battery s;
     calibration_factor := c;
     voltage_samples := voltage_samples s; max_samples := max_samples s |}.

Definition set_voltage_samples (l : list F) (s : PowerManager)
  : PowerManager :=
  {| adc := adc s; adc_reads := adc_reads s;
     voltage_divider_ratio := voltage_divider_ratio s; vref := vref s;
     low_voltage := low_voltage s; critical_voltage := critical_voltage s;
     full_voltage := full_voltage s; current_voltage := current_voltage s;
     battery_percentage := battery_percentage s;
     is_low_battery := is_low_battery s;
     is_critical_battery := is_critical_battery s;
     calibration_factor := calibration_factor s;
     voltage_samples := l; max_samples := max_samples s |}.

Definition Method (A : Type) : Type := M PowerManager A.

(** [sum(l)] and [len(l)] *)
Definition sum (l : list F) : F := fold_left (fun acc x => acc + x) l (promote 0).
Definition len (l : list F) : Z := Z.of_nat (length l).

Definition read_raw_adc : Method Z :=
  self <- get ;;
  modify (set_adc_reads (S (adc_reads self))) ;;
  ret (adc self (adc_reads self)).

Definition read_battery_voltage (averaged : bool) : Method F :=
  raw_value <- read_raw_adc ;;
  self <- get ;;
  let voltage := raw_value / 65535 * vref self * voltage_divider_ratio self
                 * calibration_factor self in
  voltage <-
    (if averaged then
       modify (set_voltage_samples (voltage_samples self ++ [voltage])) ;;
       self <- get ;;
       when (max_samples self <? length (voltage_samples self))%nat
            (modify (set_voltage_samples (tl (voltage_samples self)))) ;;
       self <- get ;;
       ret (sum (voltage_samples self) / len (voltage_samples self))
     else ret voltage) ;;
  modify (set_current_voltage voltage) ;;
  ret voltage.

(** The interpolation of [get_battery_percentage], for the voltage read. *)
Definition percentage_at (self : PowerManager) (voltage : F) : F :=
  if voltage >= full_voltage self then promote 100
  else if voltage <= critical_voltage self then promote 0
  else
    let voltage_range := full_voltage self - critical_voltage self in
    let voltage_above_critical := voltage - critical_voltage self in
    voltage_above_critical / voltage_range * 100.

Definition get_battery_percentage : Method F :=
  voltage <- read_battery_voltage true ;;
  self <- get ;;
  let percentage := percentage_at self voltage in
  modify (set_battery_percentage percentage) ;;
  ret percentage.

(** The threshold checks of [get_battery_status], for the voltage read:
    the state, and the values given to [is_low_battery] and
    [is_critical_battery]. *)
Definition state_at (self : PowerManager) (voltage : F)
  : BatteryState * bool * bool :=
  if voltage <= critical_voltage self then (CRITICAL, true, true)
  else if voltage <= low_voltage self then (LOW, true, false)
  else if voltage >= full_voltage self * dec 95 100 then (FULL, false, false)
  else (NORMAL, false, false).

(** The dictionary [get_battery_status] returns. *)
Record Status : Type := {
  voltage : F;
  percentage : F;
  state : BatteryState;
  is_low : bool;
  is_critical : bool
}.

Definition get_battery_status : Method Status :=
  voltage <- read_battery_voltage true ;;
  percentage <- get_battery_percentage ;;
  self <- get ;;
  let '(state, low, critical) := state_at self voltage in
  modify (set_is_critical_battery critical) ;;
  modify (set_is_low_battery low) ;;
  self <- get ;;
  ret {| voltage := voltage; percentage := percentage; state := state;
         is_low := is_low_battery self;
         is_critical := is_critical_battery self |}.

Definition is_battery_ok : Method bool :=
  voltage <- read_battery_voltage true ;;
  self <- get ;;
  ret (voltage > critical_voltage self).

Definition should_enter_low_power : Method bool :=
  self <- get ;;
  ret (is_low_battery self).

Definition get_suggested_sleep_time : Method Z :=
  percentage <- get_battery_percentage ;;
  let base_interval := Config.SENSOR_READ_INTERVAL in
  self <- get ;;
  if is_critical_battery self then ret (base_interval * 4)%Z
  else if is_low_battery self then ret (base_interval * 2)%Z
  else ret base_interval.

(** [calibrate]; the result [None] is Python's [None]. *)
Definition calibrate (actual_voltage : F) : Method (option F) :=
  measured_voltage <- read_battery_voltage false ;;
  if measured_voltage > 0 then
    modify (set_calibration_factor (actual_voltage / measured_voltage)) ;;
    self <- get ;;
    ret (Some (calibration_factor self))
  else ret None.

Definition print_status : Method unit :=
  status <- get_battery_status ;;
  ret tt.

(** [monitor_loop], interrupted after [rounds] iterations. *)
Fixpoint monitor_loop (rounds : nat) : Method unit :=
  match rounds with
  | O => ret tt
  | S n => print_status ;; monitor_loop n
  end.

End Manager.

End Power.

(* ================================================================== *)
(** * wifimanager.py *)

Module WiFi.

Import St.

(** What [urequests.get] and [urequests.post] give: a response with its
    status code, or an exception. *)
Inductive Response : Type :=
| Status (status_code : Z)
| Raised.

(** The surroundings the manager acts on, over the states [World] they can
    be in: the [network.WLAN] interface, [urequests] and [time].  [Data] is
    the dictionary of sensor data handed to the manager.  [wlan_join] is
    [wlan.connect(ssid, password)] followed by the wait loop of [connect],
    which ends when [wlan.isconnected()] holds or the timeout has passed. *)
Class Surroundings (Data World : Type) : Type := {
  wlan_isconnected : World -> bool;
  wlan_join : World -> World;
  wlan_disconnect : World -> World;
  wlan_active : bool -> World -> World;
  http_get : Data -> World -> Response * World;
  http_post : Data -> World -> Response * World;
  time : World -> Z;
  sleep : World -> World
}.

Section Manager.
Context {Data World : Type} `{Surroundings Data World}.

(** A buffered entry: [{'timestamp': ..., 'data': ...}]. *)
Record Entry : Type := {
  timestamp : Z;
  data : Data
}.

(** The attributes of [WiFiManager].  [env] is the world the methods reach
    through [self.wlan], [urequests] and [time]; [requests] is the trace of
    the data of every request issued to [urequests], oldest first. *)
Record WiFiManager : Type := {
  env : World;
  requests : list Data;
  is_connected : bool;
  connection_attempts : Z;
  last_connection_time : Z;
  failed_transmissions : Z;
  data_buffer : list Entry
}.

Definition __init__ (w : World) : WiFiManager :=
  {| env := wlan_active true w;
     requests := [];
     is_connected := false;
     connection_attempts := 0;
     last_connection_time := 0;
     failed_transmissions := 0;
     data_buffer := [] |}.

Definition set_env (w : World) (s : WiFiManager) : WiFiManager :=
  {| env := w; requests := requests s; is_connected := is_connected s;
     connection_attempts := connection_attempts s;
     last_connection_time := last_connection_time s;
     failed_transmissions := failed_transmissions s;
     data_buffer := data_buffer s |}.

Definition set_requests (l : list Data) (s : WiFiManager) : WiFiManager :=
  {| env := env s; requests := l; is_connected := is_connected s;
     connection_attempts := connection_attempts s;
     last_connection_time := last_connection_time s;
     failed_transmissions := failed_transmissions s;
     data_buffer := data_buffer s |}.

Definition set_is_connected (b : bool) (s : WiFiManager) : WiFiManager :=
  {| env := env s; requests := requests s; is_connected := b;
     connection_attempts := connection_attempts s;
     last_connection_time := last_connection_time s;
     failed_transmissions := failed_transmissions s;
     data_buffer := data_buffer s |}.

Definition set_connection_attempts (n : Z) (s : WiFiManager) : WiFiManager :=
  {| env := env s; requests := requests s; is_connected := is_connected s;
     connection_attempts := n;
     last_connection_time := last_connection_time s;
     failed_transmissions := failed_transmissions s;
     data_buffer := data_buffer s |}.

Definition set_last_connection_time (t : Z) (s : WiFiManager) : WiFiManager :=
  {| env := env s; requests := requests s; is_connected := is_connected s;
     connection_attempts := connection_attempts s;
     last_connection_time := t;
     failed_transmissions := failed_transmissions s;
     data_buffer := data_buffer s |}.

Definition set_failed_transmissions (n : Z) (s : WiFiManager) : WiFiManager :=
  {| env := env s; requests := requests s; is_connected := is_connected s;
     connection_attempts := connection_attempts s;
     last_connection_time := last_connection_time s;
     failed_transmissions := n;
     data_buffer := data_buffer s |}.

Definition set_data_buffer (l : list Entry) (s : WiFiManager) : WiFiManager :=
  {| env := env s; requests := requests s; is_connected := is_connected s;
     connection_attempts := connection_attempts s;
     last_connection_time := last_connection_time s;
     failed_transmissions := failed_transmissions s;
     data_buffer := l |}.

Definition Method (A : Type) : Type := M WiFiManager A.

Local Open Scope Z_scope.
Local Open Scope st_scope.

(** [connect], with the configured network and timeout. *)
Definition connect : Method bool :=
  self <- get ;;
  if wlan_isconnected (env self) then
    modify (set_is_connected true) ;;
    ret true
  else
    modify (set_env (wlan_join (env self))) ;;
    self <- get ;;
    if negb (wlan_isconnected (env self)) then
      modify (set_is_connected false) ;;
      modify (set_connection_attempts (connection_attempts self + 1)) ;;
      ret false
    else
      modify (set_is_connected true) ;;
      modify (set_last_connection_time (time (env self))) ;;
      modify (set_connection_attempts 0) ;;
      ret true.

Definition disconnect : Method unit :=
  self <- get ;;
  when (wlan_isconnected (env self))
       (modify (set_env (wlan_disconnect (env self)))) ;;
  self <- get ;;
  modify (set_env (wlan_active false (env self))) ;;
  modify (set_is_connected false).

Definition reconnect : Method bool :=
  self <- get ;;
  if negb (is_connected self) then connect else ret true.

(** A request through [urequests]: it is recorded in [requests], and the
    world answers. *)
Definition request (call : Data -> World -> Response * World) (d : Data)
  : Method Response :=
  self <- get ;;
  let (r, w) := call d (env self) in
  modify (set_requests (requests self ++ [d])) ;;
  modify (set_env w) ;;
  ret r.

(** [if not self.is_connected: if not self.connect(): return False] *)
Definition ensure_connected : Method bool :=
  self <- get ;;
  if negb (is_connected self) then connect else ret true.

Definition send_to_thingspeak (d : Data) : Method bool :=
  if negb Config.USE_THINGSPEAK then ret false
  else
    ok <- ensure_connected ;;
    if negb ok then ret false
    else
      response <- request http_get d ;;
      self <- get ;;
      match response with
      | Status code =>
          if code =? 200 then
            modify (set_failed_transmissions 0) ;;
            ret true
          else
            modify (set_failed_transmissions (failed_transmissions self + 1)) ;;
            ret false
      | Raised =>
          modify (set_failed_transmissions (failed_transmissions self + 1)) ;;
          ret false
      end.

Definition send_http_post (d : Data) : Method bool :=
  if negb Config.USE_HTTP_POST then ret false
  else
    ok <- ensure_connected ;;
    if negb ok then ret false
    else
      response <- request http_post d ;;
      self <- get ;;
      match response with
      | Status code =>
          if (code =? 200) || (code =? 201) then
            modify (set_failed_transmissions 0) ;;
            ret true
          else
            modify (set_failed_transmissions (failed_transmissions self + 1)) ;;
            ret false
      | Raised =>
          modify (set_failed_transmissions (failed_transmissions self + 1)) ;;
          ret false
      end.

(** The transport [config] selects. *)
Definition send_configured (d : Data) : Method bool :=
  if Config.USE_THINGSPEAK then send_to_thingspeak d
  else if Config.USE_HTTP_POST then send_http_post d
  else ret false.

Definition buffer_data (d : Data) : Method unit :=
  self <- get ;;
  let timestamp := time (env self) in
  let buffered_entry := {| timestamp := timestamp; data := d |} in
  modify (set_data_buffer (data_buffer self ++ [buffered_entry])) ;;
  self <- get ;;
  when (Config.DATA_BUFFER_SIZE <? length (data_buffer self))%nat
       (modify (set_data_buffer (tl (data_buffer self)))).

(** The [for entry in self.data_buffer] loop of [transmit_buffered_data],
    with its two accumulators. *)
Fixpoint transmit_loop (entries : list Entry) (transmitted_count : Z)
    (failed_entries : list Entry) : Method (Z * list Entry) :=
  match entries with
  | [] => ret (transmitted_count, failed_entries)
  | entry :: rest =>
      success <- send_configured (data entry) ;;
      self <- get ;;
      modify (set_env (sleep (env self))) ;;
      if success then transmit_loop rest (transmitted_count + 1) failed_entries
      else transmit_loop rest transmitted_count (failed_entries ++ [entry])
  end.

Definition transmit_buffered_data : Method Z :=
  self <- get ;;
  match data_buffer self with
  | [] => ret 0
  | _ :: _ =>
      ok <- ensure_connected ;;
      if negb ok then ret 0
      else
        self <- get ;;
        r <- transmit_loop (data_buffer self) 0 [] ;;
        let (transmitted_count, failed_entries) := r in
        modify (set_data_buffer failed_entries) ;;
        ret transmitted_count
  end.

Definition send_data (d : Data) : Method bool :=
  self <- get ;;
  match data_buffer self with
  | [] => ret tt
  | _ :: _ => transmit_buffered_data ;; ret tt
  end ;;
  success <- send_configured d ;;
  when (negb success) (buffer_data d) ;;
  ret success.

End Manager.

End WiFi.

(* ================================================================== *)
(** * Exact arithmetic: the comparisons and [int()] *)

Module ExactFacts.

Local Open Scope Q_scope.

(** [t] is [x] with its fractional part dropped. *)
Definition truncates (x : Q) (t : Z) : Prop :=
  (0 <= x -> inject_Z t <= x /\ x < inject_Z t + 1) /\
  (x <= 0 -> inject_Z t - 1 < x /\ x <= inject_Z t).

Lemma trunc_truncates (q : Q) : truncates q (Exact.trunc q).
Proof.
  destruct q as [n d]. unfold truncates, Exact.trunc, Qle, Qlt. simpl.
  pose proof (Z.quot_rem' n (Zpos d)) as E.
  split; intros Hs.
  - assert (0 <= n)%Z as Hn by lia.
    pose proof (Z.rem_bound_pos n (Zpos d) Hn ltac:(lia)). nia.
  - assert (n <= 0)%Z as Hn by lia.
    pose proof (Z.rem_bound_pos_neg n (Zpos d) ltac:(lia) Hn). nia.
Qed.

Lemma truncates_compat (x y : Q) (t : Z) :
  x == y -> truncates x t -> truncates y t.
Proof.
  unfold truncates. intros E [Hp Hn]. split; intros Hs.
  - destruct Hp; lra.
  - destruct Hn; lra.
Qed.

Lemma leb_spec (x y : Q) : Bool.reflect (x <= y) (Qle_bool x y).
Proof. apply Bool.iff_reflect. symmetry. apply Qle_bool_iff. Qed.

Lemma eqb_spec (x y : Q) : Bool.reflect (x == y) (Qeq_bool x y).
Proof. apply Bool.iff_reflect. symmetry. apply Qeq_bool_iff. Qed.

End ExactFacts.

(* ================================================================== *)
(** * Binary64: the comparisons, and what NaN does to them *)

Module Binary64Facts.

Import Binary64.

Lemma SFcompare_antisym (x y : spec_float) :
  SFcompare y x = option_map CompOpp (SFcompare x y).
Proof.
  destruct x as [sx | sx | | sx mx ex], y as [sy | sy | | sy my ey]; simpl;
    try reflexivity;
    try (destruct sx; reflexivity); try (destruct sy; reflexivity);
    try (destruct sx, sy; reflexivity).
  destruct sx, sy; simpl; try reflexivity.
  - rewrite (Z.compare_antisym ex ey).
    destruct (ex ?= ey)%Z; simpl; try reflexivity.
    rewrite CompOpp_involutive. f_equal.
    exact (Pos.compare_cont_antisym my mx Eq).
  - rewrite (Z.compare_antisym ex ey).
    destruct (ex ?= ey)%Z; simpl; try reflexivity.
    f_equal. symmetry. exact (Pos.compare_cont_antisym mx my Eq).
Qed.

Lemma SFcompare_number (x y : spec_float) :
  x <> S754_nan -> y <> S754_nan -> SFcompare x y <> None.
Proof. destruct x, y; simpl; intros; try discriminate; congruence. Qed.

Lemma is_number_spec (x : float) : is_number x = true -> Prim2SF x <> S754_nan.
Proof. unfold is_number. destruct (Prim2SF x); congruence. Qed.

(** The clamp of [_compensate_humidity] on a number. *)
Lemma clamp_number (h : float) :
  is_number h = true ->
  let r := if PrimFloat.ltb (of_Z 100) h then of_Z 100
           else if PrimFloat.ltb h (of_Z 0) then of_Z 0 else h in
  PrimFloat.leb (of_Z 0) r = true /\ PrimFloat.leb r (of_Z 100) = true.
Proof.
  intros Hn r. subst r. apply is_number_spec in Hn.
  destruct (PrimFloat.ltb (of_Z 100) h) eqn:E1;
    [split; vm_compute; reflexivity |].
  destruct (PrimFloat.ltb h (of_Z 0)) eqn:E2;
    [split; vm_compute; reflexivity |].
  rewrite ltb_spec in E1, E2. rewrite !leb_spec.
  unfold SFltb in E1, E2. unfold SFleb.
  rewrite (SFcompare_antisym (Prim2SF h) (Prim2SF (of_Z 0))).
  rewrite (SFcompare_antisym (Prim2SF h) (Prim2SF (of_Z 100))) in E1.
  assert (N1 : SFcompare (Prim2SF h) (Prim2SF (of_Z 0)) <> None).
  { apply SFcompare_number; [exact Hn | vm_compute; discriminate]. }
  assert (N2 : SFcompare (Prim2SF h) (Prim2SF (of_Z 100)) <> None).
  { apply SFcompare_number; [exact Hn | vm_compute; discriminate]. }
  destruct (SFcompare (Prim2SF h) (Prim2SF (of_Z 0))) as [[| |] |];
    destruct (SFcompare (Prim2SF h) (Prim2SF (of_Z 100))) as [[| |] |];
    simpl in *; try discriminate; try congruence; split; reflexivity.
Qed.

(** A finite number times zero compares equal to zero. *)
Lemma mul_zero (x : float) :
  is_finite x = true ->
  PrimFloat.eqb (PrimFloat.mul x (of_Z 0)) (of_Z 0) = true.
Proof.
  unfold is_finite. intros Hf. rewrite eqb_spec, mul_spec.
  replace (Prim2SF (of_Z 0)) with (S754_zero false)
    by (vm_compute; reflexivity).
  destruct (Prim2SF x) as [s | s | | s m e]; try discriminate; reflexivity.
Qed.

(** [x < y] and [y <= x] exclude each other; on numbers one of them holds. *)
Lemma ltb_leb_false (x y : float) :
  PrimFloat.ltb x y = true -> PrimFloat.leb y x = false.
Proof.
  rewrite ltb_spec, leb_spec. unfold SFltb, SFleb.
  rewrite (SFcompare_antisym (Prim2SF x) (Prim2SF y)).
  destruct (SFcompare (Prim2SF x) (Prim2SF y)) as [[| |] |]; simpl;
    intros; congruence.
Qed.

Lemma leb_ltb_false (x y : float) :
  PrimFloat.leb x y = true -> PrimFloat.ltb y x = false.
Proof.
  rewrite ltb_spec, leb_spec. unfold SFltb, SFleb.
  rewrite (SFcompare_antisym (Prim2SF x) (Prim2SF y)).
  destruct (SFcompare (Prim2SF x) (Prim2SF y)) as [[| |] |]; simpl;
    intros; congruence.
Qed.

Lemma ltb_negb_leb (x y : float) :
  is_number x = true -> is_number y = true ->
  PrimFloat.ltb x y = negb (PrimFloat.leb y x).
Proof.
  intros Nx Ny. rewrite ltb_spec, leb_spec. unfold SFltb, SFleb.
  rewrite (SFcompare_antisym (Prim2SF x) (Prim2SF y)).
  pose proof (SFcompare_number (is_number_spec x Nx) (is_number_spec y Ny)).
  destruct (SFcompare (Prim2SF x) (Prim2SF y)) as [[| |] |]; simpl;
    congruence.
Qed.

(** A comparison with a NaN is false. *)
Lemma not_number_nan (x : float) : is_number x = false -> x = nan.
Proof.
  unfold is_number. intros H. rewrite <- (SF2Prim_Prim2SF x).
  destruct (Prim2SF x); try discriminate. reflexivity.
Qed.

Lemma ltb_true_number (x y : float) :
  PrimFloat.ltb x y = true -> is_number x = true /\ is_number y = true.
Proof.
  rewrite ltb_spec. unfold is_number, SFltb.
  destruct (Prim2SF x), (Prim2SF y); simpl; intros; try discriminate;
    split; reflexivity.
Qed.

Lemma leb_true_number (x y : float) :
  PrimFloat.leb x y = true ->
  Binary64.is_number x = true /\ Binary64.is_number y = true.
Proof.
  rewrite leb_spec. unfold Binary64.is_number, SFleb.
  destruct (Prim2SF x), (Prim2SF y); simpl; intros; try discriminate;
    split; reflexivity.
Qed.

Lemma leb_infinity (y : float) :
  PrimFloat.leb infinity y = true -> y = infinity.
Proof.
  rewrite leb_spec. intros H. rewrite <- (SF2Prim_Prim2SF y).
  change (Prim2SF infinity) with (S754_infinity false) in H.
  destruct (Prim2SF y) as [s | s | | s m e]; simpl in H; try discriminate.
  destruct s; [discriminate | reflexivity].
Qed.

Lemma leb_neg_infinity (x : float) :
  PrimFloat.leb x neg_infinity = true -> x = neg_infinity.
Proof.
  rewrite leb_spec. intros H. rewrite <- (SF2Prim_Prim2SF x).
  change (Prim2SF neg_infinity) with (S754_infinity true) in H.
  destruct (Prim2SF x) as [s | s | | s m e]; simpl in H; try discriminate;
    try (destruct s; discriminate).
  destruct s; [reflexivity | discriminate].
Qed.

End Binary64Facts.

(* ================================================================== *)
(** * Rounding to nearest, ties to even *)

Module Rounding.

Import Reals.

Local Open Scope R_scope.

Definition b2 (e : Z) : R := powerRZ 2 e.

Lemma b2_pos e : 0 < b2 e.
Proof. apply powerRZ_lt. Lra.lra. Qed.

Lemma b2_add a b : b2 (a + b) = b2 a * b2 b.
Proof. apply powerRZ_add. Lra.lra. Qed.

Lemma b2_0 : b2 0 = 1.
Proof. reflexivity. Qed.

Lemma b2_1 : b2 1 = 2.
Proof. unfold b2. simpl. Lra.lra. Qed.

Lemma b2_IZR (n : Z) : (0 <= n)%Z -> b2 n = IZR (2 ^ n).
Proof.
  intros Hn. unfold b2. rewrite <- (Z2Nat.id n Hn).
  rewrite <- pow_powerRZ, pow_IZR. reflexivity.
Qed.

Lemma b2_ge_1 n : (0 <= n)%Z -> 1 <= b2 n.
Proof.
  intros Hn. rewrite b2_IZR by exact Hn. apply IZR_le.
  assert (0 < 2 ^ n)%Z by (apply Z.pow_pos_nonneg; lia). lia.
Qed.

Lemma b2_le a b : (a <= b)%Z -> b2 a <= b2 b.
Proof.
  intros H. replace b with (a + (b - a))%Z by lia. rewrite b2_add.
  pose proof (@b2_ge_1 (b - a) ltac:(lia)). pose proof (b2_pos a). Lra.nra.
Qed.

Lemma b2_lt a b : (a < b)%Z -> b2 a < b2 b.
Proof.
  intros H. replace b with (a + 1 + (b - a - 1))%Z by lia.
  rewrite !b2_add, b2_1.
  pose proof (@b2_ge_1 (b - a - 1) ltac:(lia)). pose proof (b2_pos a).
  Lra.nra.
Qed.

Lemma b2_half e : b2 (e + 1) = 2 * b2 e.
Proof. rewrite b2_add, b2_1. Lra.lra. Qed.

(** ** Digits *)

Definition digits (p : positive) : Z := Zpos (digits2_pos p).

Lemma digits_bounds (p : positive) :
  (2 ^ (digits p - 1) <= Zpos p < 2 ^ digits p)%Z.
Proof.
  unfold digits. induction p as [p IH | p IH |]; cbn [digits2_pos].
  - rewrite Pos2Z.inj_succ.
    replace (Z.succ (Zpos (digits2_pos p)) - 1)%Z
      with (Z.succ (Zpos (digits2_pos p) - 1)) by lia.
    rewrite !Z.pow_succ_r by lia. lia.
  - rewrite Pos2Z.inj_succ.
    replace (Z.succ (Zpos (digits2_pos p)) - 1)%Z
      with (Z.succ (Zpos (digits2_pos p) - 1)) by lia.
    rewrite !Z.pow_succ_r by lia. lia.
  - simpl. lia.
Qed.

Lemma digits_pos p : (1 <= digits p)%Z.
Proof. unfold digits. lia. Qed.

Lemma digits_b2 (p : positive) :
  b2 (digits p - 1) <= IZR (Zpos p) < b2 (digits p).
Proof.
  pose proof (digits_bounds p) as [H1 H2]. pose proof (digits_pos p).
  rewrite !b2_IZR by lia. split; [apply IZR_le | apply IZR_lt]; assumption.
Qed.

(** A positive integer below [2^d] has at most [d] digits, and one at or
    above [2^(d-1)] at least [d]. *)
Lemma digits_le (p : positive) (d : Z) :
  (Zpos p < 2 ^ d)%Z -> (0 <= d)%Z -> (digits p <= d)%Z.
Proof.
  intros Hp Hd. pose proof (digits_bounds p) as [H1 _].
  pose proof (digits_pos p) as Hp1.
  destruct (Z.le_gt_cases (digits p) d) as [H | H]; [exact H |].
  assert (2 ^ d <= 2 ^ (digits p - 1))%Z by (apply Z.pow_le_mono_r; lia).
  lia.
Qed.

Lemma digits_ge (p : positive) (d : Z) :
  (2 ^ (d - 1) <= Zpos p)%Z -> (1 <= d)%Z -> (d <= digits p)%Z.
Proof.
  intros Hp Hd. pose proof (digits_bounds p) as [_ H2].
  pose proof (digits_pos p) as Hp1.
  destruct (Z.le_gt_cases d (digits p)) as [H | H]; [exact H |].
  assert (2 ^ digits p <= 2 ^ (d - 1))%Z by (apply Z.pow_le_mono_r; lia).
  lia.
Qed.

(** ** Locations *)

(** The fraction a location stands for. *)
Definition inb (l : location) (d : R) : Prop :=
  match l with
  | loc_Exact => d = 0
  | loc_Inexact Lt => 0 < d < / 2
  | loc_Inexact Eq => d = / 2
  | loc_Inexact Gt => / 2 < d < 1
  end.

Lemma inb_range l d : inb l d -> 0 <= d < 1.
Proof. destruct l as [| []]; simpl; Lra.lra. Qed.

(** [x] is [m + d] units of [2^e], with [d] at the location [l]. *)
Definition repr (m e : Z) (l : location) (x : R) : Prop :=
  exists d, inb l d /\ x = (IZR m + d) * b2 e.

Definition repr_rec (mrs : shr_record) (e : Z) (x : R) : Prop :=
  repr (shr_m mrs) e (loc_of_shr_record mrs) x.

Lemma repr_rec_of_loc m e l x :
  repr m e l x -> repr_rec (shr_record_of_loc m l) e x.
Proof.
  unfold repr_rec. destruct l as [| []]; simpl; auto.
Qed.

Lemma shr_1_repr mrs e x :
  (0 <= shr_m mrs)%Z -> repr_rec mrs e x ->
  repr_rec (shr_1 mrs) (e + 1) x /\ (0 <= shr_m (shr_1 mrs))%Z /\
  shr_m (shr_1 mrs) = (shr_m mrs / 2)%Z.
Proof.
  destruct mrs as [m r s]. unfold repr_rec, repr. cbn [shr_m].
  intros Hm (d & Hd & ->). rewrite b2_half.
  assert (Hdiv : forall k b, (0 <= b < 2)%Z -> ((2 * k + b) / 2 = k)%Z).
  { intros k b Hb. symmetry. apply (Z.div_unique (2 * k + b) 2 k b); lia. }
  destruct m as [| [p | p |] | p]; try lia; cbn [shr_1 shr_m loc_of_shr_record].
  - (* 0 *)
    split; [| split; [lia | reflexivity]].
    exists (d / 2). destruct r, s; simpl in *; split; Lra.lra.
  - (* 2p+1 *)
    split; [| split; [lia |]].
    + exists ((1 + d) / 2). rewrite (Pos2Z.inj_xI p), plus_IZR, mult_IZR.
      destruct r, s; simpl in *; split; Lra.lra.
    + rewrite (Pos2Z.inj_xI p). rewrite Hdiv; lia.
  - split; [| split; [lia |]].
    + exists (d / 2). rewrite (Pos2Z.inj_xO p), mult_IZR.
      destruct r, s; simpl in *; split; Lra.lra.
    + rewrite (Pos2Z.inj_xO p). replace (2 * Zpos p)%Z with (2 * Zpos p + 0)%Z by lia.
      rewrite Hdiv; lia.
  - split; [| split; [lia | reflexivity]].
    exists ((1 + d) / 2). destruct r, s; simpl in *; split; Lra.lra.
Qed.

Lemma iter_shr_repr (p : positive) : forall mrs e x,
  (0 <= shr_m mrs)%Z -> repr_rec mrs e x ->
  repr_rec (SpecFloat.iter_pos shr_1 p mrs) (e + Zpos p) x /\
  (0 <= shr_m (SpecFloat.iter_pos shr_1 p mrs))%Z /\
  shr_m (SpecFloat.iter_pos shr_1 p mrs) = (shr_m mrs / 2 ^ Zpos p)%Z.
Proof.
  assert (Hdd : forall m a b, (0 < a)%Z -> (0 < b)%Z ->
                (m / 2 ^ a / 2 ^ b = m / 2 ^ (a + b))%Z).
  { intros m a b Ha Hb. rewrite Z.pow_add_r by lia.
    apply Z.div_div; [| apply Z.pow_pos_nonneg; lia].
    assert (0 < 2 ^ a)%Z by (apply Z.pow_pos_nonneg; lia). lia. }
  induction p as [p IH | p IH |]; intros mrs e x Hm Hr; cbn [SpecFloat.iter_pos].
  - destruct (@shr_1_repr mrs e x Hm Hr) as (R1 & P1 & E1).
    destruct (IH _ _ _ P1 R1) as (R2 & P2 & E2).
    destruct (IH _ _ _ P2 R2) as (R3 & P3 & E3).
    split; [| split; [exact P3 |]].
    + replace (e + Zpos p~1)%Z with (e + 1 + Zpos p + Zpos p)%Z by lia.
      exact R3.
    + rewrite E3, E2, E1.
      replace (shr_m mrs / 2)%Z with (shr_m mrs / 2 ^ 1)%Z
        by (rewrite Z.pow_1_r; reflexivity).
      rewrite !Hdd by lia. f_equal. f_equal. lia.
  - destruct (IH _ _ _ Hm Hr) as (R2 & P2 & E2).
    destruct (IH _ _ _ P2 R2) as (R3 & P3 & E3).
    split; [| split; [exact P3 |]].
    + replace (e + Zpos p~0)%Z with (e + Zpos p + Zpos p)%Z by lia.
      exact R3.
    + rewrite E3, E2. rewrite !Hdd by lia. f_equal. f_equal. lia.
  - destruct (@shr_1_repr mrs e x Hm Hr) as (R1 & P1 & E1).
    split; [exact R1 |]. split; [exact P1 |].
    rewrite E1, Z.pow_1_r. reflexivity.
Qed.

(** The rounding exponent of binary64. *)
Definition fexp64 (d : Z) : Z := Z.max (d - 53) (-1074).

Lemma fexp_eq d : SpecFloat.fexp prec emax d = fexp64 d.
Proof. reflexivity. Qed.

Lemma shr_fexp_repr (m e : Z) (l : location) (x : R) :
  (0 <= m)%Z -> repr m e l x ->
  let (mrs', e') := shr_fexp prec emax m e l in
  repr_rec mrs' e' x /\ (0 <= shr_m mrs')%Z /\
  e' = Z.max e (fexp64 (Zdigits2 m + e)) /\
  shr_m mrs' = (m / 2 ^ (e' - e))%Z.
Proof.
  intros Hm Hr. unfold shr_fexp. rewrite fexp_eq.
  set (t := fexp64 (Zdigits2 m + e)).
  assert (Hm' : (0 <= shr_m (shr_record_of_loc m l))%Z)
    by (destruct l as [| []]; exact Hm).
  assert (Em : shr_m (shr_record_of_loc m l) = m)
    by (destruct l as [| []]; reflexivity).
  pose proof (repr_rec_of_loc Hr) as Hr'.
  unfold shr. destruct (t - e)%Z as [| p | p] eqn:Ed.
  - split; [exact Hr' |]. split; [exact Hm' |]. split; [lia |].
    rewrite Em, Z.sub_diag, Z.pow_0_r, Z.div_1_r. reflexivity.
  - destruct (@iter_shr_repr p _ _ _ Hm' Hr') as (R1 & P1 & E1).
    split; [exact R1 |]. split; [exact P1 |]. split; [lia |].
    rewrite E1, Em. f_equal. f_equal. lia.
  - split; [exact Hr' |]. split; [exact Hm' |]. split; [lia |].
    rewrite Em, Z.sub_diag, Z.pow_0_r, Z.div_1_r. reflexivity.
Qed.

(** ** Rounding to nearest, ties to even *)

Definition nearest_even (y : R) (n : Z) : Prop :=
  - / 2 <= IZR n - y <= / 2 /\
  (IZR n - y = / 2 \/ IZR n - y = - / 2 -> Z.even n = true).

Lemma rne_nearest (m : Z) (l : location) (d : R) :
  inb l d -> nearest_even (IZR m + d) (round_nearest_even m l).
Proof.
  unfold nearest_even. destruct l as [| []]; simpl; intros Hd.
  - split; [Lra.lra |]. intros [H | H]; Lra.lra.
  - subst d. destruct (Z.even m) eqn:Ev.
    + split; [Lra.lra |]. intros _. exact Ev.
    + rewrite plus_IZR. split; [Lra.lra |]. intros _.
      change (m + 1)%Z with (Z.succ m). rewrite Z.even_succ, <- Z.negb_even, Ev.
      reflexivity.
  - split; [Lra.lra |]. intros [H | H]; Lra.lra.
  - rewrite plus_IZR. split; [Lra.lra |]. intros [H | H]; Lra.lra.
Qed.

Lemma rne_range (m : Z) (l : location) :
  (m <= round_nearest_even m l <= m + 1)%Z.
Proof.
  destruct l as [| []]; simpl; try lia. destruct (Z.even m); lia.
Qed.

(** [x] is in the binade of exponent [D]. *)
Definition binade (D : Z) (x : R) : Prop := b2 (D - 1) <= x < b2 D.

Lemma binade_unique D D' x : binade D x -> binade D' x -> D = D'.
Proof.
  unfold binade. intros [H1 H2] [H3 H4].
  destruct (Z.lt_trichotomy D D') as [H | [H | H]]; [| exact H |].
  - pose proof (@b2_le D (D' - 1) ltac:(lia)). Lra.lra.
  - pose proof (@b2_le D' (D - 1) ltac:(lia)). Lra.lra.
Qed.

Lemma binade_repr (p : positive) (e : Z) (l : location) (x : R) :
  repr (Zpos p) e l x -> binade (digits p + e) x.
Proof.
  intros (d & Hd & ->). apply inb_range in Hd.
  pose proof (digits_bounds p) as [B1 B2]. pose proof (digits_pos p) as Hp.
  unfold binade.
  replace (digits p + e - 1)%Z with ((digits p - 1) + e)%Z by lia.
  rewrite !b2_add.
  rewrite (@b2_IZR (digits p) ltac:(lia)), (@b2_IZR (digits p - 1) ltac:(lia)).
  pose proof (b2_pos e).
  apply IZR_le in B1.
  assert (B2' : IZR (Zpos p) + 1 <= IZR (2 ^ digits p)).
  { rewrite <- plus_IZR. apply IZR_le. lia. }
  split.
  - apply Rmult_le_compat_r; Lra.lra.
  - apply Rmult_lt_compat_r; Lra.lra.
Qed.

(** Rounding [x > 0]: the multiple of the unit of its binade nearest to
    it. *)
Definition Rnd (x r : R) : Prop :=
  exists D n, binade D x /\ nearest_even (x / b2 (fexp64 D)) n /\
              r = IZR n * b2 (fexp64 D).

Lemma div_b2 (a : R) (t : Z) : a * b2 t / b2 t = a.
Proof. pose proof (b2_pos t). field. Lra.lra. Qed.

Lemma b2_m1 : b2 (-1) = / 2.
Proof. unfold b2. simpl. Lra.lra. Qed.

(** The first shift of [binary_round_aux] brings the mantissa to the unit
    of the binade. *)
Lemma first_shift (m e : Z) (l : location) (x : R) (D : Z) :
  (0 <= m)%Z -> repr m e l x -> binade D x -> (e <= fexp64 D)%Z ->
  exists mrs, shr_fexp prec emax m e l = (mrs, fexp64 D) /\
              repr_rec mrs (fexp64 D) x /\ (0 <= shr_m mrs)%Z.
Proof.
  intros Hm Hr HD He.
  pose proof (shr_fexp_repr Hm Hr) as S.
  destruct (shr_fexp prec emax m e l) as [mrs e1].
  destruct S as (R1 & P1 & E1 & _).
  assert (Ee : e1 = fexp64 D);
    [| rewrite Ee in R1 |- *; exists mrs; repeat split; assumption].
  destruct m as [| p | p]; [| | lia].
  - (* no mantissa: x is below one unit of [e] *)
    destruct Hr as (d & Hd & Ex). apply inb_range in Hd.
    assert (Hx : x < b2 e).
    { rewrite Ex. pose proof (b2_pos e). Lra.nra. }
    destruct HD as [HD1 HD2].
    assert (D <= e)%Z.
    { destruct (Z.le_gt_cases D e) as [H | H]; [exact H |].
      pose proof (@b2_le e (D - 1) ltac:(lia)). Lra.lra. }
    rewrite E1. cbn [Zdigits2]. unfold fexp64 in *. lia.
  - pose proof (binade_repr Hr) as HD'.
    rewrite (binade_unique HD HD'). rewrite E1. cbn [Zdigits2].
    fold (digits p). rewrite (binade_unique HD HD') in He. lia.
Qed.

Lemma round_aux (s : bool) (m e : Z) (l : location) (x : R) (D : Z) :
  (0 <= m)%Z -> repr m e l x -> binade D x -> (e <= fexp64 D)%Z ->
  (D <= 1023)%Z ->
  exists n, nearest_even (x / b2 (fexp64 D)) n /\
    match binary_round_aux prec emax s m e l with
    | S754_zero s' => s' = s /\ n = 0%Z
    | S754_finite s' m' e' =>
        s' = s /\ IZR (Zpos m') * b2 e' = IZR n * b2 (fexp64 D) /\
        SpecFloat.bounded prec emax m' e' = true
    | _ => False
    end.
Proof.
  intros Hm Hr HD He HD1023.
  destruct (first_shift Hm Hr HD He) as (mrs & E1 & R1 & P1).
  unfold binary_round_aux. rewrite E1.
  set (t := fexp64 D) in *.
  destruct R1 as (d1 & Hd1 & Ex).
  set (m1 := shr_m mrs) in *.
  set (n := round_nearest_even m1 (loc_of_shr_record mrs)).
  exists n.
  assert (Ey : x / b2 t = IZR m1 + d1) by (rewrite Ex; apply div_b2).
  split; [rewrite Ey; apply rne_nearest; exact Hd1 |].
  pose proof (rne_range m1 (loc_of_shr_record mrs)) as Hn. fold n in Hn.
  pose proof (inb_range _ _ Hd1) as Hd1'.
  destruct HD as [HD1 HD2].
  assert (Ht : (-1074 <= t)%Z) by (unfold t, fexp64; lia).
  assert (Ht' : (t <= 970)%Z) by (unfold t, fexp64; lia).
  assert (HDt : (D - t <= 53)%Z) by (unfold t, fexp64; lia).
  (* the mantissa after the first shift *)
  assert (Hy2 : IZR m1 + d1 < b2 (D - t)).
  { rewrite <- Ey. replace D with ((D - t) + t)%Z in HD2 by lia.
    rewrite b2_add in HD2. pose proof (b2_pos t).
    apply (Rmult_lt_reg_r (b2 t)); [Lra.lra |].
    unfold Rdiv. rewrite Rmult_assoc, Rinv_l by Lra.lra. Lra.lra. }
  assert (Hy1 : b2 (D - 1 - t) <= IZR m1 + d1).
  { rewrite <- Ey. replace (D - 1)%Z with ((D - 1 - t) + t)%Z in HD1 by lia.
    rewrite b2_add in HD1. pose proof (b2_pos t).
    apply (Rmult_le_reg_r (b2 t)); [Lra.lra |].
    unfold Rdiv. rewrite Rmult_assoc, Rinv_l by Lra.lra. Lra.lra. }
  assert (Hn53 : (n <= 2 ^ 53)%Z).
  { destruct (Z.le_gt_cases 0 (D - t)) as [Hk | Hk].
    - rewrite b2_IZR in Hy2 by exact Hk.
      assert (IZR m1 < IZR (2 ^ (D - t))) by Lra.lra.
      apply lt_IZR in H.
      assert (2 ^ (D - t) <= 2 ^ 53)%Z by (apply Z.pow_le_mono_r; lia).
      lia.
    - pose proof (@b2_le (D - t) (-1) ltac:(lia)) as Hb. rewrite b2_m1 in Hb.
      assert (IZR m1 < IZR 1) by Lra.lra.
      apply lt_IZR in H. lia. }
  assert (Hnormal : (D - 53 = t)%Z -> (2 ^ 52 <= n)%Z).
  { intros En. replace (D - 1 - t)%Z with 52%Z in Hy1 by lia.
    rewrite b2_IZR in Hy1 by lia.
    assert (IZR (2 ^ 52) < IZR (m1 + 1)) by (rewrite plus_IZR; Lra.lra).
    apply lt_IZR in H. lia. }
  (* the second shift *)
  assert (Hr2 : repr n t loc_Exact (IZR n * b2 t)).
  { exists 0. split; [reflexivity | ring]. }
  assert (Hn0 : (0 <= n)%Z) by lia.
  pose proof (shr_fexp_repr Hn0 Hr2) as S2.
  destruct (shr_fexp prec emax n t loc_Exact) as [mrs2 e2].
  destruct S2 as (_ & P2 & E2 & M2).
  destruct n as [| q | q] eqn:En; [| | lia].
  - (* zero *)
    cbn [Zdigits2] in E2.
    assert (He2 : e2 = t) by (unfold fexp64 in E2; lia). clear E2. subst e2.
    rewrite Z.sub_diag, Z.pow_0_r, Z.div_1_r in M2. rewrite M2.
    split; reflexivity.
  - cbn [Zdigits2] in E2. fold (digits q) in E2.
    destruct (Z.eq_dec (Zpos q) (2 ^ 53)) as [Ec | Ec].
    + (* the carry *)
      assert (Hq : digits q = 54%Z).
      { apply Z.le_antisymm.
        - apply digits_le; [rewrite Ec; reflexivity | lia].
        - apply digits_ge; [rewrite Ec; reflexivity | lia]. }
      rewrite Hq in E2.
      assert (He2 : e2 = (t + 1)%Z) by (unfold fexp64 in E2; lia). clear E2. subst e2.
      replace (t + 1 - t)%Z with 1%Z in M2 by lia.
      rewrite Ec in M2. change (2 ^ 53 / 2 ^ 1)%Z with (2 ^ 52)%Z in M2.
      rewrite M2. change (2 ^ 52)%Z with (Zpos (2 ^ 52)%positive).
      replace (Z.leb (t + 1) (emax - prec)) with true
        by (symmetry; apply Z.leb_le; change (emax - prec)%Z with 971%Z; lia).
      split; [reflexivity |]. split.
      * rewrite Ec, b2_half. change (Zpos (2 ^ 52)%positive) with (2 ^ 52)%Z.
        change (2 ^ 53)%Z with (2 * 2 ^ 52)%Z. rewrite (mult_IZR 2). ring.
      * unfold SpecFloat.bounded, canonical_mantissa. rewrite fexp_eq.
        apply andb_true_intro. split.
        -- apply Z.eqb_eq. change (Zpos (digits2_pos (2 ^ 52))) with 53%Z.
           unfold fexp64. lia.
        -- apply Z.leb_le. change (emax - prec)%Z with 971%Z. lia.
    + assert (Hq : (digits q <= 53)%Z).
      { apply digits_le; [| lia]. lia. }
      assert (He2 : e2 = t) by (unfold fexp64 in E2; lia). clear E2. subst e2.
      rewrite Z.sub_diag, Z.pow_0_r, Z.div_1_r in M2. rewrite M2.
      replace (Z.leb t (emax - prec)) with true
        by (symmetry; apply Z.leb_le; change (emax - prec)%Z with 971%Z; lia).
      split; [reflexivity |]. split; [reflexivity |].
      unfold SpecFloat.bounded, canonical_mantissa. rewrite fexp_eq.
      apply andb_true_intro. split.
      * apply Z.eqb_eq. fold (digits q).
        destruct (Z.eq_dec (D - 53) t) as [Et | Et].
        -- assert (53 <= digits q)%Z.
           { apply digits_ge; [| lia]. specialize (Hnormal Et). lia. }
           unfold fexp64. lia.
        -- assert (t = -1074)%Z by (unfold t, fexp64 in *; lia).
           unfold fexp64. lia.
      * apply Z.leb_le. change (emax - prec)%Z with 971%Z. lia.
Qed.

(** ** Properties of rounding *)

Lemma fexp64_mono a b : (a <= b)%Z -> (fexp64 a <= fexp64 b)%Z.
Proof. unfold fexp64. lia. Qed.

Lemma binade_pos D x : binade D x -> 0 < x.
Proof. intros [H _]. pose proof (b2_pos (D - 1)). Lra.lra. Qed.

Lemma binade_le D1 D2 x1 x2 :
  binade D1 x1 -> binade D2 x2 -> x1 <= x2 -> (D1 <= D2)%Z.
Proof.
  intros [A1 A2] [B1 B2] H.
  destruct (Z.le_gt_cases D1 D2) as [L | L]; [exact L |].
  pose proof (@b2_le D2 (D1 - 1) ltac:(lia)). Lra.lra.
Qed.

(** An integer at most a half away from a number above (below) an integer
    is at least (at most) that integer. *)
Lemma nearest_ge (y : R) (n k : Z) :
  nearest_even y n -> IZR k <= y -> (k <= n)%Z.
Proof.
  intros [[H1 H2] _] Hk.
  assert (IZR k - 1 < IZR n) by Lra.lra.
  rewrite <- minus_IZR in H. apply lt_IZR in H. lia.
Qed.

Lemma nearest_le (y : R) (n k : Z) :
  nearest_even y n -> y <= IZR k -> (n <= k)%Z.
Proof.
  intros [[H1 H2] _] Hk.
  assert (IZR n < IZR k + 1) by Lra.lra.
  rewrite <- plus_IZR in H. apply lt_IZR in H. lia.
Qed.

Lemma nearest_mono (y1 y2 : R) (n1 n2 : Z) :
  nearest_even y1 n1 -> nearest_even y2 n2 -> y1 <= y2 -> (n1 <= n2)%Z.
Proof.
  intros [[A1 A2] A3] [[B1 B2] B3] H.
  destruct (Z.le_gt_cases n1 n2) as [L | L]; [exact L |].
  assert (Hn : IZR n2 + 1 <= IZR n1).
  { rewrite <- plus_IZR. apply IZR_le. lia. }
  assert (E1 : IZR n1 - y1 = / 2) by Lra.lra.
  assert (E2 : IZR n2 - y2 = - / 2) by Lra.lra.
  assert (E : IZR n1 = IZR n2 + 1) by Lra.lra.
  rewrite <- plus_IZR in E. apply eq_IZR in E.
  specialize (A3 (or_introl E1)). specialize (B3 (or_intror E2)).
  subst n1. change (n2 + 1)%Z with (Z.succ n2) in A3.
  rewrite Z.even_succ, <- Z.negb_even, B3 in A3. discriminate.
Qed.

Lemma Rnd_nonneg x r : Rnd x r -> 0 <= r.
Proof.
  intros (D & n & HD & Hn & ->).
  pose proof (binade_pos HD) as Hx. pose proof (b2_pos (fexp64 D)) as Hb.
  assert (0 <= x / b2 (fexp64 D)).
  { unfold Rdiv. apply Rmult_le_pos; [Lra.lra |].
    apply Rlt_le, Rinv_0_lt_compat, Hb. }
  assert (0 <= n)%Z by (apply (@nearest_ge _ n 0 Hn); simpl; exact H).
  apply IZR_le in H0. apply Rmult_le_pos; Lra.lra.
Qed.

Lemma div_le_b2 (x1 x2 : R) (t : Z) :
  x1 <= x2 -> x1 / b2 t <= x2 / b2 t.
Proof.
  intros H. pose proof (b2_pos t). unfold Rdiv.
  apply Rmult_le_compat_r; [apply Rlt_le, Rinv_0_lt_compat; assumption |].
  exact H.
Qed.

Lemma b2_div (a t : Z) : b2 a / b2 t = b2 (a - t).
Proof.
  replace a with ((a - t) + t)%Z at 1 by lia. rewrite b2_add. apply div_b2.
Qed.

(** Rounding is monotone. *)
Lemma Rnd_mono x1 x2 r1 r2 : Rnd x1 r1 -> Rnd x2 r2 -> x1 <= x2 -> r1 <= r2.
Proof.
  intros (D1 & n1 & HD1 & Hn1 & ->) (D2 & n2 & HD2 & Hn2 & ->) Hx.
  pose proof (binade_le HD1 HD2 Hx) as HD.
  pose proof (fexp64_mono HD) as Ht.
  set (t1 := fexp64 D1) in *. set (t2 := fexp64 D2) in *.
  destruct (Z.eq_dec t1 t2) as [Et | Et].
  - rewrite <- Et in *.
    assert (n1 <= n2)%Z.
    { apply (nearest_mono Hn1 Hn2). apply div_le_b2, Hx. }
    apply IZR_le in H. pose proof (b2_pos t1).
    apply Rmult_le_compat_r; Lra.lra.
  - (* different units: the power of two between them *)
    assert (Ht2 : t2 = (D2 - 53)%Z) by (unfold t1, t2, fexp64 in *; lia).
    assert (HDD : (D1 < D2)%Z).
    { destruct (Z.eq_dec D1 D2) as [E | E]; [| lia].
      exfalso. apply Et. unfold t1, t2. rewrite E. reflexivity. }
    assert (Hk : (0 <= D2 - 1 - t1)%Z) by (unfold t1, t2, fexp64 in *; lia).
    destruct HD1 as [_ HD1]. destruct HD2 as [HD2 _].
    assert (L1 : (n1 <= 2 ^ (D2 - 1 - t1))%Z).
    { apply (@nearest_le _ n1 _ Hn1). rewrite <- b2_IZR by exact Hk.
      rewrite <- b2_div. apply div_le_b2.
      pose proof (@b2_le D1 (D2 - 1) ltac:(lia)). Lra.lra. }
    assert (L2 : (2 ^ 52 <= n2)%Z).
    { apply (@nearest_ge _ n2 _ Hn2). rewrite <- b2_IZR by lia.
      replace 52%Z with (D2 - 1 - t2)%Z by lia.
      rewrite <- b2_div. apply div_le_b2. exact HD2. }
    apply IZR_le in L1, L2. rewrite <- b2_IZR in L1, L2 by lia.
    pose proof (b2_pos t1). pose proof (b2_pos t2).
    apply Rle_trans with (b2 (D2 - 1)).
    + replace (D2 - 1)%Z with ((D2 - 1 - t1) + t1)%Z by lia.
      rewrite b2_add. apply Rmult_le_compat_r; Lra.lra.
    + replace (D2 - 1)%Z with (52 + t2)%Z by lia.
      rewrite b2_add. apply Rmult_le_compat_r; Lra.lra.
Qed.

(** A multiple of the unit of its binade rounds to itself. *)
Lemma Rnd_exact (x r : R) (D k : Z) :
  binade D x -> x = IZR k * b2 (fexp64 D) -> Rnd x r -> r = x.
Proof.
  intros HD Ex (D' & n & HD' & Hn & ->).
  rewrite <- (binade_unique HD HD') in *.
  rewrite Ex in Hn. rewrite div_b2 in Hn.
  assert (n <= k)%Z by (apply (@nearest_le _ n k Hn); Lra.lra).
  assert (k <= n)%Z by (apply (@nearest_ge _ n k Hn); Lra.lra).
  rewrite Ex. f_equal. f_equal. lia.
Qed.

Lemma Rnd_of_exact (x : R) (D k : Z) :
  binade D x -> x = IZR k * b2 (fexp64 D) -> Rnd x x.
Proof.
  intros HD Ex. exists D, k. split; [exact HD |]. split; [| exact Ex].
  rewrite Ex, div_b2. unfold nearest_even.
  replace (IZR k - IZR k) with 0 by ring.
  split; [Lra.lra |]. intros [H | H]; Lra.lra.
Qed.

(** ** Rounding with a sign *)

Definition Rnds (x r : R) : Prop :=
  (x = 0 /\ r = 0) \/ (0 < x /\ Rnd x r) \/ (x < 0 /\ Rnd (- x) (- r)).

Lemma Rnds_mono x1 x2 r1 r2 :
  Rnds x1 r1 -> Rnds x2 r2 -> x1 <= x2 -> r1 <= r2.
Proof.
  intros [[A1 A2] | [[A1 A2] | [A1 A2]]] [[B1 B2] | [[B1 B2] | [B1 B2]]] H;
    try Lra.lra;
    try (pose proof (Rnd_nonneg A2)); try (pose proof (Rnd_nonneg B2));
    try Lra.lra.
  - apply (Rnd_mono A2 B2 H).
  - assert (- r2 <= - r1) by (apply (Rnd_mono B2 A2); Lra.lra). Lra.lra.
Qed.

Lemma Rnds_sign_pos x r : Rnds x r -> 0 <= x -> 0 <= r.
Proof.
  intros [[A1 A2] | [[A1 A2] | [A1 A2]]] H; try Lra.lra.
  apply (Rnd_nonneg A2).
Qed.

Lemma Rnds_sign_neg x r : Rnds x r -> x <= 0 -> r <= 0.
Proof.
  intros [[A1 A2] | [[A1 A2] | [A1 A2]]] H; try Lra.lra.
  pose proof (Rnd_nonneg A2). Lra.lra.
Qed.

(** ** The value of a float *)

Definition signed (s : bool) (r : R) : R := if s then - r else r.

Definition SFval (f : spec_float) : R :=
  match f with
  | S754_finite s m e => signed s (IZR (Zpos m) * b2 e)
  | _ => 0
  end.

Definition fin (f : spec_float) : bool :=
  match f with
  | S754_zero _ | S754_finite _ _ _ => true
  | _ => false
  end.

Lemma valid_canonical s m e :
  valid_binary (S754_finite s m e) = true ->
  e = fexp64 (digits m + e) /\ (e <= 971)%Z.
Proof.
  cbn [SpecFloat.valid_binary]. unfold SpecFloat.bounded, canonical_mantissa.
  rewrite fexp_eq. intros H. apply andb_prop in H as [H1 H2].
  apply Z.eqb_eq in H1. apply Z.leb_le in H2.
  change (emax - prec)%Z with 971%Z in H2. fold (digits m) in H1.
  split; [symmetry; exact H1 | exact H2].
Qed.

Lemma repr_exact (m e : Z) : repr m e loc_Exact (IZR m * b2 e).
Proof. exists 0. split; [reflexivity | ring]. Qed.

Lemma binade_mant (m : positive) (e : Z) :
  binade (digits m + e) (IZR (Zpos m) * b2 e).
Proof. apply (binade_repr (repr_exact (Zpos m) e)). Qed.

Lemma mant_pos (m : positive) (e : Z) : 0 < IZR (Zpos m) * b2 e.
Proof. apply (binade_pos (binade_mant m e)). Qed.

(** The float of a canonical mantissa is the rounding of its value. *)
Lemma Rnd_id (m : positive) (e : Z) :
  e = fexp64 (digits m + e) ->
  Rnd (IZR (Zpos m) * b2 e) (IZR (Zpos m) * b2 e).
Proof.
  intros He. apply (@Rnd_of_exact _ (digits m + e) (Zpos m)).
  - apply binade_mant.
  - rewrite <- He. reflexivity.
Qed.

Lemma Rnds_id (f : spec_float) :
  valid_binary f = true -> Rnds (SFval f) (SFval f).
Proof.
  destruct f as [s | s | | s m e]; try (intros _; left; split; reflexivity).
  intros V. destruct (@valid_canonical _ _ _ V) as [He _].
  pose proof (mant_pos m e) as Hp. pose proof (Rnd_id m He) as Hr.
  cbn [SFval]. destruct s; unfold signed.
  - right. right. split; [Lra.lra |]. rewrite !Ropp_involutive. exact Hr.
  - right. left. split; [exact Hp | exact Hr].
Qed.

Lemma binade_below (D : Z) (x : R) (B : Z) :
  binade D x -> x < b2 B -> (D <= B)%Z.
Proof.
  intros [H1 H2] Hx. destruct (Z.le_gt_cases D B) as [L | L]; [exact L |].
  pose proof (@b2_le B (D - 1) ltac:(lia)). Lra.lra.
Qed.

(** What [binary_round_aux] returns, as a value. *)
Lemma round_aux_Rnd (s : bool) (m e : Z) (l : location) (x : R) (D : Z) :
  (0 <= m)%Z -> repr m e l x -> binade D x -> (e <= fexp64 D)%Z ->
  x < b2 1023 ->
  let z := binary_round_aux prec emax s m e l in
  exists r, Rnd x r /\ SFval z = signed s r /\ fin z = true /\
            valid_binary z = true.
Proof.
  intros Hm Hr HD He Hx z.
  pose proof (@binade_below D x 1023 HD Hx) as HD'.
  destruct (@round_aux s m e l x D Hm Hr HD He HD') as (n & Hn & Hz).
  fold z in Hz. exists (IZR n * b2 (fexp64 D)).
  split; [exists D, n; auto |].
  destruct z as [s' | s' | | s' m' e']; try contradiction.
  - destruct Hz as [-> ->]. cbn [SFval fin]. unfold signed.
    repeat split. destruct s; ring.
  - destruct Hz as (-> & E & B). cbn [SFval fin SpecFloat.valid_binary].
    rewrite E. auto.
Qed.

Lemma Rnds_signed (s : bool) (x r : R) :
  0 < x -> Rnd x r -> Rnds (signed s x) (signed s r).
Proof.
  intros Hx Hr. destruct s; unfold signed.
  - right. right. split; [Lra.lra |]. rewrite !Ropp_involutive. exact Hr.
  - right. left. auto.
Qed.

(** ** Multiplication *)

Lemma digits_mul (a b : positive) :
  (digits a + digits b - 1 <= digits (a * b))%Z.
Proof.
  pose proof (digits_bounds a) as [A _]. pose proof (digits_bounds b) as [B _].
  pose proof (digits_pos a). pose proof (digits_pos b).
  apply digits_ge; [| lia].
  replace (digits a + digits b - 1 - 1)%Z
    with ((digits a - 1) + (digits b - 1))%Z by lia.
  rewrite Z.pow_add_r by lia. rewrite Pos2Z.inj_mul.
  apply Z.mul_le_mono_nonneg; try assumption;
    apply Z.pow_nonneg; lia.
Qed.

Lemma signed_mul (sx sy : bool) (a b : R) :
  signed sx a * signed sy b = signed (xorb sx sy) (a * b).
Proof. destruct sx, sy; unfold signed; simpl; ring. Qed.

Lemma Rabs_signed (s : bool) (a : R) : 0 < a -> Rabs (signed s a) = a.
Proof.
  intros Ha. destruct s; unfold signed.
  - rewrite Rabs_Ropp. apply Rabs_pos_eq. Lra.lra.
  - apply Rabs_pos_eq. Lra.lra.
Qed.

Lemma SFmul_Rnds (x y : spec_float) :
  valid_binary x = true -> valid_binary y = true ->
  fin x = true -> fin y = true ->
  Rabs (SFval x * SFval y) < b2 1023 ->
  fin (SFmul prec emax x y) = true /\
  Rnds (SFval x * SFval y) (SFval (SFmul prec emax x y)).
Proof.
  intros Vx Vy Fx Fy Hb.
  destruct x as [sx | sx | | sx mx ex]; try discriminate;
    destruct y as [sy | sy | | sy my ey]; try discriminate;
    cbn [SFmul SFval fin];
    try (split; [reflexivity | left; split; ring]).
  destruct (@valid_canonical _ _ _ Vx) as [Ex _].
  destruct (@valid_canonical _ _ _ Vy) as [Ey _].
  cbn [SFval] in Hb. rewrite signed_mul in Hb |- *.
  assert (E : IZR (Zpos mx) * b2 ex * (IZR (Zpos my) * b2 ey)
              = IZR (Zpos (mx * my)) * b2 (ex + ey)).
  { rewrite Pos2Z.inj_mul, mult_IZR, b2_add. ring. }
  rewrite E in Hb |- *.
  pose proof (mant_pos (mx * my) (ex + ey)) as Hp.
  rewrite Rabs_signed in Hb by exact Hp.
  pose proof (digits_mul mx my) as Hd.
  pose proof (digits_pos mx). pose proof (digits_pos my).
  assert (He : (ex + ey <= fexp64 (digits (mx * my) + (ex + ey)))%Z)
    by (unfold fexp64 in *; lia).
  destruct (@round_aux_Rnd (xorb sx sy) (Zpos (mx * my)) (ex + ey) loc_Exact
              _ _ ltac:(lia) (repr_exact _ _) (binade_mant _ _) He Hb)
    as (r & Hr & Ez & Fz & _).
  split; [exact Fz |]. rewrite Ez. apply Rnds_signed; assumption.
Qed.

(** ** Addition and subtraction *)

Lemma iter_xO (m d : positive) :
  Zpos (Pos.iter xO m d) = (Zpos m * 2 ^ Zpos d)%Z.
Proof.
  induction d as [| d IH] using Pos.peano_ind.
  - simpl. lia.
  - rewrite Pos.iter_succ, Pos2Z.inj_xO, IH, Pos2Z.inj_succ, Z.pow_succ_r by lia.
    lia.
Qed.

Lemma shl_align_val (m : positive) (e e0 : Z) :
  IZR (Zpos (fst (shl_align m e e0))) * b2 (snd (shl_align m e e0))
  = IZR (Zpos m) * b2 e /\
  snd (shl_align m e e0) = Z.min e e0.
Proof.
  unfold shl_align. destruct (e0 - e)%Z as [| d | d] eqn:Ed; cbn [fst snd].
  - split; [reflexivity | lia].
  - split; [reflexivity | lia].
  - split; [| lia]. rewrite iter_xO, mult_IZR.
    rewrite <- b2_IZR by lia. rewrite Rmult_assoc, <- b2_add.
    f_equal. f_equal. lia.
Qed.

Lemma shl_align_min (m : positive) (e ez : Z) :
  (ez <= e)%Z ->
  IZR (Zpos (fst (shl_align m e ez))) * b2 ez = IZR (Zpos m) * b2 e.
Proof.
  intros H. destruct (shl_align_val m e ez) as [E1 E2].
  rewrite E2 in E1. rewrite Z.min_r in E1 by exact H. exact E1.
Qed.

Lemma binary_round_Rnd (s : bool) (p : positive) (e : Z) :
  IZR (Zpos p) * b2 e < b2 1023 ->
  let z := binary_round prec emax s p e in
  exists r, Rnd (IZR (Zpos p) * b2 e) r /\ SFval z = signed s r /\
            fin z = true /\ valid_binary z = true.
Proof.
  intros Hb z. subst z. unfold binary_round. rewrite fexp_eq.
  fold (digits p).
  destruct (shl_align_val p e (fexp64 (digits p + e))) as [E1 E2].
  destruct (shl_align p e (fexp64 (digits p + e))) as [mz ez].
  cbn [fst snd] in E1, E2.
  pose proof (binade_mant p e) as HD. rewrite <- E1 in HD, Hb |- *.
  apply (@round_aux_Rnd s (Zpos mz) ez loc_Exact _ (digits p + e));
    [lia | apply repr_exact | exact HD | lia | exact Hb].
Qed.

Lemma normalize_Rnds (S e : Z) :
  Rabs (IZR S * b2 e) < b2 1023 ->
  let z := binary_normalize prec emax S e false in
  fin z = true /\ valid_binary z = true /\ Rnds (IZR S * b2 e) (SFval z).
Proof.
  intros Hb z. subst z. destruct S as [| p | p]; cbn [binary_normalize].
  - split; [reflexivity |]. split; [reflexivity |]. left. split; simpl; ring.
  - pose proof (mant_pos p e) as Hp. rewrite Rabs_pos_eq in Hb by Lra.lra.
    destruct (binary_round_Rnd false p e Hb) as (r & Hr & Ez & Fz & Vz).
    split; [exact Fz |]. split; [exact Vz |]. rewrite Ez.
    apply (Rnds_signed false Hp Hr).
  - pose proof (mant_pos p e) as Hp.
    assert (E : IZR (Zneg p) * b2 e = signed true (IZR (Zpos p) * b2 e)).
    { unfold signed. change (Zneg p) with (- Zpos p)%Z. rewrite opp_IZR. ring. }
    rewrite E in Hb |- *. rewrite Rabs_signed in Hb by exact Hp.
    destruct (binary_round_Rnd true p e Hb) as (r & Hr & Ez & Fz & Vz).
    split; [exact Fz |]. split; [exact Vz |]. rewrite Ez.
    apply (Rnds_signed true Hp Hr).
Qed.

Lemma cond_Zopp_val (s : bool) (m : positive) (e ez : Z) :
  (ez <= e)%Z ->
  IZR (cond_Zopp s (Zpos (fst (shl_align m e ez)))) * b2 ez
  = signed s (IZR (Zpos m) * b2 e).
Proof.
  intros H. rewrite <- (shl_align_min m H).
  destruct s; unfold signed, cond_Zopp; [rewrite opp_IZR; ring | reflexivity].
Qed.

Lemma SFadd_Rnds (x y : spec_float) :
  valid_binary x = true -> valid_binary y = true ->
  fin x = true -> fin y = true ->
  Rabs (SFval x + SFval y) < b2 1023 ->
  fin (SFadd prec emax x y) = true /\
  Rnds (SFval x + SFval y) (SFval (SFadd prec emax x y)).
Proof.
  intros Vx Vy Fx Fy Hb.
  destruct x as [sx | sx | | sx mx ex]; try discriminate;
    destruct y as [sy | sy | | sy my ey]; try discriminate.
  - cbn [SFadd SFval]. destruct sx, sy; cbn [fin SFval];
      (split; [reflexivity | left; split; ring]).
  - cbn [SFadd]. split; [reflexivity |].
    replace (SFval (S754_zero sx) + SFval (S754_finite sy my ey))
      with (SFval (S754_finite sy my ey)) by (cbn [SFval]; ring).
    apply Rnds_id, Vy.
  - cbn [SFadd]. split; [reflexivity |].
    replace (SFval (S754_finite sx mx ex) + SFval (S754_zero sy))
      with (SFval (S754_finite sx mx ex)) by (cbn [SFval]; ring).
    apply Rnds_id, Vx.
  - cbn [SFadd SFval] in *. cbv zeta.
    set (ez := Z.min ex ey).
    assert (E : signed sx (IZR (Zpos mx) * b2 ex)
                + signed sy (IZR (Zpos my) * b2 ey)
                = IZR (cond_Zopp sx (Zpos (fst (shl_align mx ex ez)))
                       + cond_Zopp sy (Zpos (fst (shl_align my ey ez))))
                  * b2 ez).
    { rewrite plus_IZR, Rmult_plus_distr_r.
      rewrite !cond_Zopp_val by (unfold ez; lia). reflexivity. }
    rewrite E in Hb |- *.
    destruct (normalize_Rnds _ _ Hb) as (Fz & _ & Rz). split; assumption.
Qed.

Lemma SFsub_Rnds (x y : spec_float) :
  valid_binary x = true -> valid_binary y = true ->
  fin x = true -> fin y = true ->
  Rabs (SFval x - SFval y) < b2 1023 ->
  fin (SFsub prec emax x y) = true /\
  Rnds (SFval x - SFval y) (SFval (SFsub prec emax x y)).
Proof.
  intros Vx Vy Fx Fy Hb.
  destruct x as [sx | sx | | sx mx ex]; try discriminate;
    destruct y as [sy | sy | | sy my ey]; try discriminate.
  - cbn [SFsub SFval]. destruct sx, sy; cbn [fin SFval];
      (split; [reflexivity | left; split; ring]).
  - cbn [SFsub]. split; [reflexivity |].
    replace (SFval (S754_zero sx) - SFval (S754_finite sy my ey))
      with (SFval (S754_finite (negb sy) my ey))
      by (cbn [SFval]; destruct sy; unfold signed; simpl; ring).
    apply Rnds_id. exact Vy.
  - cbn [SFsub]. split; [reflexivity |].
    replace (SFval (S754_finite sx mx ex) - SFval (S754_zero sy))
      with (SFval (S754_finite sx mx ex)) by (cbn [SFval]; ring).
    apply Rnds_id, Vx.
  - cbn [SFsub SFval] in *. cbv zeta.
    set (ez := Z.min ex ey).
    assert (E : signed sx (IZR (Zpos mx) * b2 ex)
                - signed sy (IZR (Zpos my) * b2 ey)
                = IZR (cond_Zopp sx (Zpos (fst (shl_align mx ex ez)))
                       - cond_Zopp sy (Zpos (fst (shl_align my ey ez))))
                  * b2 ez).
    { rewrite minus_IZR. unfold Rminus. rewrite Rmult_plus_distr_r.
      rewrite Ropp_mult_distr_l_reverse.
      rewrite !cond_Zopp_val by (unfold ez; lia). reflexivity. }
    rewrite E in Hb |- *.
    destruct (normalize_Rnds _ _ Hb) as (Fz & _ & Rz). split; assumption.
Qed.

(** ** Division *)

Lemma div_lt_intro (a b c : R) : 0 < b -> a < c * b -> a / b < c.
Proof.
  intros Hb H. apply (Rmult_lt_reg_r b); [exact Hb |].
  unfold Rdiv. rewrite Rmult_assoc, Rinv_l by Lra.lra. Lra.lra.
Qed.

Lemma div_gt_intro (a b c : R) : 0 < b -> c * b < a -> c < a / b.
Proof.
  intros Hb H. apply (Rmult_lt_reg_r b); [exact Hb |].
  unfold Rdiv. rewrite Rmult_assoc, Rinv_l by Lra.lra. Lra.lra.
Qed.

Lemma div_eq_intro (a b c : R) : 0 < b -> a = c * b -> a / b = c.
Proof. intros Hb ->. field. Lra.lra. Qed.

Lemma new_location_inb (m2 r : Z) :
  (0 < m2)%Z -> (0 <= r < m2)%Z ->
  inb (new_location m2 r) (IZR r / IZR m2).
Proof.
  intros Hm Hr.
  assert (Hb : 0 < IZR m2) by (apply IZR_lt; exact Hm).
  assert (Hlt : IZR r < IZR m2) by (apply IZR_lt; lia).
  unfold new_location.
  destruct (Z.even m2) eqn:Ev; unfold new_location_even, new_location_odd;
    (destruct (Z.eqb_spec r 0) as [-> | Hr0];
     [simpl; unfold Rdiv; ring |]);
    assert (Ha : 0 < IZR r) by (apply IZR_lt; lia).
  - destruct (Z.compare_spec (2 * r) m2) as [E | L | G]; simpl.
    + apply div_eq_intro; [exact Hb |]. rewrite <- E, mult_IZR. field.
    + apply IZR_lt in L. rewrite mult_IZR in L. split.
      * apply div_gt_intro; Lra.lra.
      * apply div_lt_intro; Lra.lra.
    + apply IZR_lt in G. rewrite mult_IZR in G. split.
      * apply div_gt_intro; Lra.lra.
      * apply div_lt_intro; Lra.lra.
  - assert (Hne : (2 * r <> m2)%Z).
    { intros E. rewrite <- E, Z.even_mul in Ev. discriminate. }
    destruct (Z.compare_spec (2 * r + 1) m2) as [E | L | G]; simpl.
    + assert (L : (2 * r < m2)%Z) by lia.
      apply IZR_lt in L. rewrite mult_IZR in L. split.
      * apply div_gt_intro; Lra.lra.
      * apply div_lt_intro; Lra.lra.
    + assert (L' : (2 * r < m2)%Z) by lia.
      apply IZR_lt in L'. rewrite mult_IZR in L'. split.
      * apply div_gt_intro; Lra.lra.
      * apply div_lt_intro; Lra.lra.
    + assert (G' : (m2 < 2 * r)%Z) by lia.
      apply IZR_lt in G'. rewrite mult_IZR in G'. split.
      * apply div_gt_intro; Lra.lra.
      * apply div_lt_intro; Lra.lra.
Qed.

Lemma div_core (m1 m2 : positive) (e1 e2 : Z) :
  let x := IZR (Zpos m1) * b2 e1 / (IZR (Zpos m2) * b2 e2) in
  let '(q, e', l) :=
    SFdiv_core_binary prec emax (Zpos m1) e1 (Zpos m2) e2 in
  (0 <= q)%Z /\ repr q e' l x /\
  exists D, binade D x /\ (e' <= fexp64 D)%Z.
Proof.
  intros x. unfold SFdiv_core_binary. rewrite fexp_eq. cbn [Zdigits2].
  fold (digits m1) (digits m2).
  set (D0 := (digits m1 + e1 - (digits m2 + e2))%Z).
  set (e' := Z.min (fexp64 D0) (e1 - e2)).
  set (s := (e1 - e2 - e')%Z).
  assert (Hs : (0 <= s)%Z) by (unfold s, e'; lia).
  set (m' := match s with
             | 0%Z => Zpos m1
             | Zpos _ => Z.shiftl (Zpos m1) s
             | Zneg _ => 0%Z
             end).
  assert (Em' : m' = (Zpos m1 * 2 ^ s)%Z).
  { unfold m'. destruct s as [| p | p] eqn:Es; [| | lia].
    - rewrite Z.pow_0_r. lia.
    - apply Z.shiftl_mul_pow2. lia. }
  pose proof (Z_div_mod m' (Zpos m2) ltac:(lia)) as Hdm.
  destruct (Z.div_eucl m' (Zpos m2)) as [q r]. destruct Hdm as [Ed Hr].
  assert (H2s : (0 < 2 ^ s)%Z) by (apply Z.pow_pos_nonneg; lia).
  assert (Hq : (0 <= q)%Z) by nia.
  pose proof (mant_pos m1 e1) as HA. pose proof (mant_pos m2 e2) as HB.
  assert (Hm2 : 0 < IZR (Zpos m2)) by (apply IZR_lt; lia).
  split; [exact Hq |]. split.
  - exists (IZR r / IZR (Zpos m2)). split.
    + apply new_location_inb; lia.
    + unfold x. apply div_eq_intro; [exact HB |].
      assert (E1 : IZR (Zpos m1) * b2 s
                   = IZR (Zpos m2) * IZR q + IZR r).
      { rewrite b2_IZR by exact Hs.
        rewrite <- !mult_IZR, <- plus_IZR, <- Em', Ed. reflexivity. }
      replace e1 with (s + (e2 + e'))%Z at 1 by (unfold s; lia).
      rewrite !b2_add.
      transitivity (IZR (Zpos m1) * b2 s * (b2 e2 * b2 e')); [ring |].
      rewrite E1. field. Lra.lra.
  - (* the binade of the quotient *)
    pose proof (digits_b2 m1) as [A1 A2]. pose proof (digits_b2 m2) as [B1 B2].
    pose proof (b2_pos e1). pose proof (b2_pos e2).
    assert (Hlo : b2 (D0 - 1) < x).
    { unfold x. apply div_gt_intro; [exact HB |].
      apply Rlt_le_trans with (b2 (D0 - 1) * (b2 (digits m2) * b2 e2)).
      - apply Rmult_lt_compat_l; [apply b2_pos |].
        apply Rmult_lt_compat_r; Lra.lra.
      - rewrite <- !b2_add.
        replace (D0 - 1 + (digits m2 + e2))%Z
          with ((digits m1 - 1) + e1)%Z by (unfold D0; lia).
        rewrite b2_add. apply Rmult_le_compat_r; Lra.lra. }
    assert (Hhi : x < b2 (D0 + 1)).
    { unfold x. apply div_lt_intro; [exact HB |].
      apply Rlt_le_trans with (b2 (digits m1) * b2 e1).
      - apply Rmult_lt_compat_r; Lra.lra.
      - rewrite <- b2_add.
        replace (digits m1 + e1)%Z
          with ((D0 + 1) + ((digits m2 - 1) + e2))%Z by (unfold D0; lia).
        rewrite (b2_add (D0 + 1)), (b2_add (digits m2 - 1)).
        apply Rmult_le_compat_l; [apply Rlt_le, b2_pos |].
        apply Rmult_le_compat_r; Lra.lra. }
    destruct (Rlt_le_dec x (b2 D0)) as [L | G].
    + exists D0. split; [split; Lra.lra |]. unfold e'. lia.
    + exists (D0 + 1)%Z. split.
      * unfold binade. replace (D0 + 1 - 1)%Z with D0 by lia. split; Lra.lra.
      * pose proof (@fexp64_mono D0 (D0 + 1) ltac:(lia)). unfold e'. lia.
Qed.

Lemma signed_div (sx sy : bool) (a b : R) :
  b <> 0 -> signed sx a / signed sy b = signed (xorb sx sy) (a / b).
Proof. intros Hb. destruct sx, sy; unfold signed; simpl; field; exact Hb. Qed.

Lemma SFdiv_Rnds (x y : spec_float) :
  valid_binary x = true -> valid_binary y = true ->
  fin x = true -> fin y = true -> SFval y <> 0 ->
  Rabs (SFval x / SFval y) < b2 1023 ->
  fin (SFdiv prec emax x y) = true /\
  Rnds (SFval x / SFval y) (SFval (SFdiv prec emax x y)).
Proof.
  intros Vx Vy Fx Fy Hy Hb.
  destruct x as [sx | sx | | sx mx ex]; try discriminate;
    destruct y as [sy | sy | | sy my ey]; try discriminate;
    try (exfalso; apply Hy; reflexivity).
  - cbn [SFdiv SFval fin]. split; [reflexivity |].
    left. split; [unfold Rdiv; ring | reflexivity].
  - cbn [SFdiv SFval] in *.
    pose proof (mant_pos mx ex) as HA. pose proof (mant_pos my ey) as HB.
    rewrite signed_div in Hb |- * by Lra.lra.
    assert (Hx : 0 < IZR (Zpos mx) * b2 ex / (IZR (Zpos my) * b2 ey)).
    { unfold Rdiv. apply Rmult_lt_0_compat; [exact HA |].
      apply Rinv_0_lt_compat, HB. }
    rewrite Rabs_signed in Hb by exact Hx.
    pose proof (div_core mx my ex ey) as C. cbv zeta in C.
    destruct (SFdiv_core_binary prec emax (Zpos mx) ex (Zpos my) ey)
      as [[q e'] l].
    destruct C as (Hq & Hr & D & HD & He).
    destruct (@round_aux_Rnd (xorb sx sy) q e' l _ D Hq Hr HD He Hb)
      as (r & Hrr & Ez & Fz & _).
    split; [exact Fz |]. rewrite Ez. apply Rnds_signed; assumption.
Qed.

(** ** Bounds that rounding keeps *)

Lemma abs_le_iff (a b : R) : Rabs a <= b <-> - b <= a <= b.
Proof. unfold Rabs. destruct (Rcase_abs a); split; intros; Lra.lra. Qed.

Lemma abs_lt_iff (a b : R) : Rabs a < b <-> - b < a < b.
Proof. unfold Rabs. destruct (Rcase_abs a); split; intros; Lra.lra. Qed.

Lemma Rnd_b2 (n : Z) : (-1074 <= n)%Z -> Rnd (b2 n) (b2 n).
Proof.
  intros Hn.
  assert (Hf : (fexp64 (n + 1) <= n)%Z) by (unfold fexp64; lia).
  apply (@Rnd_of_exact (b2 n) (n + 1) (2 ^ (n - fexp64 (n + 1)))).
  - unfold binade. replace (n + 1 - 1)%Z with n by lia.
    split; [apply Rle_refl | apply b2_lt; lia].
  - rewrite <- b2_IZR by lia. rewrite <- b2_add. f_equal. lia.
Qed.

Lemma Rnds_opp (x r : R) : Rnds x r -> Rnds (- x) (- r).
Proof.
  intros [[-> ->] | [[Hx H] | [Hx H]]].
  - left. split; ring.
  - right. right. split; [Lra.lra |]. rewrite !Ropp_involutive. exact H.
  - right. left. split; [Lra.lra | exact H].
Qed.

Lemma Rnds_b2 (n : Z) : (-1074 <= n)%Z -> Rnds (b2 n) (b2 n).
Proof. intros Hn. right. left. split; [apply b2_pos | apply Rnd_b2, Hn]. Qed.

Lemma Rnds_zero (r : R) : Rnds 0 r -> r = 0.
Proof.
  intros [[_ ->] | [[Hx _] | [Hx _]]]; [reflexivity | Lra.lra | Lra.lra].
Qed.

(** Rounding is a function. *)
Lemma Rnds_fun (x r1 r2 : R) : Rnds x r1 -> Rnds x r2 -> r1 = r2.
Proof.
  intros H1 H2. apply Rle_antisym.
  - apply (Rnds_mono H1 H2). apply Rle_refl.
  - apply (Rnds_mono H2 H1). apply Rle_refl.
Qed.

Lemma Rnds_abs_le (x r : R) (k : Z) :
  (-1074 <= k)%Z -> Rnds x r -> Rabs x <= b2 k -> Rabs r <= b2 k.
Proof.
  intros Hk H Hx. apply abs_le_iff in Hx. apply abs_le_iff. split.
  - apply (Rnds_mono (Rnds_opp (Rnds_b2 Hk)) H). apply Hx.
  - apply (Rnds_mono H (Rnds_b2 Hk)). apply Hx.
Qed.

(** ** Comparison *)

Definition ord (c : comparison) (a b : R) : Prop :=
  match c with
  | Lt => a < b
  | Eq => a = b
  | Gt => b < a
  end.

Lemma canonical_lt (m1 m2 : positive) (e1 e2 : Z) :
  e1 = fexp64 (digits m1 + e1) -> e2 = fexp64 (digits m2 + e2) ->
  (e1 < e2)%Z -> IZR (Zpos m1) * b2 e1 < IZR (Zpos m2) * b2 e2.
Proof.
  intros C1 C2 L.
  assert (HD : (digits m1 + e1 < digits m2 + e2)%Z).
  { destruct (Z_lt_le_dec (digits m1 + e1) (digits m2 + e2)) as [| G];
      [assumption |].
    pose proof (fexp64_mono G). lia. }
  destruct (binade_mant m1 e1) as [_ U].
  destruct (binade_mant m2 e2) as [Lo _].
  apply Rlt_le_trans with (b2 (digits m1 + e1)); [exact U |].
  apply Rle_trans with (b2 (digits m2 + e2 - 1));
    [apply b2_le; lia | exact Lo].
Qed.

Lemma cmp_canonical (m1 m2 : positive) (e1 e2 : Z) :
  e1 = fexp64 (digits m1 + e1) -> e2 = fexp64 (digits m2 + e2) ->
  ord (match (e1 ?= e2)%Z with
       | Lt => Lt
       | Gt => Gt
       | Eq => Pos.compare_cont Eq m1 m2
       end)
      (IZR (Zpos m1) * b2 e1) (IZR (Zpos m2) * b2 e2).
Proof.
  intros C1 C2. destruct (Z.compare_spec e1 e2) as [E | L | G].
  - subst e2. change (Pos.compare_cont Eq m1 m2) with (Pos.compare m1 m2).
    destruct (Pos.compare_spec m1 m2) as [-> | L | G]; simpl.
    + reflexivity.
    + apply Rmult_lt_compat_r; [apply b2_pos | apply IZR_lt; lia].
    + apply Rmult_lt_compat_r; [apply b2_pos | apply IZR_lt; lia].
  - simpl. apply canonical_lt; assumption.
  - simpl. apply canonical_lt; assumption.
Qed.

Lemma ord_opp (c : comparison) (a b : R) :
  ord c a b -> ord (CompOpp c) (- a) (- b).
Proof. destruct c; simpl; intros; Lra.lra. Qed.

Lemma SFcompare_val (x y : spec_float) :
  valid_binary x = true -> valid_binary y = true ->
  fin x = true -> fin y = true ->
  exists c, SFcompare x y = Some c /\ ord c (SFval x) (SFval y).
Proof.
  intros Vx Vy Fx Fy.
  destruct x as [sx | sx | | sx mx ex]; try discriminate;
    destruct y as [sy | sy | | sy my ey]; try discriminate.
  - exists Eq. split; reflexivity.
  - pose proof (mant_pos my ey). cbn [SFcompare SFval].
    destruct sy; eexists; (split; [reflexivity |]);
      unfold signed; simpl; Lra.lra.
  - pose proof (mant_pos mx ex). cbn [SFcompare SFval].
    destruct sx; eexists; (split; [reflexivity |]);
      unfold signed; simpl; Lra.lra.
  - destruct (@valid_canonical _ _ _ Vx) as [Cx _].
    destruct (@valid_canonical _ _ _ Vy) as [Cy _].
    pose proof (mant_pos mx ex). pose proof (mant_pos my ey).
    pose proof (cmp_canonical mx my Cx Cy) as O.
    cbn [SFcompare SFval].
    destruct sx, sy; eexists; (split; [reflexivity |]); unfold signed.
    + apply ord_opp in O. destruct (ex ?= ey)%Z; exact O.
    + simpl. Lra.lra.
    + simpl. Lra.lra.
    + exact O.
Qed.

Lemma SFleb_val (x y : spec_float) :
  valid_binary x = true -> valid_binary y = true ->
  fin x = true -> fin y = true ->
  (SFleb x y = true <-> SFval x <= SFval y).
Proof.
  intros Vx Vy Fx Fy.
  destruct (@SFcompare_val x y Vx Vy Fx Fy) as (c & E & O).
  unfold SFleb. rewrite E.
  destruct c; simpl in O; split; intros; try Lra.lra; try discriminate;
    reflexivity.
Qed.

Lemma SFltb_val (x y : spec_float) :
  valid_binary x = true -> valid_binary y = true ->
  fin x = true -> fin y = true ->
  (SFltb x y = true <-> SFval x < SFval y).
Proof.
  intros Vx Vy Fx Fy.
  destruct (@SFcompare_val x y Vx Vy Fx Fy) as (c & E & O).
  unfold SFltb. rewrite E.
  destruct c; simpl in O; split; intros; try Lra.lra; try discriminate;
    reflexivity.
Qed.

Lemma SFeqb_val (x y : spec_float) :
  valid_binary x = true -> valid_binary y = true ->
  fin x = true -> fin y = true ->
  (SFeqb x y = true <-> SFval x = SFval y).
Proof.
  intros Vx Vy Fx Fy.
  destruct (@SFcompare_val x y Vx Vy Fx Fy) as (c & E & O).
  unfold SFeqb. rewrite E.
  destruct c; simpl in O; split; intros; try Lra.lra; try discriminate;
    reflexivity.
Qed.

(** ** The operations of [float] *)

(** The real number a finite float stands for, and finiteness. *)
Definition B2R (f : float) : R := SFval (Prim2SF f).
Definition finite (f : float) : Prop := fin (Prim2SF f) = true.

Lemma finite_is_finite (f : float) :
  finite f <-> Binary64.is_finite f = true.
Proof.
  unfold finite, Binary64.is_finite, fin.
  destruct (Prim2SF f); split; intros; congruence.
Qed.

Lemma finite_is_number (f : float) : finite f -> Binary64.is_number f = true.
Proof.
  unfold finite, Binary64.is_number, fin.
  destruct (Prim2SF f); intros; congruence.
Qed.

Lemma number_cases (f : float) :
  Binary64.is_number f = true ->
  finite f \/ f = infinity \/ f = neg_infinity.
Proof.
  unfold Binary64.is_number, finite. intros Hn.
  destruct (Prim2SF f) as [s | s | | s m e] eqn:E; try discriminate;
    try (left; reflexivity).
  right. rewrite <- (SF2Prim_Prim2SF f), E.
  destruct s; [right | left]; reflexivity.
Qed.

Lemma B2R_Rnds (f : float) : Rnds (B2R f) (B2R f).
Proof. apply Rnds_id, Prim2SF_valid. Qed.

Lemma mul_finite (f g : float) :
  finite f -> finite g -> Rabs (B2R f * B2R g) < b2 1023 ->
  finite (f * g) /\ Rnds (B2R f * B2R g) (B2R (f * g)).
Proof.
  unfold finite, B2R. intros Ff Fg Hb. rewrite mul_spec.
  apply SFmul_Rnds; try apply Prim2SF_valid; assumption.
Qed.

Lemma add_finite (f g : float) :
  finite f -> finite g -> Rabs (B2R f + B2R g) < b2 1023 ->
  finite (f + g) /\ Rnds (B2R f + B2R g) (B2R (f + g)).
Proof.
  unfold finite, B2R. intros Ff Fg Hb. rewrite add_spec.
  apply SFadd_Rnds; try apply Prim2SF_valid; assumption.
Qed.

Lemma sub_finite (f g : float) :
  finite f -> finite g -> Rabs (B2R f - B2R g) < b2 1023 ->
  finite (f - g) /\ Rnds (B2R f - B2R g) (B2R (f - g)).
Proof.
  unfold finite, B2R. intros Ff Fg Hb. rewrite sub_spec.
  apply SFsub_Rnds; try apply Prim2SF_valid; assumption.
Qed.

Lemma div_finite (f g : float) :
  finite f -> finite g -> B2R g <> 0 -> Rabs (B2R f / B2R g) < b2 1023 ->
  finite (f / g) /\ Rnds (B2R f / B2R g) (B2R (f / g)).
Proof.
  unfold finite, B2R. intros Ff Fg Hg Hb. rewrite div_spec.
  apply SFdiv_Rnds; try apply Prim2SF_valid; assumption.
Qed.

Lemma leb_finite (f g : float) :
  finite f -> finite g -> (PrimFloat.leb f g = true <-> B2R f <= B2R g).
Proof.
  unfold finite, B2R. intros Ff Fg. rewrite leb_spec.
  apply SFleb_val; try apply Prim2SF_valid; assumption.
Qed.

Lemma ltb_finite (f g : float) :
  finite f -> finite g -> (PrimFloat.ltb f g = true <-> B2R f < B2R g).
Proof.
  unfold finite, B2R. intros Ff Fg. rewrite ltb_spec.
  apply SFltb_val; try apply Prim2SF_valid; assumption.
Qed.

Lemma eqb_finite (f g : float) :
  finite f -> finite g -> (PrimFloat.eqb f g = true <-> B2R f = B2R g).
Proof.
  unfold finite, B2R. intros Ff Fg. rewrite eqb_spec.
  apply SFeqb_val; try apply Prim2SF_valid; assumption.
Qed.

Lemma of_Z_finite (z : Z) :
  Rabs (IZR z) < b2 1023 ->
  finite (Binary64.of_Z z) /\ Rnds (IZR z) (B2R (Binary64.of_Z z)).
Proof.
  intros Hz. pose proof (normalize_Rnds z 0) as N.
  rewrite b2_0, Rmult_1_r in N. destruct (N Hz) as (F & V & R).
  unfold finite, B2R, Binary64.of_Z.
  rewrite Prim2SF_SF2Prim by exact V. split; assumption.
Qed.

End Rounding.

(* ================================================================== *)
(** * Magnitudes: no overflow *)

Module Magnitude.

Import Reals Rounding.
Local Open Scope R_scope.

(** Integers below [2^53] are floats. *)
Lemma Rnds_IZR (z : Z) : (Z.abs z < 2 ^ 53)%Z -> Rnds (IZR z) (IZR z).
Proof.
  assert (P : forall p : positive, (Zpos p < 2 ^ 53)%Z ->
              Rnd (IZR (Zpos p)) (IZR (Zpos p))).
  { intros p Hp.
    assert (Hd : (digits p <= 53)%Z) by (apply digits_le; lia).
    pose proof (digits_pos p) as Hd1.
    assert (Hf : (fexp64 (digits p) <= 0)%Z) by (unfold fexp64; lia).
    apply (@Rnd_of_exact (IZR (Zpos p)) (digits p)
             (Zpos p * 2 ^ (- fexp64 (digits p)))).
    - apply digits_b2.
    - rewrite mult_IZR, <- b2_IZR by lia. rewrite Rmult_assoc, <- b2_add.
      replace (- fexp64 (digits p) + fexp64 (digits p))%Z with 0%Z by lia.
      rewrite b2_0. ring. }
  intros Hz. destruct z as [| p | p].
  - left. split; reflexivity.
  - right. left. split; [apply IZR_lt; lia | apply P; lia].
  - right. right. split; [apply IZR_lt; lia |].
    rewrite <- opp_IZR. apply P. simpl in *. lia.
Qed.

Lemma pow53_lt : IZR (2 ^ 53) < b2 1023.
Proof. rewrite <- b2_IZR by lia. apply b2_lt. lia. Qed.

Lemma of_Z_exact (z : Z) :
  (Z.abs z < 2 ^ 53)%Z ->
  finite (Binary64.of_Z z) /\ B2R (Binary64.of_Z z) = IZR z.
Proof.
  intros Hz.
  assert (Hb : Rabs (IZR z) < b2 1023).
  { rewrite <- abs_IZR. apply Rlt_trans with (IZR (2 ^ 53));
      [apply IZR_lt; exact Hz | apply pow53_lt]. }
  destruct (@of_Z_finite z Hb) as [Fz Rz]. split; [exact Fz |].
  apply (@Rnds_fun (IZR z) _ _ Rz (@Rnds_IZR z Hz)).
Qed.

(** ** Magnitudes *)

(** [f] is finite and at most [2^k] in absolute value. *)
Definition Bnd (f : float) (k : Z) : Prop :=
  finite f /\ Rabs (B2R f) <= b2 k.

Lemma Bnd_finite (f : float) (k : Z) : Bnd f k -> finite f.
Proof. intros [Ff _]. exact Ff. Qed.

Lemma Bnd_round (x : R) (f : float) (k : Z) :
  (-1074 <= k < 1023)%Z -> Rabs x <= b2 k ->
  (Rabs x < b2 1023 -> finite f /\ Rnds x (B2R f)) -> Bnd f k.
Proof.
  intros Hk Hx H. destruct H as [Ff Rf].
  { eapply Rle_lt_trans; [exact Hx | apply b2_lt; lia]. }
  split; [exact Ff |]. apply (@Rnds_abs_le x (B2R f) k); [lia | exact Rf | exact Hx].
Qed.

Lemma Bnd_mul (f g : float) (j k : Z) :
  Bnd f j -> Bnd g k -> (-1074 <= j + k < 1023)%Z ->
  Bnd (f * g)%float (j + k).
Proof.
  intros [Ff Hf] [Fg Hg] Hk.
  apply (@Bnd_round (B2R f * B2R g)); [exact Hk | |].
  - rewrite Rabs_mult, b2_add.
    apply Rmult_le_compat; try apply Rabs_pos; assumption.
  - apply mul_finite; assumption.
Qed.

Lemma b2_max_sum (j k : Z) : b2 j + b2 k <= b2 (Z.max j k + 1).
Proof.
  rewrite b2_half.
  pose proof (@b2_le j (Z.max j k) ltac:(lia)).
  pose proof (@b2_le k (Z.max j k) ltac:(lia)). Lra.lra.
Qed.

Lemma Bnd_add (f g : float) (j k : Z) :
  Bnd f j -> Bnd g k -> (-1074 <= Z.max j k + 1 < 1023)%Z ->
  Bnd (f + g)%float (Z.max j k + 1).
Proof.
  intros [Ff Hf] [Fg Hg] Hk.
  apply (@Bnd_round (B2R f + B2R g)); [exact Hk | |].
  - eapply Rle_trans; [apply Rabs_triang |].
    eapply Rle_trans; [| apply b2_max_sum]. Lra.lra.
  - apply add_finite; assumption.
Qed.

Lemma Bnd_sub (f g : float) (j k : Z) :
  Bnd f j -> Bnd g k -> (-1074 <= Z.max j k + 1 < 1023)%Z ->
  Bnd (f - g)%float (Z.max j k + 1).
Proof.
  intros [Ff Hf] [Fg Hg] Hk.
  apply (@Bnd_round (B2R f - B2R g)); [exact Hk | |].
  - unfold Rminus. eapply Rle_trans; [apply Rabs_triang |].
    rewrite Rabs_Ropp.
    eapply Rle_trans; [| apply b2_max_sum]. Lra.lra.
  - apply sub_finite; assumption.
Qed.

Lemma Bnd_div (f g : float) (j c : Z) :
  Bnd f j -> finite g -> b2 c <= Rabs (B2R g) ->
  (-1074 <= j - c < 1023)%Z -> Bnd (f / g)%float (j - c).
Proof.
  intros [Ff Hf] Fg Hg Hk.
  pose proof (b2_pos c) as Hc.
  assert (Hg0 : B2R g <> 0).
  { intros E. rewrite E, Rabs_R0 in Hg. Lra.lra. }
  apply (@Bnd_round (B2R f / B2R g)); [exact Hk | |].
  - unfold Rdiv. rewrite Rabs_mult, Rabs_inv.
    replace (j - c)%Z with (j + - c)%Z by lia. rewrite b2_add.
    apply Rmult_le_compat; try apply Rabs_pos.
    + apply Rlt_le, Rinv_0_lt_compat. Lra.lra.
    + exact Hf.
    + replace (b2 (- c)) with (/ b2 c).
      * apply Rinv_le_contravar; assumption.
      * apply (Rmult_eq_reg_l (b2 c)); [| Lra.lra].
        rewrite Rinv_r by Lra.lra. rewrite <- b2_add.
        replace (c + - c)%Z with 0%Z by lia. symmetry. apply b2_0.
  - intros Hb. apply div_finite; assumption.
Qed.

(** An integer operand. *)
Lemma Bnd_of_Z (z : Z) (k : Z) :
  (Z.abs z <= 2 ^ k)%Z -> (0 <= k < 1023)%Z -> Bnd (Binary64.of_Z z) k.
Proof.
  intros Hz Hk.
  apply (@Bnd_round (IZR z)); [lia | |].
  - rewrite <- abs_IZR, b2_IZR by lia. apply IZR_le. exact Hz.
  - apply of_Z_finite.
Qed.

(** A literal: its magnitude is computed. *)
Lemma Bnd_literal (z : Z) :
  (Z.log2_up (Z.abs z) <? 1023)%Z = true ->
  Bnd (Binary64.of_Z z) (Z.log2_up (Z.abs z)).
Proof.
  intros H. apply Z.ltb_lt in H.
  pose proof (Z.log2_up_nonneg (Z.abs z)).
  apply Bnd_of_Z; [| lia].
  destruct (Z.eq_dec (Z.abs z) 0) as [-> | Hne]; [simpl; lia |].
  destruct (Z.eq_dec (Z.abs z) 1) as [-> | Hne1]; [simpl; lia |].
  apply Z.log2_up_spec. lia.
Qed.

(** Division by a positive literal. *)
Lemma Bnd_div_literal (f : float) (j z : Z) :
  Bnd f j -> (0 <? z)%Z = true -> (z <? 2 ^ 53)%Z = true ->
  (-1074 <= j - Z.log2 z < 1023)%Z ->
  Bnd (f / Binary64.of_Z z)%float (j - Z.log2 z).
Proof.
  intros Hf Hz Hz2 Hk. apply Z.ltb_lt in Hz. apply Z.ltb_lt in Hz2.
  destruct (@of_Z_exact z ltac:(lia)) as [Fz Ez].
  apply Bnd_div; [exact Hf | exact Fz | | exact Hk].
  rewrite Ez, <- abs_IZR, b2_IZR by (apply Z.log2_nonneg).
  apply IZR_le. pose proof (Z.log2_spec z Hz). lia.
Qed.

Lemma Bnd_weaken (f : float) (j k : Z) :
  Bnd f j -> (j <=? k)%Z = true -> Bnd f k.
Proof.
  intros [Ff Hf] H. apply Z.leb_le in H. split; [exact Ff |].
  eapply Rle_trans; [exact Hf | apply b2_le; exact H].
Qed.

(** The magnitude of an expression, from those of its operands: the
    integer operands that are not literals are looked for among the
    hypotheses. *)
Ltac magnitude_side := vm_compute; split; [discriminate | reflexivity].

Ltac magnitude :=
  lazymatch goal with
  | |- Bnd (PrimFloat.mul _ _) _ =>
      eapply Bnd_mul; [magnitude | magnitude | magnitude_side]
  | |- Bnd (PrimFloat.add _ _) _ =>
      eapply Bnd_add; [magnitude | magnitude | magnitude_side]
  | |- Bnd (PrimFloat.sub _ _) _ =>
      eapply Bnd_sub; [magnitude | magnitude | magnitude_side]
  | |- Bnd (PrimFloat.div _ (Binary64.of_Z _)) _ =>
      eapply Bnd_div_literal;
      [magnitude | reflexivity | reflexivity | magnitude_side]
  | |- Bnd (Binary64.of_Z _) _ =>
      first [eassumption | apply Bnd_literal; reflexivity]
  end.

End Magnitude.

(* ================================================================== *)
(** * Intervals *)

Module Interval.

Import Reals Rounding Magnitude.
Local Open Scope R_scope.

(** Floats of moderate size: no operation on two of them overflows. *)
Definition big : float := Binary64.of_Z (2 ^ 500).
Definition nbig : float := Binary64.of_Z (- 2 ^ 500).

Definition small (x : float) : bool :=
  PrimFloat.leb nbig x && PrimFloat.leb x big.

Lemma pow500 : IZR (2 ^ 500) = b2 500.
Proof. symmetry. apply b2_IZR. lia. Qed.

Lemma big_value : finite big /\ B2R big = b2 500.
Proof.
  destruct (@of_Z_finite (2 ^ 500)) as [Fb Rb].
  { rewrite pow500, Rabs_pos_eq by (apply Rlt_le, b2_pos).
    apply b2_lt. lia. }
  split; [exact Fb |]. rewrite pow500 in Rb.
  apply (Rnds_fun Rb). apply Rnds_b2. lia.
Qed.

Lemma nbig_value : finite nbig /\ B2R nbig = - b2 500.
Proof.
  destruct (@of_Z_finite (- 2 ^ 500)) as [Fb Rb].
  { rewrite opp_IZR, Rabs_Ropp, pow500, Rabs_pos_eq
      by (apply Rlt_le, b2_pos).
    apply b2_lt. lia. }
  split; [exact Fb |]. rewrite opp_IZR, pow500 in Rb.
  apply (Rnds_fun Rb). apply Rnds_opp, Rnds_b2. lia.
Qed.

Lemma small_spec (x : float) :
  small x = true -> finite x /\ Rabs (B2R x) <= b2 500.
Proof.
  unfold small. intros H. apply andb_prop in H. destruct H as [L1 L2].
  destruct big_value as [Fb Eb]. destruct nbig_value as [Fn En].
  destruct (@Binary64Facts.leb_true_number x big L2) as [Nx _].
  destruct (@number_cases x Nx) as [Fx | [-> | ->]].
  - split; [exact Fx |].
    apply (@leb_finite nbig x Fn Fx) in L1.
    apply (@leb_finite x big Fx Fb) in L2.
    apply abs_le_iff. rewrite En in L1. rewrite Eb in L2. Lra.lra.
  - exfalso. apply Binary64Facts.leb_infinity in L2.
    rewrite L2 in Fb. clear L2. vm_compute in Fb. discriminate Fb.
  - exfalso. apply Binary64Facts.leb_neg_infinity in L1.
    rewrite L1 in Fn. clear L1. vm_compute in Fn. discriminate Fn.
Qed.

Lemma b2_500_lt (u v : R) :
  Rabs u <= b2 500 -> Rabs v <= b2 500 -> Rabs (u * v) < b2 1023.
Proof.
  intros Hu Hv. rewrite Rabs_mult.
  apply Rle_lt_trans with (b2 500 * b2 500).
  - apply Rmult_le_compat; try apply Rabs_pos; assumption.
  - rewrite <- b2_add. apply b2_lt. lia.
Qed.

Lemma b2_500_sum (u v : R) :
  Rabs u <= b2 500 -> Rabs v <= b2 500 -> Rabs (u + v) < b2 1023.
Proof.
  intros Hu Hv. eapply Rle_lt_trans; [apply Rabs_triang |].
  apply Rle_lt_trans with (b2 501).
  - change (b2 501) with (b2 (500 + 1)). rewrite (b2_half 500). Lra.lra.
  - apply b2_lt. lia.
Qed.

(** [x] is a finite float between the floats [lo] and [hi]. *)
Definition between (lo hi x : float) : Prop :=
  small lo = true /\ small hi = true /\ finite x /\
  B2R lo <= B2R x <= B2R hi.

Lemma between_small (lo hi x : float) :
  between lo hi x -> finite x /\ Rabs (B2R x) <= b2 500.
Proof.
  intros (Sl & Sh & Fx & Hx). split; [exact Fx |].
  destruct (@small_spec lo Sl) as [_ Bl].
  destruct (@small_spec hi Sh) as [_ Bh].
  apply abs_le_iff in Bl. apply abs_le_iff in Bh. apply abs_le_iff.
  Lra.lra.
Qed.

Lemma between_refl (x : float) : small x = true -> between x x x.
Proof.
  intros Sx. destruct (@small_spec x Sx) as [Fx _].
  repeat split; try assumption; apply Rle_refl.
Qed.

Lemma between_weaken (lo hi lo' hi' x : float) :
  between lo hi x ->
  small lo' && small hi' && PrimFloat.leb lo' lo && PrimFloat.leb hi hi'
  = true ->
  between lo' hi' x.
Proof.
  intros (Sl & Sh & Fx & Hx) C.
  apply andb_prop in C. destruct C as [C L2].
  apply andb_prop in C. destruct C as [C L1].
  apply andb_prop in C. destruct C as [Sl' Sh'].
  destruct (@small_spec lo Sl) as [Fl _].
  destruct (@small_spec hi Sh) as [Fh _].
  destruct (@small_spec lo' Sl') as [Fl' _].
  destruct (@small_spec hi' Sh') as [Fh' _].
  apply (@leb_finite lo' lo Fl' Fl) in L1.
  apply (@leb_finite hi hi' Fh Fh') in L2.
  repeat split; try assumption; Lra.lra.
Qed.

(** What the comparisons give on an interval. *)
Lemma between_leb_lo (lo hi x c : float) :
  between lo hi x -> finite c -> PrimFloat.leb c lo = true ->
  PrimFloat.leb c x = true.
Proof.
  intros (Sl & Sh & Fx & Hx) Fc L.
  destruct (@small_spec lo Sl) as [Fl _].
  apply (@leb_finite c lo Fc Fl) in L.
  apply (@leb_finite c x Fc Fx). Lra.lra.
Qed.

Lemma between_leb_hi (lo hi x c : float) :
  between lo hi x -> finite c -> PrimFloat.leb hi c = true ->
  PrimFloat.leb x c = true.
Proof.
  intros (Sl & Sh & Fx & Hx) Fc L.
  destruct (@small_spec hi Sh) as [Fh _].
  apply (@leb_finite hi c Fh Fc) in L.
  apply (@leb_finite x c Fx Fc). Lra.lra.
Qed.

Lemma between_ltb_lo (lo hi x c : float) :
  between lo hi x -> finite c -> PrimFloat.ltb c lo = true ->
  PrimFloat.ltb c x = true.
Proof.
  intros (Sl & Sh & Fx & Hx) Fc L.
  destruct (@small_spec lo Sl) as [Fl _].
  apply (@ltb_finite c lo Fc Fl) in L.
  apply (@ltb_finite c x Fc Fx). Lra.lra.
Qed.

Lemma between_ltb_hi (lo hi x c : float) :
  between lo hi x -> finite c -> PrimFloat.ltb hi c = true ->
  PrimFloat.ltb x c = true.
Proof.
  intros (Sl & Sh & Fx & Hx) Fc L.
  destruct (@small_spec hi Sh) as [Fh _].
  apply (@ltb_finite hi c Fh Fc) in L.
  apply (@ltb_finite x c Fx Fc). Lra.lra.
Qed.

(** The four corners of a box against the bounds [lo] and [hi]. *)
Definition corners (p1 p2 p3 p4 lo hi : float) : bool :=
  small lo && small hi &&
  (PrimFloat.leb lo p1 && PrimFloat.leb lo p2 &&
   PrimFloat.leb lo p3 && PrimFloat.leb lo p4) &&
  (PrimFloat.leb p1 hi && PrimFloat.leb p2 hi &&
   PrimFloat.leb p3 hi && PrimFloat.leb p4 hi).

(** A rounded value between the roundings of two of four corners. *)
Lemma between_corners (p1 p2 p3 p4 lo hi z : float) (r1 r2 r3 r4 r : R) :
  (finite p1 /\ Rnds r1 (B2R p1)) -> (finite p2 /\ Rnds r2 (B2R p2)) ->
  (finite p3 /\ Rnds r3 (B2R p3)) -> (finite p4 /\ Rnds r4 (B2R p4)) ->
  (finite z /\ Rnds r (B2R z)) ->
  (r1 <= r \/ r2 <= r \/ r3 <= r \/ r4 <= r) ->
  (r <= r1 \/ r <= r2 \/ r <= r3 \/ r <= r4) ->
  corners p1 p2 p3 p4 lo hi = true ->
  between lo hi z.
Proof.
  intros [F1 R1] [F2 R2] [F3 R3] [F4 R4] [Fz Rz] Lo Hi C.
  unfold corners in C.
  repeat match goal with
         | H : _ && _ = true |- _ =>
             apply andb_prop in H; destruct H
         end.
  destruct (@small_spec lo ltac:(assumption)) as [Fl _].
  destruct (@small_spec hi ltac:(assumption)) as [Fh _].
  repeat match goal with
         | H : PrimFloat.leb ?u ?v = true |- _ =>
             apply (@leb_finite u v ltac:(assumption) ltac:(assumption)) in H
         end.
  repeat split; try assumption.
  - destruct Lo as [L | [L | [L | L]]].
    + pose proof (Rnds_mono R1 Rz L). Lra.lra.
    + pose proof (Rnds_mono R2 Rz L). Lra.lra.
    + pose proof (Rnds_mono R3 Rz L). Lra.lra.
    + pose proof (Rnds_mono R4 Rz L). Lra.lra.
  - destruct Hi as [L | [L | [L | L]]].
    + pose proof (Rnds_mono Rz R1 L). Lra.lra.
    + pose proof (Rnds_mono Rz R2 L). Lra.lra.
    + pose proof (Rnds_mono Rz R3 L). Lra.lra.
    + pose proof (Rnds_mono Rz R4 L). Lra.lra.
Qed.

Lemma ends_small (lo hi x : float) :
  between lo hi x ->
  (finite lo /\ Rabs (B2R lo) <= b2 500) /\
  (finite hi /\ Rabs (B2R hi) <= b2 500) /\
  (finite x /\ Rabs (B2R x) <= b2 500) /\
  B2R lo <= B2R x <= B2R hi.
Proof.
  intros B. pose proof (between_small B) as Hx.
  destruct B as (Sl & Sh & Fx & Hb).
  split; [apply small_spec, Sl |]. split; [apply small_spec, Sh |].
  split; assumption.
Qed.

Lemma between_add (a b c d x y lo hi : float) :
  between a b x -> between c d y ->
  corners (a + c) (a + d) (b + c) (b + d) lo hi = true ->
  between lo hi (x + y)%float.
Proof.
  intros Bx By C.
  destruct (ends_small Bx) as ([Fa Ba] & [Fb Bb] & [Fx Hx] & Ix).
  destruct (ends_small By) as ([Fc Bc] & [Fd Bd] & [Fy Hy] & Iy).
  apply (@between_corners (a + c) (a + d) (b + c) (b + d) lo hi (x + y)
           (B2R a + B2R c) (B2R a + B2R d) (B2R b + B2R c) (B2R b + B2R d)
           (B2R x + B2R y));
    try (apply add_finite; try assumption; apply b2_500_sum; assumption);
    try exact C.
  - left. Lra.lra.
  - right. right. right. Lra.lra.
Qed.

Lemma between_sub (a b c d x y lo hi : float) :
  between a b x -> between c d y ->
  corners (a - c) (a - d) (b - c) (b - d) lo hi = true ->
  between lo hi (x - y)%float.
Proof.
  intros Bx By C.
  destruct (ends_small Bx) as ([Fa Ba] & [Fb Bb] & [Fx Hx] & Ix).
  destruct (ends_small By) as ([Fc Bc] & [Fd Bd] & [Fy Hy] & Iy).
  assert (S : forall u v, Rabs u <= b2 500 -> Rabs v <= b2 500 ->
                          Rabs (u - v) < b2 1023).
  { intros u v Hu Hv. apply b2_500_sum; [exact Hu |].
    rewrite Rabs_Ropp. exact Hv. }
  apply (@between_corners (a - c) (a - d) (b - c) (b - d) lo hi (x - y)
           (B2R a - B2R c) (B2R a - B2R d) (B2R b - B2R c) (B2R b - B2R d)
           (B2R x - B2R y));
    try (apply sub_finite; try assumption; apply S; assumption);
    try exact C.
  - right. left. Lra.lra.
  - right. right. left. Lra.lra.
Qed.

Lemma mul_corner_lo (a b c d x y : R) :
  a <= x <= b -> c <= y <= d ->
  a * c <= x * y \/ a * d <= x * y \/ b * c <= x * y \/ b * d <= x * y.
Proof.
  intros Hx Hy.
  destruct (Rle_dec 0 y) as [Y | Y].
  - destruct (Rle_dec 0 a) as [A | A].
    + left. apply Rle_trans with (a * y); [| Lra.nra].
      apply Rmult_le_compat_l; Lra.lra.
    + right. left. apply Rle_trans with (a * y); Lra.nra.
  - destruct (Rle_dec 0 b) as [B | B].
    + right. right. left. apply Rle_trans with (b * y); Lra.nra.
    + right. right. right. apply Rle_trans with (b * y); Lra.nra.
Qed.

Lemma mul_corner_hi (a b c d x y : R) :
  a <= x <= b -> c <= y <= d ->
  x * y <= a * c \/ x * y <= a * d \/ x * y <= b * c \/ x * y <= b * d.
Proof.
  intros Hx Hy.
  destruct (Rle_dec 0 y) as [Y | Y].
  - destruct (Rle_dec 0 b) as [B | B].
    + right. right. right. apply Rle_trans with (b * y); Lra.nra.
    + right. right. left. apply Rle_trans with (b * y); Lra.nra.
  - destruct (Rle_dec 0 a) as [A | A].
    + right. left. apply Rle_trans with (a * y); Lra.nra.
    + left. apply Rle_trans with (a * y); Lra.nra.
Qed.

Lemma between_mul (a b c d x y lo hi : float) :
  between a b x -> between c d y ->
  corners (a * c) (a * d) (b * c) (b * d) lo hi = true ->
  between lo hi (x * y)%float.
Proof.
  intros Bx By C.
  destruct (ends_small Bx) as ([Fa Ba] & [Fb Bb] & [Fx Hx] & Ix).
  destruct (ends_small By) as ([Fc Bc] & [Fd Bd] & [Fy Hy] & Iy).
  apply (@between_corners (a * c) (a * d) (b * c) (b * d) lo hi (x * y)
           (B2R a * B2R c) (B2R a * B2R d) (B2R b * B2R c) (B2R b * B2R d)
           (B2R x * B2R y));
    try (apply mul_finite; try assumption; apply b2_500_lt; assumption);
    try exact C.
  - apply mul_corner_lo; assumption.
  - apply mul_corner_hi; assumption.
Qed.

(** The square of one value: both factors are the same point. *)
Lemma between_sqr (a b x lo hi : float) :
  between a b x ->
  corners (a * a) (a * b) (b * a) (b * b) lo hi = true ->
  between lo hi (x * x)%float.
Proof. intros Bx. apply between_mul; exact Bx. Qed.

(** Division by a value that is at least 1. *)
Definition one : float := Binary64.of_Z 1.

Lemma one_value : finite one /\ B2R one = 1.
Proof. apply (@of_Z_exact 1). reflexivity. Qed.

Lemma div_small (u v : R) :
  Rabs u <= b2 500 -> 1 <= v -> Rabs (u / v) < b2 1023.
Proof.
  intros Hu Hv. unfold Rdiv. rewrite Rabs_mult, Rabs_inv.
  rewrite (Rabs_pos_eq v) by Lra.lra.
  apply Rle_lt_trans with (b2 500 * 1).
  - apply Rmult_le_compat;
      [apply Rabs_pos | apply Rlt_le, Rinv_0_lt_compat; Lra.lra
      | exact Hu |].
    rewrite <- Rinv_1. apply Rinv_le_contravar; Lra.lra.
  - rewrite Rmult_1_r. apply b2_lt. lia.
Qed.

Lemma between_div (a b c d x y lo hi : float) :
  between a b x -> between c d y -> PrimFloat.leb one c = true ->
  corners (a / c) (a / d) (b / c) (b / d) lo hi = true ->
  between lo hi (x / y)%float.
Proof.
  intros Bx By L C.
  destruct (ends_small Bx) as ([Fa Ba] & [Fb Bb] & [Fx Hx] & Ix).
  destruct (ends_small By) as ([Fc Bc] & [Fd Bd] & [Fy Hy] & Iy).
  destruct one_value as [F1 E1].
  apply (@leb_finite one c F1 Fc) in L. rewrite E1 in L.
  assert (Hc : 0 < B2R c) by Lra.lra.
  assert (Hd : 0 < B2R d) by Lra.lra.
  assert (Hyp : 0 < B2R y) by Lra.lra.
  assert (Iy' : / B2R d <= / B2R y <= / B2R c).
  { split; apply Rinv_le_contravar; Lra.lra. }
  apply (@between_corners (a / c) (a / d) (b / c) (b / d) lo hi (x / y)
           (B2R a / B2R c) (B2R a / B2R d) (B2R b / B2R c) (B2R b / B2R d)
           (B2R x / B2R y));
    try (apply div_finite; try assumption;
         [Lra.lra | apply div_small; [assumption | Lra.lra]]);
    try exact C.
  - unfold Rdiv.
    destruct (@mul_corner_lo (B2R a) (B2R b) (/ B2R d) (/ B2R c)
                (B2R x) (/ B2R y) Ix Iy') as [H | [H | [H | H]]]; tauto.
  - unfold Rdiv.
    destruct (@mul_corner_hi (B2R a) (B2R b) (/ B2R d) (/ B2R c)
                (B2R x) (/ B2R y) Ix Iy') as [H | [H | [H | H]]]; tauto.
Qed.

(** Integers. *)
Lemma small_intro (x : float) :
  finite x -> Rabs (B2R x) <= b2 500 -> small x = true.
Proof.
  intros Fx Hx. apply abs_le_iff in Hx.
  destruct big_value as [Fb Eb]. destruct nbig_value as [Fn En].
  unfold small. apply andb_true_intro. split.
  - apply (@leb_finite nbig x Fn Fx). rewrite En. Lra.lra.
  - apply (@leb_finite x big Fx Fb). rewrite Eb. Lra.lra.
Qed.

Lemma between_of_Z (za zb z : Z) :
  (za <= z <= zb)%Z ->
  (Z.abs za <? 2 ^ 53)%Z && (Z.abs zb <? 2 ^ 53)%Z = true ->
  between (Binary64.of_Z za) (Binary64.of_Z zb) (Binary64.of_Z z).
Proof.
  intros Hz C. apply andb_prop in C. destruct C as [Ca Cb].
  apply Z.ltb_lt in Ca. apply Z.ltb_lt in Cb.
  destruct (@of_Z_exact za Ca) as [Fa Ea].
  destruct (@of_Z_exact zb Cb) as [Fb Eb].
  destruct (@of_Z_exact z ltac:(lia)) as [Fz Ez].
  assert (S : forall u : Z, (Z.abs u < 2 ^ 53)%Z ->
                            Rabs (IZR u) <= b2 500).
  { intros u Hu. rewrite <- abs_IZR.
    apply Rle_trans with (IZR (2 ^ 53)); [apply IZR_le; lia |].
    rewrite <- b2_IZR by lia. apply b2_le. lia. }
  split; [apply small_intro; [exact Fa | rewrite Ea; apply S, Ca] |].
  split; [apply small_intro; [exact Fb | rewrite Eb; apply S, Cb] |].
  split; [exact Fz |].
  rewrite Ea, Eb, Ez. split; apply IZR_le; lia.
Qed.

(** [int(x)] *)
Lemma trunc_spec (x : float) :
  finite x ->
  exists t : Z,
    Binary64.trunc x = Some t /\
    (0 <= B2R x -> IZR t <= B2R x < IZR t + 1) /\
    (B2R x <= 0 -> IZR t - 1 < B2R x <= IZR t).
Proof.
  unfold finite, B2R, Binary64.trunc.
  destruct (Prim2SF x) as [s | s | | s m e]; try discriminate; intros _.
  - exists 0%Z. simpl. split; [reflexivity |]. split; intros; Lra.lra.
  - set (a := match e with
              | 0%Z => Zpos m
              | Zpos p => Z.shiftl (Zpos m) (Zpos p)
              | Zneg p => Z.shiftr (Zpos m) (Zpos p)
              end).
    assert (Ha : IZR a <= IZR (Zpos m) * b2 e < IZR a + 1).
    { unfold a. destruct e as [| p | p].
      - rewrite b2_0. Lra.lra.
      - rewrite Z.shiftl_mul_pow2 by lia.
        rewrite mult_IZR, <- b2_IZR by lia. Lra.lra.
      - rewrite Z.shiftr_div_pow2 by lia.
        assert (Hp : (0 < 2 ^ Zpos p)%Z) by (apply Z.pow_pos_nonneg; lia).
        pose proof (Z.div_mod (Zpos m) (2 ^ Zpos p) ltac:(lia)) as Ed.
        pose proof (Z.mod_pos_bound (Zpos m) (2 ^ Zpos p) Hp) as Hr.
        set (q := (Zpos m / 2 ^ Zpos p)%Z) in *.
        set (r := (Zpos m mod 2 ^ Zpos p)%Z) in *.
        assert (Er : IZR (Zpos m) = b2 (Zpos p) * IZR q + IZR r).
        { rewrite b2_IZR by lia. rewrite <- mult_IZR, <- plus_IZR.
          f_equal. exact Ed. }
        assert (Hb : b2 (Zpos p) * b2 (Zneg p) = 1).
        { rewrite <- b2_add. replace (Zpos p + Zneg p)%Z with 0%Z by lia.
          apply b2_0. }
        pose proof (b2_pos (Zpos p)) as P1. pose proof (b2_pos (Zneg p)) as P2.
        assert (Hr1 : 0 <= IZR r) by (apply IZR_le; lia).
        assert (Hr2 : IZR r < b2 (Zpos p)).
        { rewrite b2_IZR by lia. apply IZR_lt. lia. }
        rewrite Er.
        replace ((b2 (Zpos p) * IZR q + IZR r) * b2 (Zneg p))
          with (IZR q * (b2 (Zpos p) * b2 (Zneg p)) + IZR r * b2 (Zneg p))
          by ring.
        rewrite Hb.
        assert (0 <= IZR r * b2 (Zneg p)) by (apply Rmult_le_pos; Lra.lra).
        assert (IZR r * b2 (Zneg p) < b2 (Zpos p) * b2 (Zneg p)).
        { apply Rmult_lt_compat_r; assumption. }
        Lra.lra. }
    pose proof (mant_pos m e) as Hv.
    exists (if s then (- a)%Z else a). split; [reflexivity |].
    cbn [SFval]. unfold signed. destruct s.
    + rewrite opp_IZR. split; intros; Lra.lra.
    + split; intros; Lra.lra.
Qed.

Lemma trunc_mono (x y : float) (tx ty : Z) :
  finite x -> finite y -> B2R x <= B2R y ->
  Binary64.trunc x = Some tx -> Binary64.trunc y = Some ty ->
  (tx <= ty)%Z.
Proof.
  intros Fx Fy L Ex Ey.
  destruct (@trunc_spec x Fx) as (tx' & Ex' & Px & Nx).
  destruct (@trunc_spec y Fy) as (ty' & Ey' & Py & Ny).
  assert (tx' = tx) by congruence. assert (ty' = ty) by congruence.
  subst tx' ty'.
  assert (step : forall a b : Z, IZR a < IZR b + 1 -> (a <= b)%Z).
  { intros a b H. rewrite <- plus_IZR in H. apply lt_IZR in H. lia. }
  destruct (Rle_dec 0 (B2R y)) as [Y | Y].
  - destruct (Rle_dec 0 (B2R x)) as [X | X].
    + specialize (Px X). specialize (Py Y). apply step. Lra.lra.
    + specialize (Nx ltac:(Lra.lra)). specialize (Py Y).
      apply Z.le_trans with 0%Z; apply step; simpl; Lra.lra.
  - specialize (Nx ltac:(Lra.lra)). specialize (Ny ltac:(Lra.lra)).
    apply step. Lra.lra.
Qed.

Lemma between_trunc (a b x : float) (ta tb : Z) :
  between a b x ->
  Binary64.trunc a = Some ta -> Binary64.trunc b = Some tb ->
  exists t : Z, Binary64.trunc x = Some t /\ (ta <= t <= tb)%Z.
Proof.
  intros Bx Ea Eb.
  destruct (ends_small Bx) as ([Fa _] & [Fb _] & [Fx _] & Ix).
  destruct (@trunc_spec x Fx) as (t & Et & _).
  exists t. split; [exact Et |]. split.
  - apply (@trunc_mono a x ta t Fa Fx); tauto.
  - apply (@trunc_mono x b t tb Fx Fb); tauto.
Qed.

(** The smallest and the largest of four floats. *)
Definition fmin (u v : float) : float := if PrimFloat.leb u v then u else v.
Definition fmax (u v : float) : float := if PrimFloat.leb u v then v else u.
Definition fmin4 (p q r s : float) : float := fmin (fmin p q) (fmin r s).
Definition fmax4 (p q r s : float) : float := fmax (fmax p q) (fmax r s).

(** The bounds of an expression, from the bounds of its operands.  A bound
    of [e] is looked for among the hypotheses first; an integer literal is
    its own bound. *)
Ltac interval e :=
  lazymatch goal with
  | _ : between _ _ e |- _ => idtac
  | _ =>
      lazymatch e with
      | PrimFloat.add ?x ?y => interval_op between_add PrimFloat.add x y e
      | PrimFloat.sub ?x ?y => interval_op between_sub PrimFloat.sub x y e
      | PrimFloat.mul ?x ?y => interval_op between_mul PrimFloat.mul x y e
      | PrimFloat.div ?x ?y => interval_op between_div PrimFloat.div x y e
      | _ =>
          let l := eval vm_compute in e in
          assert (between l l e)
            by (change (between l l l); apply between_refl;
                vm_compute; reflexivity)
      end
  end
with interval_op lem op x y e :=
  interval x; interval y;
  lazymatch goal with
  | Hx : between ?a ?b x |- _ =>
      lazymatch goal with
      | Hy : between ?c ?d y |- _ =>
          let lo := eval vm_compute in
                    (fmin4 (op a c) (op a d) (op b c) (op b d)) in
          let hi := eval vm_compute in
                    (fmax4 (op a c) (op a d) (op b c) (op b d)) in
          assert (between lo hi e)
            by (apply (lem a b c d x y lo hi Hx Hy); vm_compute; reflexivity)
      end
  end.

(** [int(x)] of a bounded float is an integer within the same bound. *)
Lemma trunc_bound (x : float) (k : Z) :
  (0 <= k)%Z -> Bnd x k ->
  exists t : Z, Binary64.trunc x = Some t /\ (- 2 ^ k <= t <= 2 ^ k)%Z.
Proof.
  intros Hk [Fx Hx]. apply abs_le_iff in Hx. rewrite b2_IZR in Hx by exact Hk.
  destruct (@trunc_spec x Fx) as (t & Et & Pos & Neg).
  exists t. split; [exact Et |].
  assert (step : forall a b : Z, IZR a < IZR b + 1 -> (a <= b)%Z).
  { intros a b H. rewrite <- plus_IZR in H. apply lt_IZR in H. lia. }
  destruct (Rle_dec 0 (B2R x)) as [X | X].
  - specialize (Pos X). split.
    + apply Z.le_trans with 0%Z; [lia |]. apply step. simpl. Lra.lra.
    + apply le_IZR. Lra.lra.
  - specialize (Neg ltac:(Lra.lra)). split.
    + apply le_IZR. rewrite opp_IZR. Lra.lra.
    + apply Z.le_trans with 0%Z; [| lia]. apply step. simpl. Lra.lra.
Qed.

(** Sums and quotients grow with their first operand: two corners are
    enough. *)
Lemma between_add_mono (a b c d x y : float) :
  between a b x -> between c d y ->
  small (a + c) = true -> small (b + d) = true ->
  between (a + c) (b + d) (x + y)%float.
Proof.
  intros Bx By S1 S2.
  destruct (ends_small Bx) as ([Fa Ba] & [Fb Bb] & [Fx Hx] & Ix).
  destruct (ends_small By) as ([Fc Bc] & [Fd Bd] & [Fy Hy] & Iy).
  destruct (@add_finite a c Fa Fc (@b2_500_sum _ _ Ba Bc)) as [F1 R1].
  destruct (@add_finite b d Fb Fd (@b2_500_sum _ _ Bb Bd)) as [F2 R2].
  destruct (@add_finite x y Fx Fy (@b2_500_sum _ _ Hx Hy)) as [Fz Rz].
  split; [exact S1 |]. split; [exact S2 |]. split; [exact Fz |]. split.
  - apply (Rnds_mono R1 Rz). Lra.lra.
  - apply (Rnds_mono Rz R2). Lra.lra.
Qed.

Lemma between_div_mono (a b x c : float) :
  between a b x -> PrimFloat.leb one c = true -> small c = true ->
  small (a / c) = true -> small (b / c) = true ->
  between (a / c) (b / c) (x / c)%float.
Proof.
  intros Bx L Sc S1 S2.
  destruct (ends_small Bx) as ([Fa Ba] & [Fb Bb] & [Fx Hx] & Ix).
  destruct (@small_spec c Sc) as [Fc _].
  destruct one_value as [F1 E1].
  apply (@leb_finite one c F1 Fc) in L. rewrite E1 in L.
  assert (Hc : B2R c <> 0) by Lra.lra.
  destruct (@div_finite a c Fa Fc Hc (@div_small _ _ Ba L)) as [Fp Rp].
  destruct (@div_finite b c Fb Fc Hc (@div_small _ _ Bb L)) as [Fq Rq].
  destruct (@div_finite x c Fx Fc Hc (@div_small _ _ Hx L)) as [Fz Rz].
  assert (Hi : 0 <= / B2R c).
  { apply Rlt_le, Rinv_0_lt_compat. Lra.lra. }
  split; [exact S1 |]. split; [exact S2 |]. split; [exact Fz |]. split.
  - apply (Rnds_mono Rp Rz). unfold Rdiv.
    apply Rmult_le_compat_r; [exact Hi | apply Ix].
  - apply (Rnds_mono Rz Rq). unfold Rdiv.
    apply Rmult_le_compat_r; [exact Hi | apply Ix].
Qed.

(** The sum of [k] values, each at the same bound [x], as a left fold
    takes it. *)
Definition sum_of (x : float) (k : nat) : float :=
  Nat.iter k (fun acc => (acc + x)%float) (Binary64.of_Z 0).

(** The mean of [k] values at the bound [x]. *)
Definition mean_of (x : float) (k : nat) : float :=
  (sum_of x k / Binary64.of_Z (Z.of_nat k))%float.

(** The bounds [mlo] and [mhi] hold the means of one to ten values between
    [lo] and [hi]. *)
Definition window_check (lo hi mlo mhi : float) : bool :=
  small mlo && small mhi &&
  forallb (fun k =>
             small (sum_of lo k) && small (sum_of hi k) &&
             small (mean_of lo k) && small (mean_of hi k) &&
             PrimFloat.leb mlo (mean_of lo k) &&
             PrimFloat.leb (mean_of hi k) mhi)
          (seq 1 10).

Lemma fold_between (lo hi : float) (l : list float) :
  forall (j : nat) (acc : float),
    between (sum_of lo j) (sum_of hi j) acc ->
    Forall (between lo hi) l ->
    (forall i, (j < i <= j + length l)%nat ->
               small (sum_of lo i) = true /\ small (sum_of hi i) = true) ->
    between (sum_of lo (j + length l)) (sum_of hi (j + length l))
      (fold_left (fun a x => (a + x)%float) l acc).
Proof.
  induction l as [| x l IH]; intros j acc Bacc Hall Hs.
  - simpl. rewrite Nat.add_0_r. exact Bacc.
  - inversion Hall as [| x' l' Hx Hl]. subst x' l'. simpl fold_left.
    simpl length. replace (j + S (length l))%nat with (S j + length l)%nat
      by lia.
    apply IH; [| exact Hl | intros i Hi; apply Hs; simpl; lia].
    destruct (Hs (S j) ltac:(simpl; lia)) as [S1 S2].
    exact (@between_add_mono _ _ _ _ _ _ Bacc Hx S1 S2).
Qed.

Lemma of_nat_ge_one (k : nat) :
  (1 <= k <= 10)%nat ->
  PrimFloat.leb one (Binary64.of_Z (Z.of_nat k)) = true /\
  small (Binary64.of_Z (Z.of_nat k)) = true.
Proof.
  intros Hk.
  do 11 (destruct k as [| k]; [try lia; split; vm_compute; reflexivity |]).
  lia.
Qed.

Lemma fold_mean_between (lo hi mlo mhi : float) (l : list float) :
  (1 <= length l <= 10)%nat -> Forall (between lo hi) l ->
  window_check lo hi mlo mhi = true ->
  between mlo mhi
    (fold_left (fun a x => (a + x)%float) l (Binary64.of_Z 0)
     / Binary64.of_Z (Z.of_nat (length l)))%float.
Proof.
  intros Hlen Hall C. unfold window_check in C.
  apply andb_prop in C. destruct C as [C Call].
  apply andb_prop in C. destruct C as [Slo Shi].
  rewrite forallb_forall in Call.
  assert (K : forall k, (1 <= k <= 10)%nat ->
              (small (sum_of lo k) = true /\ small (sum_of hi k) = true) /\
              small (mean_of lo k) = true /\ small (mean_of hi k) = true /\
              PrimFloat.leb mlo (mean_of lo k) = true /\
              PrimFloat.leb (mean_of hi k) mhi = true).
  { intros k Hk. specialize (Call k). rewrite in_seq in Call.
    specialize (Call ltac:(lia)).
    repeat match goal with
           | H : _ && _ = true |- _ => apply andb_prop in H; destruct H
           end.
    repeat split; assumption. }
  set (k := length l) in *.
  destruct (K k Hlen) as (_ & M1 & M2 & L1 & L2).
  assert (B0 : between (sum_of lo 0) (sum_of hi 0) (Binary64.of_Z 0)).
  { apply between_refl. vm_compute. reflexivity. }
  pose proof (@fold_between lo hi l 0 (Binary64.of_Z 0) B0 Hall) as Bs.
  simpl plus in Bs. fold k in Bs.
  specialize (Bs ltac:(intros i Hi; apply K; lia)).
  destruct (@of_nat_ge_one k Hlen) as [G1 G2].
  pose proof (@between_div_mono _ _ _ _ Bs G1 G2 M1 M2) as Bm.
  apply (@between_weaken _ _ _ _ _ Bm). unfold mean_of in L1, L2.
  rewrite Slo, Shi, L1, L2. reflexivity.
Qed.

End Interval.

(* ================================================================== *)
(** * The widths of the registers *)

Module Width.

Import Rounding Magnitude Interval BME280.
Local Open Scope Z_scope.

(** The widths of the words [_load_calibration] reads. *)
Definition temperature_words (self : BME280) : Prop :=
  0 <= dig_T1 self <= 65535 /\
  -32768 <= dig_T2 self <= 32767 /\
  -32768 <= dig_T3 self <= 32767.

Definition humidity_words (self : BME280) : Prop :=
  0 <= dig_H1 self <= 255 /\
  -32768 <= dig_H2 self <= 32767 /\
  0 <= dig_H3 self <= 255 /\
  -2048 <= dig_H4 self <= 2047 /\
  -2048 <= dig_H5 self <= 2047 /\
  -128 <= dig_H6 self <= 127.

(** The inputs of [_compensate_humidity] on the device: a 16-bit reading,
    a [t_fine] of at most 32 bits and words of these widths. *)
Definition register_width (self : BME280) (raw_hum : Z) : Prop :=
  0 <= raw_hum <= 65535 /\
  - 2 ^ 31 <= t_fine self <= 2 ^ 31 /\
  humidity_words self.

(** On such inputs no operation of the humidity formula overflows. *)
Lemma humidity_poly_finite (self : BME280) (raw_hum : Z) :
  register_width self raw_hum ->
  finite (humidity_poly (F:=float) self raw_hum).
Proof.
  intros (Hr & Ht & H1 & H2 & H3 & H4 & H5 & H6).
  assert (Br : Bnd (Binary64.of_Z raw_hum) 16) by (apply Bnd_of_Z; lia).
  assert (Bt : Bnd (Binary64.of_Z (t_fine self)) 31) by (apply Bnd_of_Z; lia).
  assert (B1 : Bnd (Binary64.of_Z (dig_H1 self)) 8) by (apply Bnd_of_Z; lia).
  assert (B2 : Bnd (Binary64.of_Z (dig_H2 self)) 15) by (apply Bnd_of_Z; lia).
  assert (B3 : Bnd (Binary64.of_Z (dig_H3 self)) 8) by (apply Bnd_of_Z; lia).
  assert (B4 : Bnd (Binary64.of_Z (dig_H4 self)) 11) by (apply Bnd_of_Z; lia).
  assert (B5 : Bnd (Binary64.of_Z (dig_H5 self)) 11) by (apply Bnd_of_Z; lia).
  assert (B6 : Bnd (Binary64.of_Z (dig_H6 self)) 7) by (apply Bnd_of_Z; lia).
  unfold humidity_poly.
  cbv [fadd fsub fmul fdiv of_int Binary64.binary64_float BME280.promote].
  eapply Bnd_finite. magnitude.
Qed.

(** [_compensate_temperature] on a 20-bit reading: [int(var1 + var2)] does
    not raise, and the [t_fine] it stores has at most 25 bits. *)
Lemma compensate_temperature_width (self : BME280) (raw_temp : Z) :
  0 <= raw_temp < 2 ^ 20 -> temperature_words self ->
  exists (T : float) (t : Z),
    _compensate_temperature (F:=float) self raw_temp
    = Some (T, set_t_fine self t) /\
    - 2 ^ 24 <= t <= 2 ^ 24.
Proof.
  intros Hr (H1 & H2 & H3).
  assert (Br : Bnd (Binary64.of_Z raw_temp) 20) by (apply Bnd_of_Z; lia).
  assert (B1 : Bnd (Binary64.of_Z (dig_T1 self)) 16) by (apply Bnd_of_Z; lia).
  assert (B2 : Bnd (Binary64.of_Z (dig_T2 self)) 15) by (apply Bnd_of_Z; lia).
  assert (B3 : Bnd (Binary64.of_Z (dig_T3 self)) 15) by (apply Bnd_of_Z; lia).
  unfold _compensate_temperature.
  cbv [fadd fsub fmul fdiv of_int to_int Binary64.binary64_float
       BME280.promote sqr].
  match goal with
  | |- context [Binary64.trunc ?e] =>
      assert (B : Bnd e 24) by (eapply Bnd_weaken; [magnitude | reflexivity])
  end.
  destruct (@trunc_bound _ 24 ltac:(lia) B) as (t & -> & Ht).
  eexists. exists t. split; [reflexivity | exact Ht].
Qed.

End Width.

(* ================================================================== *)
(** * Properties of the compensation formulas *)

Module Compensation.

Import BME280 ExactFacts.

Local Open Scope Q_scope.

(** Unfolds the operators of a method down to those of [Q]. *)
Ltac exact_ops :=
  cbv [fadd fsub fmul fdiv feqb fltb fleb of_int dec to_int
       Exact.exact_float BME280.promote sqr checked_div].

(** C1.  For every raw temperature and all calibration coefficients,
    [_compensate_temperature] takes
    [var1 = (raw_temp/16384 - dig_T1/1024) * dig_T2] and
    [var2 = (raw_temp/131072 - dig_T1/8192)^2 * dig_T3], stores in [t_fine]
    the integer truncation [t] of [var1 + var2], and returns [t / 5120]:
    in exact arithmetic, and in binary64 with these operations in this
    order, where [int()] raises on a NaN or an infinity. *)
Theorem compensate_temperature_formula (self : BME280) (raw_temp : Z) :
  (let var1 := (inject_Z raw_temp / 16384 - inject_Z (dig_T1 self) / 1024)
               * inject_Z (dig_T2 self) in
   let var2 := (inject_Z raw_temp / 131072 - inject_Z (dig_T1 self) / 8192) ^ 2
               * inject_Z (dig_T3 self) in
   exists t : Z,
     truncates (var1 + var2) t /\
     _compensate_temperature (F:=Q) self raw_temp
       = Some (inject_Z t / 5120, set_t_fine self t) /\
     t_fine (set_t_fine self t) = t) /\
  (let raw := Binary64.of_Z raw_temp in
   let T1 := Binary64.of_Z (dig_T1 self) in
   let T2 := Binary64.of_Z (dig_T2 self) in
   let T3 := Binary64.of_Z (dig_T3 self) in
   let var1 := ((raw / 16384 - T1 / 1024) * T2)%float in
   let d := (raw / 131072 - T1 / 8192)%float in
   let var2 := (d * d * T3)%float in
   _compensate_temperature (F:=float) self raw_temp
   = match Binary64.trunc (var1 + var2)%float with
     | Some t => Some ((Binary64.of_Z t / 5120)%float, set_t_fine self t)
     | None => None
     end).
Proof.
  split.
  - intros var1 var2.
    unfold _compensate_temperature. exact_ops.
    match goal with
    | |- context [Exact.trunc ?x] => set (v := x)
    end.
    exists (Exact.trunc v). split; [| split; reflexivity].
    apply truncates_compat with (x := v); [| apply trunc_truncates].
    subst v var1 var2. simpl Qpower. apply Qeq_refl.
  - intros raw T1 T2 T3 var1 d var2.
    unfold _compensate_temperature.
    cbv [fadd fsub fmul fdiv to_int of_int Binary64.binary64_float
         BME280.promote sqr].
    replace (Binary64.of_Z 16384) with 16384%float by reflexivity.
    replace (Binary64.of_Z 1024) with 1024%float by reflexivity.
    replace (Binary64.of_Z 131072) with 131072%float by reflexivity.
    replace (Binary64.of_Z 8192) with 8192%float by reflexivity.
    replace (Binary64.of_Z 5120) with 5120%float by reflexivity.
    reflexivity.
Qed.

(** The coefficients other than [t_fine] are left as they were. *)
Lemma compensate_temperature_keeps_calibration (self self' : BME280)
    (raw_temp : Z) (temperature : Q) :
  _compensate_temperature (F:=Q) self raw_temp = Some (temperature, self') ->
  self' = set_t_fine self (t_fine self').
Proof.
  unfold _compensate_temperature. exact_ops. intros E.
  injection E as _ <-. reflexivity.
Qed.

(** The clamp of [_compensate_humidity], branch by branch. *)
Lemma clamp_cases (h : float) :
  let r := if PrimFloat.ltb (Binary64.of_Z 100) h then Binary64.of_Z 100
           else if PrimFloat.ltb h (Binary64.of_Z 0) then Binary64.of_Z 0
           else h in
  (PrimFloat.ltb (Binary64.of_Z 100) h = true -> r = Binary64.of_Z 100) /\
  (PrimFloat.ltb h (Binary64.of_Z 0) = true -> r = Binary64.of_Z 0) /\
  (PrimFloat.leb (Binary64.of_Z 0) h = true ->
   PrimFloat.leb h (Binary64.of_Z 100) = true -> r = h) /\
  (Binary64.is_number h = false -> Binary64.is_number r = false).
Proof.
  intros r. subst r. split; [| split; [| split]].
  - intros ->. reflexivity.
  - intros H0.
    assert (E : PrimFloat.ltb (Binary64.of_Z 100) h = false).
    { destruct (PrimFloat.ltb (Binary64.of_Z 100) h) eqn:E; [| reflexivity].
      exfalso. revert H0 E. rewrite !ltb_spec. unfold SFltb.
      replace (Prim2SF (Binary64.of_Z 0)) with (S754_zero false)
        by (vm_compute; reflexivity).
      replace (Prim2SF (Binary64.of_Z 100))
        with (S754_finite false 7036874417766400 (-46))
        by (vm_compute; reflexivity).
      destruct (Prim2SF h) as [s | s | | s m e]; simpl; try discriminate;
        destruct s; simpl; discriminate. }
    rewrite E, H0. reflexivity.
  - intros H0 H100.
    rewrite (Binary64Facts.leb_ltb_false H100),
      (Binary64Facts.leb_ltb_false H0).
    reflexivity.
  - intros Hn. apply Binary64Facts.not_number_nan in Hn. subst h.
    reflexivity.
Qed.


(** The guard of [_compensate_pressure], in any arithmetic: when [var1]
    compares equal to zero the result is 0, and the division by [var1] is
    reached only when it does not. *)
Lemma compensate_pressure_guard {F : Type} `{PyFloat F}
    (self : BME280) (raw_press : Z) :
  (feqb (pressure_var1 self) (of_int 0) = true ->
   _compensate_pressure self raw_press = Some (of_int 0)) /\
  _compensate_pressure self raw_press <> None.
Proof.
  unfold _compensate_pressure, pressure_var1, pressure_scale, checked_div.
  cbv zeta. cbv [BME280.promote].
  match goal with
  | |- context [if feqb ?x _ then _ else _] => generalize x
  end.
  intros var1. destruct (feqb var1 (of_int 0)).
  - split; [reflexivity | discriminate].
  - split; [discriminate | discriminate].
Qed.


(** C4.  At 25.0 degrees and 60.0 percent humidity [calculate_dew_point]
    returns a value between 35 and 36, in exact arithmetic and in
    binary64 alike: it adds [humidity_percent / 100] where the Magnus formula
    adds its logarithm, and the result is above the air temperature. *)
Theorem dew_point_at_25_60 :
  (exists d : Q,
     calculate_dew_point (F:=Q) 25 60 = Some d /\
     35 < d /\ d < 36) /\
  (exists d : float,
     calculate_dew_point (F:=float) 25%float 60%float = Some d /\
     PrimFloat.ltb 35%float d = true /\
     PrimFloat.ltb d 36%float = true).
Proof.
  split.
  - eexists. split; [vm_compute; reflexivity |]. split; reflexivity.
  - eexists. split; [vm_compute; reflexivity |]. split; vm_compute; reflexivity.
Qed.

End Compensation.

(* ================================================================== *)
(** * Properties of the battery monitor *)

Module Battery.

Import St Power ExactFacts.

(** ** What the methods leave alone *)

Section Frame.
Context {F : Type} `{PyFloat F}.

(** [s'] has the thresholds, the converter and the two battery flags of [s]. *)
Record frame (s s' : PowerManager (F:=F)) : Prop := {
  frame_low : low_voltage s' = low_voltage s;
  frame_critical : critical_voltage s' = critical_voltage s;
  frame_full : full_voltage s' = full_voltage s;
  frame_is_low : is_low_battery s' = is_low_battery s;
  frame_is_critical : is_critical_battery s' = is_critical_battery s
}.

Lemma frame_refl s : frame s s.
Proof. constructor; reflexivity. Qed.

Lemma frame_trans s1 s2 s3 : frame s1 s2 -> frame s2 s3 -> frame s1 s3.
Proof.
  intros [a b c d e] [a' b' c' d' e'].
  constructor; congruence.
Qed.

(** A method that assigns neither a threshold nor a flag. *)
Definition stable {A} (m : Method A) : Prop := forall s, frame s (snd (m s)).

Lemma stable_ret {A} (a : A) : stable (ret a).
Proof. intros s. apply frame_refl. Qed.

Lemma stable_get : stable get.
Proof. intros s. apply frame_refl. Qed.

Lemma stable_bind {A B} (m : Method A) (k : A -> Method B) :
  stable m -> (forall a, stable (k a)) -> stable (bind m k).
Proof.
  intros Hm Hk s. unfold bind. specialize (Hm s).
  destruct (m s) as [a s1]. simpl in Hm.
  eapply frame_trans; [exact Hm | apply Hk].
Qed.

Lemma stable_modify (f : PowerManager -> PowerManager) :
  (forall s, frame s (f s)) -> stable (modify f).
Proof. intros Hf s. apply Hf. Qed.

Lemma stable_when (b : bool) (m : Method unit) : stable m -> stable (when b m).
Proof. intros Hm. destruct b; [exact Hm | apply stable_ret]. Qed.

Lemma stable_if {A} (b : bool) (m1 m2 : Method A) :
  stable m1 -> stable m2 -> stable (if b then m1 else m2).
Proof. destruct b; auto. Qed.

Lemma frame_set_adc_reads n s : frame s (set_adc_reads n s).
Proof. constructor; reflexivity. Qed.
Lemma frame_set_current_voltage v s : frame s (set_current_voltage v s).
Proof. constructor; reflexivity. Qed.
Lemma frame_set_battery_percentage p s : frame s (set_battery_percentage p s).
Proof. constructor; reflexivity. Qed.
Lemma frame_set_calibration_factor c s : frame s (set_calibration_factor c s).
Proof. constructor; reflexivity. Qed.
Lemma frame_set_voltage_samples l s : frame s (set_voltage_samples l s).
Proof. constructor; reflexivity. Qed.

Create HintDb stable discriminated.
#[local] Hint Resolve stable_ret stable_get stable_bind stable_modify
  stable_when stable_if frame_set_adc_reads frame_set_current_voltage
  frame_set_battery_percentage frame_set_calibration_factor
  frame_set_voltage_samples : stable.

Lemma stable_read_raw_adc : stable read_raw_adc.
Proof. unfold read_raw_adc. auto 10 with stable. Qed.

Lemma stable_read_battery_voltage averaged :
  stable (read_battery_voltage averaged).
Proof.
  pose proof stable_read_raw_adc.
  unfold read_battery_voltage. auto 20 with stable.
Qed.

Lemma stable_get_battery_percentage : stable get_battery_percentage.
Proof.
  pose proof (stable_read_battery_voltage true).
  unfold get_battery_percentage. auto 10 with stable.
Qed.

Lemma stable_is_battery_ok : stable is_battery_ok.
Proof.
  pose proof (stable_read_battery_voltage true).
  unfold is_battery_ok. auto 10 with stable.
Qed.

Lemma stable_should_enter_low_power : stable should_enter_low_power.
Proof. unfold should_enter_low_power. auto 10 with stable. Qed.

Lemma stable_get_suggested_sleep_time : stable get_suggested_sleep_time.
Proof.
  pose proof stable_get_battery_percentage.
  unfold get_suggested_sleep_time. auto 10 with stable.
Qed.

Lemma stable_calibrate actual_voltage : stable (calibrate actual_voltage).
Proof.
  pose proof (stable_read_battery_voltage false).
  unfold calibrate. auto 10 with stable.
Qed.

(** The methods of [PowerManager] other than [get_battery_status] and the
    two that call it, [print_status] and [monitor_loop]. *)
Inductive call : Type :=
| ReadRawAdc
| ReadBatteryVoltage (averaged : bool)
| GetBatteryPercentage
| IsBatteryOk
| ShouldEnterLowPower
| GetSuggestedSleepTime
| Calibrate (actual_voltage : F).

(** The object after a call, its result dropped. *)
Definition perform (c : call) (s : PowerManager) : PowerManager :=
  match c with
  | ReadRawAdc => snd (read_raw_adc s)
  | ReadBatteryVoltage averaged => snd (read_battery_voltage averaged s)
  | GetBatteryPercentage => snd (get_battery_percentage s)
  | IsBatteryOk => snd (is_battery_ok s)
  | ShouldEnterLowPower => snd (should_enter_low_power s)
  | GetSuggestedSleepTime => snd (get_suggested_sleep_time s)
  | Calibrate actual_voltage => snd (calibrate actual_voltage s)
  end.

Definition perform_all (cs : list call) (s : PowerManager) : PowerManager :=
  fold_left (fun s c => perform c s) cs s.

Lemma frame_perform c s : frame s (perform c s).
Proof.
  destruct c; simpl.
  - apply stable_read_raw_adc.
  - apply stable_read_battery_voltage.
  - apply stable_get_battery_percentage.
  - apply stable_is_battery_ok.
  - apply stable_should_enter_low_power.
  - apply stable_get_suggested_sleep_time.
  - apply stable_calibrate.
Qed.

Lemma frame_perform_all cs : forall s, frame s (perform_all cs s).
Proof.
  induction cs as [| c cs IH]; intros s; simpl.
  - apply frame_refl.
  - eapply frame_trans; [apply frame_perform | apply IH].
Qed.

(** The sleep time for a state: 4, 2 and 1 times [SENSOR_READ_INTERVAL]. *)
Definition sleep_for (st : BatteryState) : Z :=
  match st with
  | CRITICAL => 1200
  | LOW => 600
  | FULL | NORMAL => 300
  end.

(** The sleep time for the two flags. *)
Definition sleep_for_flags (critical low : bool) : Z :=
  if critical then (Config.SENSOR_READ_INTERVAL * 4)%Z
  else if low then (Config.SENSOR_READ_INTERVAL * 2)%Z
  else Config.SENSOR_READ_INTERVAL.

Lemma get_suggested_sleep_time_flags (s : PowerManager) :
  fst (get_suggested_sleep_time s)
  = sleep_for_flags (is_critical_battery s) (is_low_battery s).
Proof.
  pose proof (stable_get_battery_percentage s) as Fr.
  unfold get_suggested_sleep_time, bind, get.
  destruct (get_battery_percentage s) as [p s1]. simpl in Fr.
  destruct Fr as [_ _ _ Hl Hc]. rewrite <- Hl, <- Hc.
  unfold sleep_for_flags.
  destruct (is_critical_battery s1); [reflexivity |].
  destruct (is_low_battery s1); reflexivity.
Qed.

(** [get_battery_status] sets the flags by the state it returns, which is
    the state of the first voltage it reads. *)
Lemma get_battery_status_flags (s : PowerManager) :
  let (status, s') := get_battery_status s in
  state status = fst (fst (state_at s (fst (read_battery_voltage true s)))) /\
  voltage status = fst (read_battery_voltage true s) /\
  is_critical status = is_critical_battery s' /\
  is_low status = is_low_battery s' /\
  sleep_for_flags (is_critical_battery s') (is_low_battery s')
  = sleep_for (state status).
Proof.
  pose proof (stable_read_battery_voltage true s) as Fr1.
  unfold get_battery_status, bind.
  destruct (read_battery_voltage true s) as [v s1]. simpl in Fr1. simpl fst.
  pose proof (stable_get_battery_percentage s1) as Fr2.
  destruct (get_battery_percentage s1) as [p s2]. simpl in Fr2.
  pose proof (frame_trans Fr1 Fr2) as [Hl Hc Hf _ _].
  unfold get, state_at. rewrite Hl, Hc, Hf.
  destruct (fleb v (critical_voltage s)); [simpl; auto |].
  destruct (fleb v (low_voltage s)); [simpl; auto |].
  destruct (fleb _ v); simpl; auto.
Qed.

End Frame.

(** ** The thresholds of config.py *)

Section Configured.
Context {F : Type} `{PyFloat F}.

(** The thresholds are those [__init__] reads from [config]. *)
Definition configured (s : PowerManager (F:=F)) : Prop :=
  low_voltage s = Config.BATTERY_LOW_VOLTAGE /\
  critical_voltage s = Config.BATTERY_CRITICAL_VOLTAGE /\
  full_voltage s = Config.BATTERY_FULL_VOLTAGE.

Lemma configured_init (adc : nat -> Z) : configured (__init__ adc).
Proof. repeat split. Qed.

Lemma configured_frame s s' : frame s s' -> configured s -> configured s'.
Proof.
  intros [Hl Hc Hf _ _] (Cl & Cc & Cf). unfold configured.
  rewrite Hl, Hc, Hf. auto.
Qed.

(** Every object the class produces is configured. *)
Lemma configured_perform_all adc cs :
  configured (perform_all cs (__init__ adc)).
Proof.
  eapply configured_frame; [apply frame_perform_all | apply configured_init].
Qed.

Lemma configured_get_battery_status s :
  configured s -> configured (snd (get_battery_status s)).
Proof.
  intros C.
  pose proof (stable_read_battery_voltage true s) as Fr1.
  unfold get_battery_status, bind.
  destruct (read_battery_voltage true s) as [v s1]. simpl in Fr1.
  pose proof (stable_get_battery_percentage s1) as Fr2.
  destruct (get_battery_percentage s1) as [p s2]. simpl in Fr2.
  pose proof (configured_frame Fr2 (configured_frame Fr1 C)) as C2.
  unfold get. destruct (state_at s2 v) as [[st l] c]. exact C2.
Qed.

End Configured.

(** ** Percentage and state, in exact arithmetic *)

Section ExactBattery.

Local Open Scope Q_scope.

Ltac exact_ops :=
  cbv [fadd fsub fmul fdiv feqb fltb fleb of_int dec to_int
       Exact.exact_float Power.promote].

(** The interpolation between any two thresholds in the right order. *)
Lemma percentage_at_between (s : PowerManager (F:=Q)) :
  critical_voltage s < full_voltage s ->
  (forall v, 0 <= percentage_at s v /\ percentage_at s v <= 100) /\
  (forall v1 v2, v1 <= v2 -> percentage_at s v1 <= percentage_at s v2).
Proof.
  intros Hcf.
  set (c := critical_voltage s) in *. set (f := full_voltage s) in *.
  assert (Hk : 0 < / (f - c)) by (apply Qinv_lt_0_compat; lra).
  assert (Hone : (f - c) * / (f - c) == 1) by (apply Qmult_inv_r; lra).
  set (k := / (f - c)) in *.
  assert (Hlin : forall v, c <= v -> v <= f ->
                 0 <= (v - c) * k * 100 /\ (v - c) * k * 100 <= 100).
  { intros v Hv1 Hv2. split; [nra |].
    assert ((v - c) * k <= (f - c) * k) by nra. nra. }
  assert (Hmono : forall v1 v2, v1 <= v2 ->
                  (v1 - c) * k * 100 <= (v2 - c) * k * 100) by (intros; nra).
  split.
  - intros v. unfold percentage_at. exact_ops. fold c f. unfold Qdiv. fold k.
    destruct (leb_spec f v); [split; discriminate |].
    destruct (leb_spec v c); [split; discriminate |].
    apply Hlin; lra.
  - intros v1 v2 Hv. unfold percentage_at. exact_ops. fold c f.
    unfold Qdiv. fold k.
    destruct (leb_spec f v1), (leb_spec f v2), (leb_spec v1 c),
      (leb_spec v2 c);
      change (inject_Z 100) with 100; change (inject_Z 0) with 0;
      try lra; try (apply Hlin; lra); try (apply Hmono; lra).
Qed.

Lemma configured_exact (s : PowerManager (F:=Q)) :
  configured s ->
  low_voltage s = 33 # 10 /\ critical_voltage s = 3 /\
  full_voltage s = 42 # 10.
Proof. intros C. exact C. Qed.

(** In binary64, a voltage at or below the critical one is not at or above
    the full one. *)
Lemma below_critical_not_full (v : float) :
  PrimFloat.leb v Config.BATTERY_CRITICAL_VOLTAGE = true ->
  PrimFloat.leb Config.BATTERY_FULL_VOLTAGE v = false.
Proof.
  rewrite !FloatAxioms.leb_spec. unfold SFleb.
  replace (Prim2SF Config.BATTERY_CRITICAL_VOLTAGE)
    with (S754_finite false 6755399441055744 (-51))
    by (vm_compute; reflexivity).
  replace (Prim2SF Config.BATTERY_FULL_VOLTAGE)
    with (S754_finite false 4728779608739021 (-50))
    by (vm_compute; reflexivity).
  destruct (Prim2SF v) as [sg | sg | | sg m e]; cbv beta iota delta [SFcompare];
    try discriminate.
  - reflexivity.
  - destruct sg; [reflexivity | discriminate].
  - destruct sg; [reflexivity |].
    destruct (Z.compare_spec e (-51)); destruct (Z.compare_spec (-50) e);
      try lia; try reflexivity; try discriminate.
Qed.

(** The checks of [state_at] in their order, in any arithmetic. *)
Lemma state_at_order {F : Type} `{PyFloat F} (s : PowerManager (F:=F))
    (v : F) :
  let st := fst (fst (state_at s v)) in
  (fleb v (critical_voltage s) = true -> st = CRITICAL) /\
  (fleb v (critical_voltage s) = false -> fleb v (low_voltage s) = true ->
   st = LOW) /\
  (fleb v (critical_voltage s) = false -> fleb v (low_voltage s) = false ->
   fleb (fmul (full_voltage s) (dec 95 100)) v = true -> st = FULL) /\
  (fleb v (critical_voltage s) = false -> fleb v (low_voltage s) = false ->
   fleb (fmul (full_voltage s) (dec 95 100)) v = false -> st = NORMAL).
Proof.
  unfold state_at.
  destruct (fleb v (critical_voltage s));
    [repeat split; intros; (reflexivity || discriminate) |].
  destruct (fleb v (low_voltage s));
    [repeat split; intros; (reflexivity || discriminate) |].
  destruct (fleb (fmul (full_voltage s) (dec 95 100)) v);
    repeat split; intros; (reflexivity || discriminate).
Qed.

(** C8.  The state is decided by the checks in their order: at or below the
    critical voltage CRITICAL, else at or below the low voltage LOW, else at
    or above 0.95 times the full voltage FULL, else NORMAL; and
    [get_battery_status] reports the state of the voltage it reads.  With
    the thresholds of config.py the critical voltage itself is CRITICAL and
    0.95 times the full voltage itself is FULL, in exact arithmetic and in
    binary64. *)
Theorem battery_state_thresholds :
  (forall (F : Type) (H : PyFloat F) (s : PowerManager (F:=F)) (v : F),
     let st := fst (fst (state_at s v)) in
     (fleb v (critical_voltage s) = true -> st = CRITICAL) /\
     (fleb v (critical_voltage s) = false -> fleb v (low_voltage s) = true ->
      st = LOW) /\
     (fleb v (critical_voltage s) = false ->
      fleb v (low_voltage s) = false ->
      fleb (fmul (full_voltage s) (dec 95 100)) v = true -> st = FULL) /\
     (fleb v (critical_voltage s) = false ->
      fleb v (low_voltage s) = false ->
      fleb (fmul (full_voltage s) (dec 95 100)) v = false -> st = NORMAL) /\
     state (fst (get_battery_status s))
     = fst (fst (state_at s (fst (read_battery_voltage true s))))) /\
  (forall s : PowerManager (F:=Q),
     configured s ->
     (forall v,
        let st := fst (fst (state_at s v)) in
        (v <= critical_voltage s -> st = CRITICAL) /\
        (critical_voltage s < v -> v <= low_voltage s -> st = LOW) /\
        (critical_voltage s < v -> low_voltage s < v ->
         full_voltage s * (95 # 100) <= v -> st = FULL) /\
        (critical_voltage s < v -> low_voltage s < v ->
         v < full_voltage s * (95 # 100) -> st = NORMAL)) /\
     fst (fst (state_at s (critical_voltage s))) = CRITICAL /\
     fst (fst (state_at s (full_voltage s * (95 # 100)))) = FULL) /\
  (forall s : PowerManager (F:=float),
     configured s ->
     fst (fst (state_at s (critical_voltage s))) = CRITICAL /\
     fst (fst (state_at s (PrimFloat.mul (full_voltage s) (dec 95 100))))
     = FULL).
Proof.
  split; [| split].
  - intros F H s v st. subst st.
    destruct (state_at_order s v) as (O1 & O2 & O3 & O4).
    repeat split; try assumption.
    pose proof (get_battery_status_flags s) as G.
    destruct (get_battery_status s) as [status s']. apply G.
  - intros s C. destruct (configured_exact C) as (Hl & Hc & Hf).
    split; [| split].
    + intros v st. subst st.
      destruct (state_at_order s v) as (O1 & O2 & O3 & O4).
      cbv [fleb fmul dec Exact.exact_float] in O1, O2, O3, O4.
      destruct (leb_spec v (critical_voltage s));
        [repeat split; intros; try (apply O1; reflexivity); lra |].
      destruct (leb_spec v (low_voltage s));
        [repeat split; intros; try (apply O2; reflexivity); lra |].
      destruct (leb_spec (full_voltage s * (95 # 100)) v);
        repeat split; intros;
        try (apply O3; reflexivity); try (apply O4; reflexivity); lra.
    + apply (state_at_order s (critical_voltage s)).
      apply Qle_bool_iff. lra.
    + unfold state_at. exact_ops. rewrite Hl, Hc, Hf. reflexivity.
  - intros s (Hl & Hc & Hf). unfold state_at.
    rewrite Hl, Hc, Hf. split; vm_compute; reflexivity.
Qed.

End ExactBattery.

(** ** The sleep time *)

(** C10.  [get_suggested_sleep_time] answers by the flags
    [is_critical_battery] and [is_low_battery] alone.  No method but
    [get_battery_status] assigns them and [__init__] clears them: while
    [get_battery_status] has not run the answer is the base interval
    whatever the converter reads, and after it has run the answer is the
    multiple for the state it reported, whatever is read since. *)
Theorem sleep_time_follows_flags {F : Type} `{PyFloat F} :
  (forall s : PowerManager (F:=F),
     fst (get_suggested_sleep_time s)
     = if is_critical_battery s then 1200%Z
       else if is_low_battery s then 600%Z else 300%Z) /\
  (forall (c : call) (s : PowerManager (F:=F)),
     is_critical_battery (perform c s) = is_critical_battery s /\
     is_low_battery (perform c s) = is_low_battery s) /\
  (forall (adc : nat -> Z) (cs : list call),
     is_critical_battery (perform_all cs (__init__ (F:=F) adc)) = false /\
     is_low_battery (perform_all cs (__init__ (F:=F) adc)) = false /\
     fst (get_suggested_sleep_time (perform_all cs (__init__ (F:=F) adc)))
     = Config.SENSOR_READ_INTERVAL) /\
  (forall (s : PowerManager (F:=F)) (cs : list call),
     let (status, s') := get_battery_status s in
     fst (get_suggested_sleep_time (perform_all cs s'))
     = sleep_for (state status)).
Proof.
  split; [| split; [| split]].
  - intros s. rewrite get_suggested_sleep_time_flags.
    destruct (is_critical_battery s), (is_low_battery s); reflexivity.
  - intros c s. destruct (frame_perform c s) as [_ _ _ Hl Hc]. auto.
  - intros adc cs.
    destruct (frame_perform_all cs (__init__ adc)) as [_ _ _ Hl Hc].
    rewrite get_suggested_sleep_time_flags, Hl, Hc. auto.
  - intros s cs. pose proof (get_battery_status_flags s) as G.
    destruct (get_battery_status s) as [status s'].
    destruct G as (_ & _ & _ & _ & G).
    destruct (frame_perform_all cs s') as [_ _ _ Hl Hc].
    rewrite get_suggested_sleep_time_flags, Hl, Hc. exact G.
Qed.

(** C9.  On a new manager whose converter reads 0, so that the averaged
    voltage is 0 V and its state CRITICAL, [get_suggested_sleep_time]
    returns the base interval 300 and not 1200: the reading it takes does
    not reach the flags.  Once [get_battery_status] has run it returns
    1200. *)
Theorem sleep_time_on_flat_battery :
  (let s := __init__ (F:=Q) (fun _ => 0%Z) in
   let (t, s') := get_suggested_sleep_time s in
   t = 300%Z /\
   Qeq (current_voltage s') 0 /\
   fst (fst (state_at s' (current_voltage s'))) = CRITICAL /\
   fst (get_suggested_sleep_time (snd (get_battery_status s'))) = 1200%Z) /\
  (let s := __init__ (F:=float) (fun _ => 0%Z) in
   let (t, s') := get_suggested_sleep_time s in
   t = 300%Z /\
   PrimFloat.eqb (current_voltage s') 0%float = true /\
   fst (fst (state_at s' (current_voltage s'))) = CRITICAL /\
   fst (get_suggested_sleep_time (snd (get_battery_status s'))) = 1200%Z).
Proof.
  split; vm_compute; repeat split; reflexivity.
Qed.

End Battery.

(* ================================================================== *)
(** * Lists: the last elements, and subsequences *)

Module ListFacts.

Local Open Scope nat_scope.

(** The last [n] elements of [l]. *)
Definition lastn {A} (n : nat) (l : list A) : list A :=
  skipn (length l - n) l.

Lemma lastn_all {A} (n : nat) (l : list A) :
  length l <= n -> lastn n l = l.
Proof.
  intros Hl. unfold lastn. replace (length l - n) with 0 by lia.
  reflexivity.
Qed.

Lemma lastn_length {A} (n : nat) (l : list A) :
  length (lastn n l) = Nat.min n (length l).
Proof. unfold lastn. rewrite length_skipn. lia. Qed.

Lemma skipn_snoc {A} (k : nat) (l : list A) (a : A) :
  k <= length l -> skipn k (l ++ [a]) = skipn k l ++ [a].
Proof.
  intros Hk. rewrite skipn_app.
  replace (k - length l) with 0 by lia. reflexivity.
Qed.

Lemma lastn_snoc {A} (n : nat) (l : list A) (a : A) :
  lastn n (lastn n l ++ [a]) = lastn n (l ++ [a]).
Proof.
  destruct (Nat.le_gt_cases (length l) n) as [Hle | Hgt].
  - rewrite (lastn_all l Hle). reflexivity.
  - unfold lastn at 1 3. rewrite !length_app, lastn_length. simpl.
    replace (Nat.min n (length l) + 1 - n) with 1 by lia.
    replace (length l + 1 - n) with (S (length l - n)) by lia.
    unfold lastn.
    rewrite <- (@skipn_snoc _ (length l - n)) by lia.
    rewrite skipn_skipn. reflexivity.
Qed.

Lemma lastn_app {A} (n : nat) (l r : list A) :
  lastn n (lastn n l ++ r) = lastn n (l ++ r).
Proof.
  induction r as [| x xs IH] using rev_ind.
  - rewrite !app_nil_r. apply lastn_all. rewrite lastn_length. lia.
  - rewrite !app_assoc, <- lastn_snoc, IH, lastn_snoc. reflexivity.
Qed.

(** [l1] is [l2] with some elements left out: the order of the others is
    kept and none occurs more often than before. *)
Inductive subseq {A} : list A -> list A -> Prop :=
| subseq_nil : subseq [] []
| subseq_skip x l1 l2 : subseq l1 l2 -> subseq l1 (x :: l2)
| subseq_keep x l1 l2 : subseq l1 l2 -> subseq (x :: l1) (x :: l2).

Lemma subseq_refl {A} (l : list A) : subseq l l.
Proof. induction l; constructor; assumption. Qed.

Lemma subseq_nil_l {A} (l : list A) : subseq [] l.
Proof. induction l; constructor; assumption. Qed.

Lemma subseq_length {A} (l1 l2 : list A) :
  subseq l1 l2 -> length l1 <= length l2.
Proof. induction 1; simpl; lia. Qed.

End ListFacts.

(* ================================================================== *)
(** * Properties of the transmission buffer *)

Module Buffer.

Import St WiFi ListFacts.

Section Facts.
Context {Data World : Type} `{Surroundings Data World}.

Local Open Scope Z_scope.

Local Abbreviation Manager := (WiFiManager (Data:=Data) (World:=World)).
Local Abbreviation Entry := (WiFi.Entry (Data:=Data)).

(** ** Methods that leave the buffer alone *)

Definition keeps_buffer {A} (m : Method A) : Prop :=
  forall s : Manager, data_buffer (snd (m s)) = data_buffer s.

Lemma keeps_ret {A} (a : A) : keeps_buffer (ret a).
Proof. intros s. reflexivity. Qed.

Lemma keeps_get : keeps_buffer get.
Proof. intros s. reflexivity. Qed.

Lemma keeps_bind {A B} (m : Method A) (k : A -> Method B) :
  keeps_buffer m -> (forall a, keeps_buffer (k a)) -> keeps_buffer (bind m k).
Proof.
  intros Hm Hk s. unfold bind. specialize (Hm s).
  destruct (m s) as [a s1]. simpl in Hm. rewrite Hk. exact Hm.
Qed.

Lemma keeps_modify (f : Manager -> Manager) :
  (forall s, data_buffer (f s) = data_buffer s) -> keeps_buffer (modify f).
Proof. intros Hf s. apply Hf. Qed.

Lemma keeps_when (b : bool) (m : Method unit) :
  keeps_buffer m -> keeps_buffer (when b m).
Proof. intros Hm. destruct b; [exact Hm | apply keeps_ret]. Qed.

Lemma keeps_if {A} (b : bool) (m1 m2 : Method A) :
  keeps_buffer m1 -> keeps_buffer m2 -> keeps_buffer (if b then m1 else m2).
Proof. destruct b; auto. Qed.

Lemma keeps_response {A} (r : Response) (f : Z -> Method A) (m : Method A) :
  (forall c, keeps_buffer (f c)) -> keeps_buffer m ->
  keeps_buffer (match r with Status c => f c | Raised => m end).
Proof. destruct r; auto. Qed.

Lemma buffer_set_env w (s : Manager) :
  data_buffer (set_env w s) = data_buffer s.
Proof. reflexivity. Qed.
Lemma buffer_set_requests l (s : Manager) :
  data_buffer (set_requests l s) = data_buffer s.
Proof. reflexivity. Qed.
Lemma buffer_set_is_connected b (s : Manager) :
  data_buffer (set_is_connected b s) = data_buffer s.
Proof. reflexivity. Qed.
Lemma buffer_set_connection_attempts n (s : Manager) :
  data_buffer (set_connection_attempts n s) = data_buffer s.
Proof. reflexivity. Qed.
Lemma buffer_set_last_connection_time t (s : Manager) :
  data_buffer (set_last_connection_time t s) = data_buffer s.
Proof. reflexivity. Qed.
Lemma buffer_set_failed_transmissions n (s : Manager) :
  data_buffer (set_failed_transmissions n s) = data_buffer s.
Proof. reflexivity. Qed.

Create HintDb keeps discriminated.
#[local] Hint Resolve keeps_ret keeps_get keeps_bind keeps_modify keeps_when
  keeps_if keeps_response buffer_set_env buffer_set_requests
  buffer_set_is_connected buffer_set_connection_attempts
  buffer_set_last_connection_time buffer_set_failed_transmissions : keeps.

Lemma keeps_connect : keeps_buffer connect.
Proof. unfold connect. auto 20 with keeps. Qed.

Lemma keeps_disconnect : keeps_buffer disconnect.
Proof. unfold disconnect. auto 20 with keeps. Qed.

Lemma keeps_ensure_connected : keeps_buffer ensure_connected.
Proof. pose proof keeps_connect. unfold ensure_connected. auto 20 with keeps. Qed.

Lemma keeps_reconnect : keeps_buffer reconnect.
Proof. pose proof keeps_connect. unfold reconnect. auto 20 with keeps. Qed.

Lemma keeps_request call d : keeps_buffer (request call d).
Proof.
  unfold request. apply keeps_bind; [apply keeps_get |]. intros s.
  destruct (call d (env s)). auto 20 with keeps.
Qed.

Lemma keeps_send_to_thingspeak d : keeps_buffer (send_to_thingspeak d).
Proof.
  pose proof keeps_ensure_connected. pose proof (keeps_request http_get d).
  unfold send_to_thingspeak. auto 30 with keeps.
Qed.

Lemma keeps_send_http_post d : keeps_buffer (send_http_post d).
Proof.
  pose proof keeps_ensure_connected. pose proof (keeps_request http_post d).
  unfold send_http_post. auto 30 with keeps.
Qed.

Lemma keeps_send_configured d : keeps_buffer (send_configured d).
Proof.
  pose proof (keeps_send_to_thingspeak d). pose proof (keeps_send_http_post d).
  unfold send_configured. auto with keeps.
Qed.

(** ** One insertion *)

(** The entry [buffer_data] makes of [d]. *)
Definition entry_of (s : Manager) (d : Data) : Entry :=
  {| timestamp := time (env s); data := d |}.

Lemma buffer_data_buffer (d : Data) (s : Manager) :
  data_buffer (snd (buffer_data d s))
  = let b := data_buffer s ++ [entry_of s d] in
    if (Config.DATA_BUFFER_SIZE <? length b)%nat then tl b else b.
Proof.
  unfold buffer_data, bind, get, modify, when, ret, entry_of. simpl.
  destruct (Config.DATA_BUFFER_SIZE <? _)%nat; reflexivity.
Qed.

Lemma buffer_data_rest (d : Data) (s : Manager) :
  let s' := snd (buffer_data d s) in
  env s' = env s /\ requests s' = requests s /\
  is_connected s' = is_connected s.
Proof.
  unfold buffer_data, bind, get, modify, when, ret. simpl.
  destruct (Config.DATA_BUFFER_SIZE <? _)%nat; simpl; auto.
Qed.

(** One insertion on any buffer, also one above the capacity: it does not
    grow beyond the larger of its length and the capacity. *)
Lemma buffer_data_length (d : Data) (s : Manager) :
  length (data_buffer (snd (buffer_data d s)))
  = if (Config.DATA_BUFFER_SIZE <=? length (data_buffer s))%nat
    then length (data_buffer s) else S (length (data_buffer s)).
Proof.
  rewrite buffer_data_buffer. cbv zeta. rewrite length_app. simpl length.
  destruct (Nat.ltb_spec Config.DATA_BUFFER_SIZE (length (data_buffer s) + 1));
    destruct (Nat.leb_spec Config.DATA_BUFFER_SIZE (length (data_buffer s)));
    try lia.
  - destruct (data_buffer s) as [| e es]; simpl in *; [lia |].
    rewrite length_app. simpl. lia.
  - rewrite length_app. simpl. lia.
Qed.

Lemma buffer_data_lastn (d : Data) (s : Manager) :
  (length (data_buffer s) <= Config.DATA_BUFFER_SIZE)%nat ->
  data_buffer (snd (buffer_data d s))
  = lastn Config.DATA_BUFFER_SIZE (data_buffer s ++ [entry_of s d]).
Proof.
  intros Hl. rewrite buffer_data_buffer. cbv zeta.
  destruct (Nat.ltb_spec Config.DATA_BUFFER_SIZE
              (length (data_buffer s ++ [entry_of s d]))) as [Hlt | Hge].
  - rewrite length_app in Hlt. simpl in Hlt.
    unfold lastn. rewrite length_app. simpl.
    replace (length (data_buffer s) + 1 - Config.DATA_BUFFER_SIZE)%nat
      with 1%nat by lia.
    reflexivity.
  - symmetry. apply lastn_all. exact Hge.
Qed.

Lemma buffer_data_bounded (d : Data) (s : Manager) :
  (length (data_buffer s) <= Config.DATA_BUFFER_SIZE)%nat ->
  (length (data_buffer (snd (buffer_data d s)))
   <= Config.DATA_BUFFER_SIZE)%nat.
Proof.
  intros Hl. rewrite buffer_data_lastn by exact Hl.
  rewrite lastn_length. lia.
Qed.

(** ** The drain *)

(** A response that [send_to_thingspeak] counts as a success. *)
Definition succeeded (r : Response) : bool :=
  match r with
  | Status code => code =? 200
  | Raised => false
  end.

(** What the world answers when the data [ds] are sent to it one after the
    other, with the pause the loop makes after each: whether each request
    succeeded, and the world afterwards. *)
Fixpoint answers (ds : list Data) (w : World) : list bool * World :=
  match ds with
  | [] => ([], w)
  | d :: rest =>
      let (r, w1) := http_get d w in
      let (rs, w2) := answers rest (sleep w1) in
      (succeeded r :: rs, w2)
  end.

(** The entries whose request did not succeed. *)
Fixpoint failed_of (entries : list Entry) (results : list bool)
  : list Entry :=
  match entries, results with
  | e :: es, r :: rs => if r then failed_of es rs else e :: failed_of es rs
  | _, _ => []
  end.

(** The number of requests that succeeded. *)
Fixpoint count_true (results : list bool) : Z :=
  match results with
  | [] => 0
  | r :: rs => (if r then 1 else 0) + count_true rs
  end.

Lemma answers_length ds : forall w, length (fst (answers ds w)) = length ds.
Proof.
  induction ds as [| d ds IH]; intros w; simpl; [reflexivity |].
  destruct (http_get d w) as [r w1]. specialize (IH (sleep w1)).
  destruct (answers ds (sleep w1)) as [rs w2]. simpl in *. congruence.
Qed.

Lemma failed_of_subseq entries : forall rs, subseq (failed_of entries rs) entries.
Proof.
  induction entries as [| e es IH]; intros [| r rs]; simpl;
    try apply subseq_nil_l.
  destruct r; constructor; apply IH.
Qed.

Lemma count_true_failed_of entries : forall rs,
  length rs = length entries ->
  count_true rs + Z.of_nat (length (failed_of entries rs))
  = Z.of_nat (length entries).
Proof.
  induction entries as [| e es IH]; intros [| r rs] Hl; simpl in *;
    try discriminate; [reflexivity |].
  injection Hl as Hl. specialize (IH rs Hl). destruct r; simpl length; lia.
Qed.

Lemma all_succeeded entries : forall rs,
  length rs = length entries -> forallb (fun r => r) rs = true ->
  failed_of entries rs = [] /\ count_true rs = Z.of_nat (length entries).
Proof.
  induction entries as [| e es IH]; intros [| r rs] Hl Hall; simpl in *;
    try discriminate; [auto |].
  injection Hl as Hl. apply andb_prop in Hall as [-> Hall].
  destruct (IH rs Hl Hall) as [-> ->]. split; [reflexivity | lia].
Qed.

(** A send on a manager that holds itself connected. *)
Lemma send_configured_connected (d : Data) (s : Manager) :
  is_connected s = true ->
  let (r, w) := http_get d (env s) in
  let (success, s') := send_configured d s in
  success = succeeded r /\ env s' = w /\
  requests s' = requests s ++ [d] /\ is_connected s' = true /\
  data_buffer s' = data_buffer s.
Proof.
  intros Hc.
  unfold send_configured, send_to_thingspeak, ensure_connected, request,
    bind, get, modify, ret.
  simpl. rewrite Hc. simpl.
  destruct (http_get d (env s)) as [r w]. simpl.
  destruct r as [code |]; simpl; [| auto].
  destruct (code =? 200); simpl; auto.
Qed.

Lemma transmit_loop_spec (entries : list Entry) :
  forall (c : Z) (f : list Entry) (s : Manager),
  is_connected s = true ->
  let (rs, w) := answers (map data entries) (env s) in
  let (r, s') := transmit_loop entries c f s in
  fst r = c + count_true rs /\ snd r = f ++ failed_of entries rs /\
  env s' = w /\ requests s' = requests s ++ map data entries /\
  is_connected s' = true /\ data_buffer s' = data_buffer s.
Proof.
  induction entries as [| e es IH]; intros c f s Hc.
  - simpl. unfold ret. simpl. rewrite !app_nil_r.
    repeat split; auto; lia.
  - simpl answers. simpl map.
    pose proof (send_configured_connected (data e) s Hc) as Hs.
    destruct (http_get (data e) (env s)) as [r w1].
    cbn [transmit_loop]. unfold bind at 1.
    destruct (send_configured (data e) s) as [success s1].
    destruct Hs as (-> & <- & Hr & Hc1 & Hb).
    unfold bind at 1. unfold get at 1. unfold bind at 1.
    unfold modify at 1.
    assert (Hc2 : is_connected (set_env (sleep (env s1)) s1) = true)
      by exact Hc1.
    destruct (succeeded r); cbv beta iota.
    + specialize (IH (c + 1) f _ Hc2). simpl env in IH.
      destruct (answers (map data es) (sleep (env s1))) as [rs w2].
      destruct (transmit_loop es (c + 1) f _) as [res s3].
      destruct IH as (I1 & I2 & I3 & I4 & I5 & I6).
      simpl in I4, I6. cbn [count_true failed_of].
      repeat split; auto; try lia;
        try (rewrite I2, <- app_assoc; reflexivity);
        try (rewrite I4, Hr, <- app_assoc; reflexivity);
        try (rewrite I6; exact Hb).
    + specialize (IH c (f ++ [e]) _ Hc2). simpl env in IH.
      destruct (answers (map data es) (sleep (env s1))) as [rs w2].
      destruct (transmit_loop es c (f ++ [e]) _) as [res s3].
      destruct IH as (I1 & I2 & I3 & I4 & I5 & I6).
      simpl in I4, I6. cbn [count_true failed_of].
      repeat split; auto; try lia;
        try (rewrite I2, <- app_assoc; reflexivity);
        try (rewrite I4, Hr, <- app_assoc; reflexivity);
        try (rewrite I6; exact Hb).
Qed.

(** [connect] reports what it leaves in [is_connected], and sends
    nothing. *)
Lemma connect_result (s : Manager) :
  let (ok, s') := connect s in
  is_connected s' = ok /\ requests s' = requests s /\
  data_buffer s' = data_buffer s.
Proof.
  unfold connect, bind, get, modify, ret. simpl.
  destruct (wlan_isconnected (env s)); simpl; [auto |].
  destruct (wlan_isconnected (wlan_join (env s))); simpl; auto.
Qed.

Lemma ensure_connected_result (s : Manager) :
  let (ok, s') := ensure_connected s in
  (ok = true -> is_connected s' = true) /\ requests s' = requests s /\
  data_buffer s' = data_buffer s.
Proof.
  unfold ensure_connected, bind, get, ret. simpl.
  destruct (is_connected s) eqn:Hc; simpl; [auto |].
  pose proof (connect_result s) as C.
  destruct (connect s) as [ok s']. destruct C as (C1 & C2 & C3).
  repeat split; auto. intros ->. exact C1.
Qed.

(** [transmit_buffered_data], case by case. *)
Lemma transmit_buffered_data_cases (s : Manager) :
  transmit_buffered_data s
  = match data_buffer s with
    | [] => (0, s)
    | _ :: _ =>
        let (ok, s0) := ensure_connected s in
        if ok then
          let (r, s1) := transmit_loop (data_buffer s0) 0 [] s0 in
          (fst r, set_data_buffer (snd r) s1)
        else (0, s0)
    end.
Proof.
  unfold transmit_buffered_data. unfold bind at 1. unfold get at 1.
  destruct (data_buffer s) as [| e es]; [reflexivity |].
  unfold bind at 1. destruct (ensure_connected s) as [ok s0].
  destruct ok; cbn [negb]; cbv beta iota; [| reflexivity].
  unfold bind at 1. unfold get at 1. unfold bind at 1. cbv beta iota.
  destruct (transmit_loop (data_buffer s0) 0 [] s0) as [[c f] s1].
  reflexivity.
Qed.

(** What is left in the buffer was in it, in that order. *)
Lemma transmit_buffered_data_subseq (s : Manager) :
  subseq (data_buffer (snd (transmit_buffered_data s))) (data_buffer s).
Proof.
  rewrite transmit_buffered_data_cases.
  destruct (data_buffer s) as [| e es] eqn:Eb.
  - simpl. rewrite Eb. constructor.
  - pose proof (ensure_connected_result s) as C.
    destruct (ensure_connected s) as [ok s0]. destruct C as (C1 & _ & C3).
    destruct ok.
    + pose proof (transmit_loop_spec (data_buffer s0) 0 [] s0 (C1 eq_refl))
        as L.
      destruct (answers (map data (data_buffer s0)) (env s0)) as [rs w].
      destruct (transmit_loop (data_buffer s0) 0 [] s0) as [r s1].
      destruct L as (_ & L2 & _). cbn [snd data_buffer set_data_buffer].
      rewrite L2, C3, Eb. cbn [app]. apply failed_of_subseq.
    + simpl. rewrite C3, Eb. apply subseq_refl.
Qed.

(** C6.  [transmit_buffered_data] sends the buffered entries oldest first,
    in the order they were buffered.  The entries whose request fails stay,
    in their order and once each; those whose request succeeds go; the count
    of the latter is returned.  When every request succeeds the buffer ends
    empty, the requests made are those of the buffered entries in their
    order, and the count is their number.  With nothing buffered, or no
    connection to be had, nothing is sent and the buffer stays. *)
Theorem drain_oldest_first (s : Manager) :
  let (n, s') := transmit_buffered_data s in
  subseq (data_buffer s') (data_buffer s) /\
  (data_buffer s = [] -> n = 0 /\ s' = s) /\
  (data_buffer s <> [] -> fst (ensure_connected s) = false ->
   n = 0 /\ data_buffer s' = data_buffer s /\ requests s' = requests s) /\
  (data_buffer s <> [] -> fst (ensure_connected s) = true ->
   let (rs, w) := answers (map data (data_buffer s))
                          (env (snd (ensure_connected s))) in
   requests s' = requests s ++ map data (data_buffer s) /\
   data_buffer s' = failed_of (data_buffer s) rs /\
   n = count_true rs /\
   n + Z.of_nat (length (data_buffer s')) = Z.of_nat (length (data_buffer s)) /\
   env s' = w /\
   (forallb (fun r => r) rs = true ->
    data_buffer s' = [] /\ n = Z.of_nat (length (data_buffer s)))).
Proof.
  pose proof (transmit_buffered_data_subseq s) as Sub.
  rewrite transmit_buffered_data_cases in Sub |- *.
  destruct (data_buffer s) as [| e es] eqn:Eb.
  - split; [exact Sub |]. repeat split; congruence.
  - pose proof (ensure_connected_result s) as C.
    destruct (ensure_connected s) as [ok s0].
    destruct C as (C1 & C2 & C3). simpl fst. simpl snd.
    destruct ok.
    + pose proof (transmit_loop_spec (data_buffer s0) 0 [] s0 (C1 eq_refl))
        as L.
      pose proof (answers_length (map data (data_buffer s0)) (env s0)) as Hl.
      rewrite C3 in L, Hl, Sub |- *. rewrite Eb in L, Hl, Sub |- *.
      destruct (answers (map data (e :: es)) (env s0)) as [rs w].
      destruct (transmit_loop (e :: es) 0 [] s0) as [[c f] s1].
      simpl fst in L, Hl |- *. simpl snd in L, Sub |- *.
      destruct L as (L1 & L2 & L3 & L4 & L5 & L6).
      rewrite length_map in Hl. simpl in L2. subst c f.
      pose proof (count_true_failed_of (e :: es) rs Hl) as Hcnt.
      split; [exact Sub |].
      split; [discriminate |]. split; [discriminate |].
      intros _ _. simpl data_buffer. simpl requests. simpl env.
      rewrite L4, C2.
      repeat split; auto; apply (all_succeeded (e :: es) rs Hl); assumption.
    + simpl in Sub |- *. rewrite C3 in Sub |- *. rewrite C2.
      split; [exact Sub |].
      split; [discriminate |]. split; [auto | discriminate].
Qed.

(** ** The states of a manager *)

(** The managers the class can produce: [__init__], then any of its methods,
    with the world moving on between the calls. *)
Inductive reachable : Manager -> Prop :=
| reach_init w : reachable (__init__ w)
| reach_world s w : reachable s -> reachable (set_env w s)
| reach_connect s : reachable s -> reachable (snd (connect s))
| reach_disconnect s : reachable s -> reachable (snd (disconnect s))
| reach_reconnect s : reachable s -> reachable (snd (reconnect s))
| reach_send_to_thingspeak s d :
    reachable s -> reachable (snd (send_to_thingspeak d s))
| reach_send_http_post s d :
    reachable s -> reachable (snd (send_http_post d s))
| reach_buffer_data s d : reachable s -> reachable (snd (buffer_data d s))
| reach_transmit_buffered_data s :
    reachable s -> reachable (snd (transmit_buffered_data s))
| reach_send_data s d : reachable s -> reachable (snd (send_data d s)).

Lemma transmit_buffered_data_shrinks (s : Manager) :
  (length (data_buffer (snd (transmit_buffered_data s)))
   <= length (data_buffer s))%nat.
Proof. apply subseq_length, transmit_buffered_data_subseq. Qed.

Lemma send_data_bounded (d : Data) (s : Manager) :
  (length (data_buffer s) <= Config.DATA_BUFFER_SIZE)%nat ->
  (length (data_buffer (snd (send_data d s)))
   <= Config.DATA_BUFFER_SIZE)%nat.
Proof.
  intros Hl. unfold send_data. unfold bind at 1. unfold get at 1.
  unfold bind at 1.
  assert (D : exists s1 : Manager,
             (match data_buffer s with
              | [] => ret tt
              | _ :: _ => bind transmit_buffered_data (fun _ => ret tt)
              end) s = (tt, s1) /\
             (length (data_buffer s1) <= Config.DATA_BUFFER_SIZE)%nat).
  { destruct (data_buffer s) as [| e es] eqn:Eb.
    - exists s. split; [reflexivity |]. rewrite Eb. simpl. lia.
    - pose proof (transmit_buffered_data_shrinks s) as Sh.
      unfold bind. destruct (transmit_buffered_data s) as [n s1].
      exists s1. split; [reflexivity |]. simpl in Sh.
      rewrite Eb in Sh. lia. }
  destruct D as (s1 & -> & H1).
  unfold bind at 1. pose proof (keeps_send_configured d s1) as K.
  destruct (send_configured d s1) as [success s2]. simpl in K.
  unfold bind, ret. destruct success; simpl.
  - rewrite K. exact H1.
  - pose proof (buffer_data_bounded d s2) as B. rewrite K in B.
    specialize (B H1). destruct (buffer_data d s2). exact B.
Qed.

(** The buffer of a manager never holds more than [DATA_BUFFER_SIZE]
    entries. *)
Lemma reachable_bounded (s : Manager) :
  reachable s -> (length (data_buffer s) <= Config.DATA_BUFFER_SIZE)%nat.
Proof.
  induction 1 as [w | s w _ IH | s _ IH | s _ IH | s _ IH | s d _ IH
                 | s d _ IH | s d _ IH | s _ IH | s d _ IH].
  - simpl. lia.
  - exact IH.
  - rewrite keeps_connect. exact IH.
  - rewrite keeps_disconnect. exact IH.
  - rewrite keeps_reconnect. exact IH.
  - rewrite keeps_send_to_thingspeak. exact IH.
  - rewrite keeps_send_http_post. exact IH.
  - apply buffer_data_bounded, IH.
  - pose proof (transmit_buffered_data_shrinks s). lia.
  - apply send_data_bounded, IH.
Qed.

(** ** Sequences of insertions *)

(** An insertion of the data [snd wd] made when the world is [fst wd]. *)
Definition insert (s : Manager) (wd : World * Data) : Manager :=
  snd (buffer_data (snd wd) (set_env (fst wd) s)).

Definition insert_all (wds : list (World * Data)) (s : Manager) : Manager :=
  fold_left insert wds s.

(** The entries these insertions make, the oldest first. *)
Definition entries_of (wds : list (World * Data)) : list Entry :=
  map (fun wd => {| timestamp := time (fst wd); data := snd wd |}) wds.

Lemma insert_lastn (s : Manager) (wd : World * Data) :
  (length (data_buffer s) <= Config.DATA_BUFFER_SIZE)%nat ->
  data_buffer (insert s wd)
  = lastn Config.DATA_BUFFER_SIZE (data_buffer s ++ entries_of [wd]).
Proof.
  intros Hl. unfold insert. rewrite buffer_data_lastn by exact Hl.
  reflexivity.
Qed.

Lemma insert_all_lastn (wds : list (World * Data)) :
  forall s : Manager,
  (length (data_buffer s) <= Config.DATA_BUFFER_SIZE)%nat ->
  data_buffer (insert_all wds s)
  = lastn Config.DATA_BUFFER_SIZE (data_buffer s ++ entries_of wds).
Proof.
  induction wds as [| wd wds IH]; intros s Hl.
  - simpl. rewrite app_nil_r. symmetry. apply lastn_all. exact Hl.
  - simpl insert_all. fold (insert_all wds (insert s wd)).
    pose proof (insert_lastn s wd Hl) as E1.
    assert (Hl1 : (length (data_buffer (insert s wd))
                   <= Config.DATA_BUFFER_SIZE)%nat).
    { rewrite E1, lastn_length. lia. }
    rewrite (IH _ Hl1), E1.
    change (entries_of (wd :: wds)) with (entries_of [wd] ++ entries_of wds).
    rewrite app_assoc.
    apply lastn_app.
Qed.

(** C5.  The buffer of a manager holds at most [DATA_BUFFER_SIZE] entries,
    and so it does after every insertion of every sequence of insertions:
    what it holds is the last [DATA_BUFFER_SIZE] of the entries it held
    followed by those inserted, in that order.  [DATA_BUFFER_SIZE + 1]
    insertions into an empty buffer leave all but the first of them; an
    insertion into a full buffer drops the entry at index 0 and puts the new
    one last. *)
Theorem buffer_capacity (s : Manager) :
  reachable s ->
  (length (data_buffer s) <= Config.DATA_BUFFER_SIZE)%nat /\
  (forall wds : list (World * Data),
     (length (data_buffer (insert_all wds s)) <= Config.DATA_BUFFER_SIZE)%nat /\
     data_buffer (insert_all wds s)
     = lastn Config.DATA_BUFFER_SIZE (data_buffer s ++ entries_of wds)) /\
  (forall wds : list (World * Data),
     data_buffer s = [] -> length wds = S Config.DATA_BUFFER_SIZE ->
     data_buffer (insert_all wds s) = tl (entries_of wds) /\
     length (data_buffer (insert_all wds s)) = Config.DATA_BUFFER_SIZE) /\
  (forall d : Data,
     length (data_buffer s) = Config.DATA_BUFFER_SIZE ->
     data_buffer (snd (buffer_data d s))
     = tl (data_buffer s) ++ [entry_of s d] /\
     length (data_buffer (snd (buffer_data d s))) = Config.DATA_BUFFER_SIZE).
Proof.
  intros R. pose proof (reachable_bounded R) as Hl.
  split; [exact Hl |]. split; [| split].
  - intros wds. rewrite (insert_all_lastn wds s Hl).
    split; [rewrite lastn_length; lia | reflexivity].
  - intros wds Eb Hw. rewrite (insert_all_lastn wds s Hl), Eb. simpl app.
    assert (Hlen : length (entries_of wds) = S Config.DATA_BUFFER_SIZE).
    { unfold entries_of. rewrite length_map. exact Hw. }
    split.
    + unfold lastn. rewrite Hlen.
      replace (S Config.DATA_BUFFER_SIZE - Config.DATA_BUFFER_SIZE)%nat
        with 1%nat by lia.
      destruct (entries_of wds); reflexivity.
    + rewrite lastn_length, Hlen. lia.
  - intros d Hfull. rewrite buffer_data_buffer. cbv zeta.
    rewrite length_app, Hfull. simpl length.
    replace (Config.DATA_BUFFER_SIZE <? Config.DATA_BUFFER_SIZE + 1)%nat
      with true by (symmetry; apply Nat.ltb_lt; lia).
    destruct (data_buffer s) as [| e es] eqn:Eb.
    + discriminate Hfull.
    + simpl. split; [reflexivity |].
      rewrite length_app. simpl in *. lia.
Qed.

End Facts.

End Buffer.

(* ================================================================== *)
(** * The properties at concrete inputs *)

Module Scenarios.

Import St.

(** ** The simulated sensor, in binary64 *)

(** The reading of the simulator's central raw values: [t_fine] is 128422,
    the temperature just above 25 degrees and the humidity within range. *)
Example simulated_reading_binary64 :
  exists (temperature pressure humidity : float) (self : BME280.BME280),
    BME280.read_compensated_data (F:=float) HardwareSim.sensor
      (HardwareSim.burst 329728 519888 28672)
    = Some (temperature, pressure, humidity, self) /\
    BME280.t_fine self = 128422%Z /\
    PrimFloat.ltb 25%float temperature = true /\
    PrimFloat.ltb temperature 26%float = true /\
    PrimFloat.leb 0%float humidity = true /\
    PrimFloat.leb humidity 100%float = true.
Proof.
  do 4 eexists. split; [vm_compute; reflexivity |].
  repeat split; vm_compute; reflexivity.
Qed.

(** Binary64 agrees with exact arithmetic on [t_fine] there. *)
Example simulated_t_fine_agrees :
  option_map (fun r => BME280.t_fine (snd r))
    (BME280._compensate_temperature (F:=float) HardwareSim.sensor 519888)
  = option_map (fun r => BME280.t_fine (snd r))
      (BME280._compensate_temperature (F:=Q) HardwareSim.sensor 519888).
Proof. vm_compute. reflexivity. Qed.

(** The simulated sensor with [dig_P1] cleared. *)
Definition sensor_without_P1 : BME280.BME280 :=
  let c := HardwareSim.sensor in
  {| BME280.dig_T1 := BME280.dig_T1 c; BME280.dig_T2 := BME280.dig_T2 c;
     BME280.dig_T3 := BME280.dig_T3 c;
     BME280.dig_P1 := 0;
     BME280.dig_P2 := BME280.dig_P2 c; BME280.dig_P3 := BME280.dig_P3 c;
     BME280.dig_P4 := BME280.dig_P4 c; BME280.dig_P5 := BME280.dig_P5 c;
     BME280.dig_P6 := BME280.dig_P6 c; BME280.dig_P7 := BME280.dig_P7 c;
     BME280.dig_P8 := BME280.dig_P8 c; BME280.dig_P9 := BME280.dig_P9 c;
     BME280.dig_H1 := BME280.dig_H1 c; BME280.dig_H2 := BME280.dig_H2 c;
     BME280.dig_H3 := BME280.dig_H3 c; BME280.dig_H4 := BME280.dig_H4 c;
     BME280.dig_H5 := BME280.dig_H5 c; BME280.dig_H6 := BME280.dig_H6 c;
     BME280.t_fine := 128422 |}.

(** With [dig_P1 = 0] the pressure is 0 in binary64 as well. *)
Example pressure_zero_guard_binary64 :
  exists p : float,
    BME280._compensate_pressure (F:=float) sensor_without_P1 329728 = Some p /\
    PrimFloat.eqb p 0%float = true.
Proof. eexists. split; vm_compute; reflexivity. Qed.


(** A raw humidity that the polynomial takes above 100, and one it takes
    below 0: both are clamped, in either arithmetic. *)
Example humidity_clamped_binary64 :
  PrimFloat.ltb 100%float
    (BME280.humidity_poly (F:=float) sensor_without_P1 65535) = true /\
  PrimFloat.eqb
    (BME280._compensate_humidity (F:=float) sensor_without_P1 65535)
    100%float = true /\
  PrimFloat.ltb (BME280.humidity_poly (F:=float) sensor_without_P1 0)
    0%float = true /\
  PrimFloat.eqb (BME280._compensate_humidity (F:=float) sensor_without_P1 0)
    0%float = true.
Proof. repeat split; vm_compute; reflexivity. Qed.

(** A fine temperature far outside the range of the device, with a zero
    [dig_H1]: the formula overflows, and then multiplies an infinity by
    zero. *)
Definition overflowing : BME280.BME280 :=
  let c := HardwareSim.sensor in
  {| BME280.dig_T1 := BME280.dig_T1 c; BME280.dig_T2 := BME280.dig_T2 c;
     BME280.dig_T3 := BME280.dig_T3 c;
     BME280.dig_P1 := BME280.dig_P1 c;
     BME280.dig_P2 := BME280.dig_P2 c; BME280.dig_P3 := BME280.dig_P3 c;
     BME280.dig_P4 := BME280.dig_P4 c; BME280.dig_P5 := BME280.dig_P5 c;
     BME280.dig_P6 := BME280.dig_P6 c; BME280.dig_P7 := BME280.dig_P7 c;
     BME280.dig_P8 := BME280.dig_P8 c; BME280.dig_P9 := BME280.dig_P9 c;
     BME280.dig_H1 := 0; BME280.dig_H2 := BME280.dig_H2 c;
     BME280.dig_H3 := BME280.dig_H3 c; BME280.dig_H4 := BME280.dig_H4 c;
     BME280.dig_H5 := BME280.dig_H5 c; BME280.dig_H6 := BME280.dig_H6 c;
     BME280.t_fine := 10 ^ 300 |}.



(** ** The battery of config.py *)

(** A converter that always reads 37000, about 3.73 V. *)
Definition steady : Power.PowerManager (F:=Q) :=
  Power.__init__ (fun _ => 37000%Z).

Lemma battery_state_at_thresholds :
  fst (fst (Power.state_at steady 3)) = Power.CRITICAL /\
  fst (fst (Power.state_at steady (33 # 10))) = Power.LOW /\
  fst (fst (Power.state_at steady (399 # 100))) = Power.FULL /\
  fst (fst (Power.state_at steady (398 # 100))) = Power.NORMAL /\
  Power.state (fst (Power.get_battery_status steady)) = Power.NORMAL.
Proof.
  destruct Battery.battery_state_thresholds as (Hgen & HQ & _).
  destruct (HQ steady (Battery.configured_init (fun _ => 37000%Z)))
    as (Hord & Hcrit & _).
  destruct (Hgen Q _ steady 0%Q) as (_ & _ & _ & _ & Hstatus).
  split; [exact Hcrit |].
  split; [apply Hord; vm_compute; (reflexivity || discriminate) |].
  split; [apply Hord; vm_compute; (reflexivity || discriminate) |].
  split; [apply Hord; vm_compute; (reflexivity || discriminate) |].
  rewrite Hstatus.
  apply Hord; vm_compute; (reflexivity || discriminate).
Defined.

(** The two boundaries in binary64: the critical voltage is CRITICAL, and
    the product [full_voltage * 0.95] as the machine computes it is FULL. *)
Example battery_state_boundaries_binary64 :
  let s := Power.__init__ (F:=float) (fun _ => 37000%Z) in
  fst (fst (Power.state_at s (Power.critical_voltage s))) = Power.CRITICAL /\
  fst (fst (Power.state_at s
              (PrimFloat.mul (Power.full_voltage s) (dec 95 100))))
  = Power.FULL /\
  PrimFloat.eqb (Power.percentage_at s (Power.critical_voltage s)) 0%float
  = true /\
  PrimFloat.eqb (Power.percentage_at s (Power.full_voltage s)) 100%float
  = true.
Proof. repeat split; vm_compute; reflexivity. Qed.

(** ** A link that goes down and comes back *)

(** The air around the station: whether the network is in range, whether the
    interface is associated with it, and the time. *)
Record Air : Type := {
  in_range : bool;
  associated : bool;
  clock : Z
}.

(** Out of range, joining fails and requests raise; in range, joining
    succeeds and every request is answered with 200.  A pause takes one
    second. *)
Definition air : WiFi.Surroundings Z Air := {|
  WiFi.wlan_isconnected := associated;
  WiFi.wlan_join := fun w =>
    {| in_range := in_range w; associated := in_range w; clock := clock w |};
  WiFi.wlan_disconnect := fun w =>
    {| in_range := in_range w; associated := false; clock := clock w |};
  WiFi.wlan_active := fun _ w => w;
  WiFi.http_get := fun _ w =>
    (if associated w && in_range w then WiFi.Status 200 else WiFi.Raised, w);
  WiFi.http_post := fun _ w =>
    (if associated w && in_range w then WiFi.Status 201 else WiFi.Raised, w);
  WiFi.time := clock;
  WiFi.sleep := fun w =>
    {| in_range := in_range w; associated := associated w;
       clock := (clock w + 1)%Z |}
|}.

Definition out_of_range (t : Z) : Air :=
  {| in_range := false; associated := false; clock := t |}.
Definition within_range (t : Z) : Air :=
  {| in_range := true; associated := false; clock := t |}.

(** Three readings sent while out of range: each send fails and is
    buffered. *)
Definition after_three_failures : WiFi.WiFiManager (Data:=Z) (World:=Air) :=
  let s := WiFi.__init__ (H:=air) (out_of_range 0) in
  let s := snd (WiFi.send_data (H:=air) 1%Z s) in
  let s := snd (WiFi.send_data (H:=air) 2%Z (WiFi.set_env (out_of_range 300) s)) in
  snd (WiFi.send_data (H:=air) 3%Z (WiFi.set_env (out_of_range 600) s)).

Lemma after_three_failures_reachable :
  Buffer.reachable (H:=air) after_three_failures.
Proof.
  unfold after_three_failures. cbv zeta.
  repeat first [ apply Buffer.reach_send_data | apply Buffer.reach_world
               | apply Buffer.reach_init ].
Qed.

(** The round trip: three failed transmissions, then the network is back
    and one drain empties the buffer with exactly three requests, in the
    order the readings were buffered. *)
Lemma drain_three_after_reconnect :
  map WiFi.data (WiFi.data_buffer after_three_failures) = [1; 2; 3]%Z /\
  WiFi.requests after_three_failures = [] /\
  let (n, s) := WiFi.transmit_buffered_data (H:=air)
                  (WiFi.set_env (within_range 900) after_three_failures) in
  n = 3%Z /\ WiFi.data_buffer s = [] /\ WiFi.requests s = [1; 2; 3]%Z.
Proof.
  split; [reflexivity |]. split; [reflexivity |].
  pose proof (Buffer.drain_oldest_first (H:=air)
                (WiFi.set_env (within_range 900) after_three_failures)) as D.
  destruct (WiFi.transmit_buffered_data _) as [n s].
  destruct D as (_ & _ & _ & D).
  specialize (D ltac:(discriminate) eq_refl).
  vm_compute in D. destruct D as (Hr & Hb & Hn & _).
  split; [exact Hn |]. split; [exact Hb | exact Hr].
Defined.

(** Fifty-one insertions into the empty buffer of a new manager leave the
    last fifty. *)
Lemma fifty_one_insertions :
  let wds := map (fun i => (out_of_range (Z.of_nat i), Z.of_nat i)) (seq 0 51) in
  let s := Buffer.insert_all (H:=air) wds (WiFi.__init__ (H:=air) (out_of_range 0)) in
  map WiFi.data (WiFi.data_buffer s) = map Z.of_nat (seq 1 50) /\
  length (WiFi.data_buffer s) = 50%nat.
Proof.
  intros wds s.
  destruct (Buffer.buffer_capacity (H:=air)
              (Buffer.reach_init (H:=air) (out_of_range 0)))
    as (_ & _ & Hfill & _).
  destruct (Hfill wds eq_refl eq_refl) as [Hb Hlen].
  subst s. split; [rewrite Hb; reflexivity | exact Hlen].
Defined.

End Scenarios.

(* ================================================================== *)
(** * The registers: raw samples and calibration words *)

Module Registers.

Import BME280.

Local Open Scope Z_scope.

(** A value below [2^n] has no bit at [n] or above. *)
Lemma testbit_above (x n i : Z) :
  0 <= x < 2 ^ n -> n <= i -> Z.testbit x i = false.
Proof.
  intros Hx Hi. destruct (Z.eq_dec x 0) as [-> | Hne].
  - apply Z.testbit_0_l.
  - apply Z.bits_above_log2; [lia |].
    assert (0 <= n).
    { destruct (Z.le_gt_cases 0 n) as [Hn | Hn]; [exact Hn |].
      rewrite Z.pow_neg_r in Hx by exact Hn. lia. }
    assert (Z.log2 x < n) by (apply Z.log2_lt_pow2; lia). lia.
Qed.

Lemma lor_below (a b n : Z) :
  0 <= n -> 0 <= a < 2 ^ n -> 0 <= b < 2 ^ n -> 0 <= Z.lor a b < 2 ^ n.
Proof.
  intros Hn Ha Hb.
  assert (Hnn : 0 <= Z.lor a b) by (apply Z.lor_nonneg; lia).
  split; [exact Hnn |].
  destruct (Z.eq_dec (Z.lor a b) 0) as [-> | Hne];
    [apply Z.pow_pos_nonneg; lia |].
  apply Z.log2_lt_pow2; [lia |].
  rewrite Z.log2_lor by lia.
  destruct (Z.eq_dec a 0) as [-> | Ha0]; destruct (Z.eq_dec b 0) as [-> | Hb0];
    try (exfalso; apply Hne; reflexivity).
  - rewrite Z.max_r by (simpl; apply Z.log2_nonneg).
    apply Z.log2_lt_pow2; lia.
  - rewrite Z.max_l by (simpl; apply Z.log2_nonneg).
    apply Z.log2_lt_pow2; lia.
  - apply Z.max_lub_lt; apply Z.log2_lt_pow2; lia.
Qed.

(** The three bytes of a 20-bit field, as [readfrom_mem] packs them and
    [_read_raw_data] puts them together again. *)
Lemma pack20 (p : Z) :
  0 <= p < 2 ^ 20 ->
  Z.lor (Z.lor (Z.shiftl (Z.land (Z.shiftr p 12) 0xFF) 12)
               (Z.shiftl (Z.land (Z.shiftr p 4) 0xFF) 4))
        (Z.shiftr (Z.land (Z.shiftl p 4) 0xF0) 4) = p.
Proof.
  intros Hp.
  change 0xFF with (Z.ones 8). change 0xF0 with (Z.shiftl (Z.ones 4) 4).
  Z.bitblast.
  match goal with
  | |- context [Z.testbit p ?i] =>
      rewrite (@testbit_above p 20 i) by lia
  end.
  reflexivity.
Qed.

Lemma pack16 (h : Z) :
  0 <= h < 2 ^ 16 ->
  Z.lor (Z.shiftl (Z.land (Z.shiftr h 8) 0xFF) 8) (Z.land h 0xFF) = h.
Proof.
  intros Hh. change 0xFF with (Z.ones 8). Z.bitblast.
  match goal with
  | |- context [Z.testbit h ?i] =>
      rewrite (@testbit_above h 16 i) by lia
  end.
  reflexivity.
Qed.

(** The burst the simulated bus builds for three raw values is read back
    by the driver as those values. *)
Theorem read_raw_data_of_burst (press_raw temp_raw hum_raw : Z) :
  0 <= press_raw < 2 ^ 20 -> 0 <= temp_raw < 2 ^ 20 ->
  0 <= hum_raw < 2 ^ 16 ->
  _read_raw_data (HardwareSim.burst press_raw temp_raw hum_raw)
  = (temp_raw, press_raw, hum_raw).
Proof.
  intros Hp Ht Hh. unfold _read_raw_data, HardwareSim.burst. cbn [nth].
  rewrite (pack20 Hp), (pack20 Ht), (pack16 Hh). reflexivity.
Qed.

Lemma read_raw_data_of_burst_witness :
  _read_raw_data (HardwareSim.burst 329728 519888 28672)
  = (519888, 329728, 28672).
Proof. apply read_raw_data_of_burst; lia. Defined.

(** Whatever eight bytes the bus returns, the raw pressure and temperature
    are 20-bit values and the raw humidity a 16-bit value. *)
Theorem read_raw_data_range (data : list Z) :
  (forall i, 0 <= nth i data 0 < 256) ->
  let '(temp_raw, press_raw, hum_raw) := _read_raw_data data in
  0 <= temp_raw < 2 ^ 20 /\ 0 <= press_raw < 2 ^ 20 /\
  0 <= hum_raw < 2 ^ 16.
Proof.
  intros Hb. unfold _read_raw_data.
  assert (H20 : forall a b c, 0 <= a < 256 -> 0 <= b < 256 -> 0 <= c < 256 ->
            0 <= Z.lor (Z.lor (Z.shiftl a 12) (Z.shiftl b 4)) (Z.shiftr c 4)
            < 2 ^ 20).
  { intros a b c Ha Hb' Hc.
    rewrite !Z.shiftl_mul_pow2, Z.shiftr_div_pow2 by lia.
    repeat apply lor_below; try lia.
    split; [apply Z.div_pos; lia |].
    apply Z.div_lt_upper_bound; lia. }
  assert (H16 : forall a b, 0 <= a < 256 -> 0 <= b < 256 ->
            0 <= Z.lor (Z.shiftl a 8) b < 2 ^ 16).
  { intros a b Ha Hb'. rewrite Z.shiftl_mul_pow2 by lia.
    apply lor_below; lia. }
  split; [apply H20; apply Hb |]. split; [apply H20; apply Hb |].
  apply H16; apply Hb.
Qed.

Lemma read_raw_data_range_witness :
  let '(temp_raw, press_raw, hum_raw) :=
    _read_raw_data [255; 255; 255; 0; 0; 0; 255; 255] in
  0 <= temp_raw < 2 ^ 20 /\ 0 <= press_raw < 2 ^ 20 /\
  0 <= hum_raw < 2 ^ 16.
Proof.
  apply (read_raw_data_range [255; 255; 255; 0; 0; 0; 255; 255]).
  intros i. do 9 (destruct i as [| i]; [simpl; lia |]).
  destruct i; simpl; lia.
Defined.

(** The sign bit of a 12-bit word. *)
Lemma sign_bit_12 (h : Z) :
  0 <= h < 4096 ->
  (Z.land h 0x800 =? 0) = (h <? 2048).
Proof.
  intros Hh.
  assert (E : (Z.land h 0x800 =? 0) = negb (Z.testbit h 11)).
  { change 0x800 with (2 ^ 11).
    destruct (Z.testbit h 11) eqn:Eb; cbn [negb].
    - apply Z.eqb_neq. intros Hz.
      assert (Ht : Z.testbit (Z.land h (2 ^ 11)) 11 = true).
      { rewrite Z.land_spec, Eb, Z.pow2_bits_true by lia. reflexivity. }
      rewrite Hz, Z.bits_0 in Ht. discriminate.
    - apply Z.eqb_eq. apply Z.bits_inj'. intros i Hi.
      rewrite Z.land_spec, Z.bits_0, Z.pow2_bits_eqb by lia.
      destruct (Z.eqb_spec 11 i) as [<- | Hne].
      + rewrite Eb. reflexivity.
      + apply Bool.andb_false_r. }
  rewrite E.
  assert (T : Z.testbit h 11 = negb (h <? 2048)).
  { rewrite Z.testbit_eqb by lia. change (2 ^ 11) with 2048.
    assert (h / 2048 = 0 \/ h / 2048 = 1) as [Q | Q].
    { assert (0 <= h / 2048 < 2); [| lia].
      split; [apply Z.div_pos; lia | apply Z.div_lt_upper_bound; lia]. }
    - rewrite Q. simpl.
      assert (h < 2048) by (apply Z.div_small_iff in Q; lia).
      symmetry. apply Bool.negb_false_iff. apply Z.ltb_lt. lia.
    - rewrite Q. simpl.
      assert (2048 <= h).
      { pose proof (Z.div_mod h 2048 ltac:(lia)).
        pose proof (Z.mod_pos_bound h 2048 ltac:(lia)). lia. }
      symmetry. apply Bool.negb_true_iff. apply Z.ltb_ge. lia. }
  rewrite T. destruct (h <? 2048); reflexivity.
Qed.

(** The ranges of the calibration words.  For bytes read from the device,
    [dig_T1] and [dig_P1] are unsigned 16-bit values, the other temperature
    and pressure words and [dig_H2] signed 16-bit values, [dig_H1] and
    [dig_H3] bytes, [dig_H4] and [dig_H5] signed 12-bit values and [dig_H6]
    a signed byte. *)
Theorem load_calibration_ranges (mem : Z -> Z) :
  (forall reg, 0 <= mem reg < 256) ->
  let c := _load_calibration mem in
  (0 <= dig_T1 c <= 65535 /\ 0 <= dig_P1 c <= 65535) /\
  (-32768 <= dig_T2 c <= 32767 /\ -32768 <= dig_T3 c <= 32767) /\
  (-32768 <= dig_P2 c <= 32767 /\ -32768 <= dig_P3 c <= 32767 /\
   -32768 <= dig_P4 c <= 32767 /\ -32768 <= dig_P5 c <= 32767 /\
   -32768 <= dig_P6 c <= 32767 /\ -32768 <= dig_P7 c <= 32767 /\
   -32768 <= dig_P8 c <= 32767 /\ -32768 <= dig_P9 c <= 32767) /\
  (0 <= dig_H1 c <= 255 /\ -32768 <= dig_H2 c <= 32767 /\
   0 <= dig_H3 c <= 255) /\
  (-2048 <= dig_H4 c <= 2047 /\ -2048 <= dig_H5 c <= 2047) /\
  -128 <= dig_H6 c <= 127 /\
  t_fine c = 0.
Proof.
  intros Hb c.
  assert (U : forall reg, 0 <= _read_uint16_le mem reg <= 65535).
  { intros reg. unfold _read_uint16_le.
    pose proof (Hb reg). pose proof (Hb (reg + 1)). lia. }
  assert (I : forall reg, -32768 <= _read_int16_le mem reg <= 32767).
  { intros reg. unfold _read_int16_le. pose proof (U reg).
    destruct (Z.ltb_spec (_read_uint16_le mem reg) 32768); lia. }
  assert (S12 : forall h, 0 <= h < 4096 ->
            -2048 <= (if Z.land h 0x800 =? 0 then h else h - 4096) <= 2047).
  { intros h Hh. rewrite (sign_bit_12 Hh).
    destruct (Z.ltb_spec h 2048); lia. }
  assert (H4 : forall e4 e5, 0 <= e4 < 256 -> 0 <= e5 < 256 ->
            0 <= Z.lor (Z.shiftl e4 4) (Z.land e5 0x0F) < 4096).
  { intros e4 e5 H4 H5. change 4096 with (2 ^ 12).
    rewrite Z.shiftl_mul_pow2 by lia. change 0x0F with (Z.ones 4).
    rewrite Z.land_ones by lia.
    pose proof (Z.mod_pos_bound e5 (2 ^ 4) ltac:(lia)).
    apply lor_below; lia. }
  assert (H5 : forall e5 e6, 0 <= e5 < 256 -> 0 <= e6 < 256 ->
            0 <= Z.lor (Z.land (Z.shiftr e5 4) 0x0F) (Z.shiftl e6 4) < 4096).
  { intros e5 e6 H5 H6. change 4096 with (2 ^ 12).
    rewrite Z.shiftl_mul_pow2 by lia. change 0x0F with (Z.ones 4).
    rewrite Z.land_ones by lia.
    pose proof (Z.mod_pos_bound (Z.shiftr e5 4) (2 ^ 4) ltac:(lia)).
    apply lor_below; lia. }
  subst c. unfold _load_calibration. cbv zeta. cbn [dig_T1 dig_T2 dig_T3
    dig_P1 dig_P2 dig_P3 dig_P4 dig_P5 dig_P6 dig_P7 dig_P8 dig_P9
    dig_H1 dig_H2 dig_H3 dig_H4 dig_H5 dig_H6 t_fine].
  repeat split; try apply U; try apply I; try apply Hb;
    try (apply S12; first [apply H4 | apply H5]; apply Hb);
    try (pose proof (Hb (REG_DIG_H1)); lia);
    try (pose proof (Hb (REG_DIG_H2 + 2)); lia);
    try (pose proof (Hb (REG_DIG_H2 + 6));
         destruct (Z.ltb_spec 127 (mem (REG_DIG_H2 + 6))); lia).
Qed.

Lemma load_calibration_ranges_witness :
  -2048 <= dig_H4 HardwareSim.sensor <= 2047 /\
  -32768 <= dig_T3 HardwareSim.sensor <= 32767.
Proof.
  assert (Hb : forall reg, 0 <= HardwareSim.registers reg < 256).
  { intros reg. unfold HardwareSim.registers.
    repeat match goal with
           | |- context [match ?x with _ => _ end] => destruct x
           end; lia. }
  pose proof (load_calibration_ranges HardwareSim.registers Hb) as R.
  cbv zeta in R. fold HardwareSim.sensor in R.
  split; apply R.
Defined.

End Registers.

(* ================================================================== *)
(** * hardwaresim.py: the simulated bus, and the driver's register access *)

Module SimBus.

Local Open Scope Z_scope.

(** [SimulatedI2C]: the addresses that answer, and the register dictionary
    read with [registers.get(reg, 0)]. *)
Record SimulatedI2C : Type := {
  devices : list Z;
  registers : Z -> Z
}.

(** [SimulatedI2C.__init__] *)
Definition __init__ : SimulatedI2C :=
  {| devices := [0x76]; registers := HardwareSim.registers |}.

Definition answers (bus : SimulatedI2C) (addr : Z) : bool :=
  existsb (Z.eqb addr) (devices bus).

(** [self.registers[k] = v] *)
Definition store (regs : Z -> Z) (k v : Z) : Z -> Z :=
  fun r => if r =? k then v else regs r.

(** What is written: a [bytes] or [bytearray], or something else. *)
Inductive Payload : Type :=
| Bytes (data : list Z)
| Other (data : Z).

(** [for i, byte in enumerate(data): self.registers[reg + i] = byte] *)
Fixpoint store_all (regs : Z -> Z) (reg : Z) (data : list Z) : Z -> Z :=
  match data with
  | [] => regs
  | byte :: rest => store_all (store regs reg byte) (reg + 1) rest
  end.

(** [readfrom_mem]; [None] is [OSError].  [noise] are the three numbers
    [random.randint] gives for temperature, pressure and humidity. *)
Definition readfrom_mem (bus : SimulatedI2C) (noise : Z * Z * Z)
    (addr reg : Z) (length : nat) : option (list Z) :=
  if negb (answers bus addr) then None
  else if reg =? 0xF7 then
    let '(nt, np, nh) := noise in
    let temp_raw := 519888 + nt in
    let press_raw := 329728 + np in
    let hum_raw := 28672 + nh in
    Some (HardwareSim.burst press_raw temp_raw hum_raw)
  else
    Some (map (fun i => registers bus (reg + Z.of_nat i)) (seq 0 length)).

(** [writeto_mem]; [None] is [OSError]. *)
Definition writeto_mem (bus : SimulatedI2C) (addr reg : Z) (data : Payload)
  : option SimulatedI2C :=
  if negb (answers bus addr) then None
  else
    match data with
    | Bytes l =>
        Some {| devices := devices bus;
                registers := store_all (registers bus) reg l |}
    | Other v =>
        Some {| devices := devices bus;
                registers := store (registers bus) reg v |}
    end.

(** ** The driver on this bus *)

Definition REG_SOFTRESET : Z := 0xE0.
Definition REG_CONTROL_HUM : Z := 0xF2.
Definition REG_CONTROL : Z := 0xF4.
Definition REG_CONFIG : Z := 0xF5.

(** How a driver method ends. *)
Inductive Outcome : Type :=
| Done
| RaisedOSError
| RaisedValueError.

(** [_write_byte]: [bytes([value])] raises [ValueError] for a value that is
    not a byte; then the bus may raise. *)
Definition _write_byte (addr : Z) (bus : SimulatedI2C) (reg value : Z)
  : Outcome * SimulatedI2C :=
  if (0 <=? value) && (value <? 256) then
    match writeto_mem bus addr reg (Bytes [value]) with
    | Some bus' => (Done, bus')
    | None => (RaisedOSError, bus)
    end
  else (RaisedValueError, bus).

(** [ctrl_meas = (temp_os << 5) | (press_os << 2) | mode] *)
Definition ctrl_meas (mode temp_os press_os : Z) : Z :=
  Z.lor (Z.lor (Z.shiftl temp_os 5) (Z.shiftl press_os 2)) mode.

(** [set_mode]: the three writes in their order, stopping at the first that
    raises. *)
Definition set_mode (addr : Z) (bus : SimulatedI2C)
    (mode temp_os hum_os press_os : Z) : Outcome * SimulatedI2C :=
  match _write_byte addr bus REG_CONTROL_HUM hum_os with
  | (Done, bus) =>
      match _write_byte addr bus REG_CONTROL
              (ctrl_meas mode temp_os press_os) with
      | (Done, bus) => _write_byte addr bus REG_CONFIG 0xA0
      | failed => failed
      end
  | failed => failed
  end.

(** [soft_reset]: the reset command, then the calibration is read again;
    [t_fine] is not assigned. *)
Definition soft_reset (addr : Z) (bus : SimulatedI2C) (self : BME280.BME280)
  : Outcome * SimulatedI2C * BME280.BME280 :=
  match _write_byte addr bus REG_SOFTRESET 0xB6 with
  | (Done, bus) =>
      if answers bus addr then
        (Done, bus,
         BME280.set_t_fine (BME280._load_calibration (registers bus))
           (BME280.t_fine self))
      else (RaisedOSError, bus, self)
  | (failed, bus) => (failed, bus, self)
  end.

(** ** Reading back what was written *)

Lemma store_all_outside (data : list Z) :
  forall regs reg r,
  r < reg \/ reg + Z.of_nat (length data) <= r ->
  store_all regs reg data r = regs r.
Proof.
  induction data as [| b rest IH]; intros regs reg r Hr; [reflexivity |].
  simpl store_all. rewrite IH by (simpl length in Hr; lia).
  unfold store. destruct (Z.eqb_spec r reg); [simpl length in Hr; lia |].
  reflexivity.
Qed.

Lemma store_all_inside (data : list Z) :
  forall regs reg (i : nat),
  (i < length data)%nat ->
  store_all regs reg data (reg + Z.of_nat i) = nth i data 0.
Proof.
  induction data as [| b rest IH]; intros regs reg i Hi;
    [simpl in Hi; lia |].
  simpl store_all. destruct i as [| i].
  - rewrite store_all_outside by lia. unfold store.
    rewrite Z.add_0_r, Z.eqb_refl. reflexivity.
  - replace (reg + Z.of_nat (S i)) with (reg + 1 + Z.of_nat i) by lia.
    rewrite IH by (simpl in Hi; lia). reflexivity.
Qed.

Lemma map_seq_nth (data : list Z) (f : nat -> Z) :
  (forall i, (i < length data)%nat -> f i = nth i data 0) ->
  map f (seq 0 (length data)) = data.
Proof.
  intros Hf. apply nth_ext with (d := 0) (d' := 0).
  - rewrite length_map, length_seq. reflexivity.
  - intros n Hn. rewrite length_map, length_seq in Hn.
    rewrite (nth_indep _ 0 (f 0%nat)) by (rewrite length_map, length_seq; lia).
    rewrite map_nth, seq_nth by lia. apply Hf. lia.
Qed.

(** Bytes written to a device that answers are read back at the same
    register, the burst register 0xF7 apart, and the registers outside the
    written range keep their values.  A device that does not answer raises
    on both. *)
Theorem write_then_read (bus : SimulatedI2C) (noise : Z * Z * Z)
    (addr reg : Z) (data : list Z) :
  (answers bus addr = true ->
   exists bus',
     writeto_mem bus addr reg (Bytes data) = Some bus' /\
     devices bus' = devices bus /\
     (reg <> 0xF7 ->
      readfrom_mem bus' noise addr reg (length data) = Some data) /\
     (forall r, r < reg \/ reg + Z.of_nat (length data) <= r ->
        registers bus' r = registers bus r)) /\
  (answers bus addr = false ->
   writeto_mem bus addr reg (Bytes data) = None /\
   readfrom_mem bus noise addr reg (length data) = None).
Proof.
  split; intros Ha.
  - unfold writeto_mem. rewrite Ha. simpl negb. cbv iota.
    eexists. split; [reflexivity |]. split; [reflexivity |]. split.
    + intros Hreg. unfold readfrom_mem, answers. simpl devices.
      fold (answers bus addr). rewrite Ha. simpl negb. cbv iota.
      destruct (Z.eqb_spec reg 0xF7) as [E | _]; [contradiction |].
      f_equal. simpl registers. apply map_seq_nth.
      intros i Hi. apply store_all_inside. exact Hi.
    + intros r Hr. simpl registers. apply store_all_outside. exact Hr.
  - unfold writeto_mem, readfrom_mem. rewrite Ha. split; reflexivity.
Qed.

Lemma write_then_read_witness :
  exists bus',
    writeto_mem __init__ 0x76 0xF2 (Bytes [1; 2; 87]) = Some bus' /\
    readfrom_mem bus' (0, 0, 0) 0x76 0xF2 3 = Some [1; 2; 87] /\
    registers bus' 0xD0 = 0x60.
Proof.
  destruct (write_then_read __init__ (0, 0, 0) 0x76 0xF2 [1; 2; 87])
    as [Hw _].
  destruct (Hw eq_refl) as (bus' & E & _ & Hr & Ho).
  exists bus'. split; [exact E |]. split.
  - apply Hr. discriminate.
  - rewrite Ho by (simpl; lia). reflexivity.
Defined.

(** A read at the burst register 0xF7 returns the eight bytes of the
    simulated sample whatever the registers hold and whatever length is
    asked for; with the offsets [random.randint] can give, the driver reads
    them back as the central values plus the offsets. *)
Theorem burst_read (bus : SimulatedI2C) (nt np nh : Z) (addr : Z)
    (length : nat) :
  answers bus addr = true ->
  -1000 <= nt <= 1000 -> -500 <= np <= 500 -> -500 <= nh <= 500 ->
  exists data,
    readfrom_mem bus (nt, np, nh) addr 0xF7 length = Some data /\
    List.length data = 8%nat /\
    (forall bus' reg payload,
       writeto_mem bus addr reg payload = Some bus' ->
       readfrom_mem bus' (nt, np, nh) addr 0xF7 length = Some data) /\
    BME280._read_raw_data data = (519888 + nt, 329728 + np, 28672 + nh).
Proof.
  intros Ha Ht Hp Hh. unfold readfrom_mem. rewrite Ha. simpl negb.
  cbv iota. change (0xF7 =? 0xF7) with true. cbv iota zeta.
  eexists. split; [reflexivity |]. split; [reflexivity |]. split.
  - intros bus' reg payload Hw.
    assert (Ha' : answers bus' addr = true).
    { unfold writeto_mem in Hw. rewrite Ha in Hw. simpl in Hw.
      destruct payload; injection Hw as <-; exact Ha. }
    rewrite Ha'. reflexivity.
  - assert (H1 : 0 <= 329728 + np < 2 ^ 20) by lia.
    assert (H2 : 0 <= 519888 + nt < 2 ^ 20) by lia.
    assert (H3 : 0 <= 28672 + nh < 2 ^ 16) by lia.
    change (BME280._read_raw_data
              (HardwareSim.burst (329728 + np) (519888 + nt) (28672 + nh))
            = (519888 + nt, 329728 + np, 28672 + nh)).
    unfold BME280._read_raw_data, HardwareSim.burst. cbn [nth].
    rewrite (Registers.pack20 H1), (Registers.pack20 H2),
      (Registers.pack16 H3).
    reflexivity.
Qed.

Lemma burst_read_witness :
  exists data,
    readfrom_mem __init__ (1000, -500, 500) 0x76 0xF7 2 = Some data /\
    BME280._read_raw_data data = (520888, 329228, 29172).
Proof.
  destruct (@burst_read __init__ 1000 (-500) 500 0x76 2 eq_refl)
    as (data & E & _ & _ & R); try lia.
  exists data. split; [exact E | exact R].
Defined.

(** ** The control register *)

(** Decides an equation between bits by cases on the bits left in it. *)
Ltac bits_cases :=
  repeat match goal with
         | |- context [Z.testbit ?x ?i] => destruct (Z.testbit x i)
         end;
  reflexivity.

(** The fields of [ctrl_meas] are recovered from it, and it is a byte: for
    a mode below 4 and oversampling settings below 8. *)
Lemma ctrl_meas_fields (mode temp_os press_os : Z) :
  0 <= mode < 4 -> 0 <= temp_os < 8 -> 0 <= press_os < 8 ->
  0 <= ctrl_meas mode temp_os press_os < 256 /\
  Z.shiftr (ctrl_meas mode temp_os press_os) 5 = temp_os /\
  Z.land (Z.shiftr (ctrl_meas mode temp_os press_os) 2) 7 = press_os /\
  Z.land (ctrl_meas mode temp_os press_os) 3 = mode.
Proof.
  intros Hm Ht Hp. unfold ctrl_meas.
  assert (Bm : forall i, 2 <= i -> Z.testbit mode i = false)
    by (intros i Hi; apply (@Registers.testbit_above mode 2 i); simpl; lia).
  assert (Bt : forall i, 3 <= i -> Z.testbit temp_os i = false)
    by (intros i Hi; apply (@Registers.testbit_above temp_os 3 i); simpl; lia).
  assert (Bp : forall i, 3 <= i -> Z.testbit press_os i = false)
    by (intros i Hi; apply (@Registers.testbit_above press_os 3 i); simpl; lia).
  split; [| split; [| split]].
  - change 256 with (2 ^ 8). rewrite !Z.shiftl_mul_pow2 by lia.
    repeat apply Registers.lor_below; simpl; lia.
  - Z.bitblast; rewrite ?Bm, ?Bp, ?Z.testbit_neg_r by lia; bits_cases.
  - change 7 with (Z.ones 3). Z.bitblast;
      rewrite ?Bm, ?Bp, ?Bt, ?Z.testbit_neg_r by lia; bits_cases.
  - change 3 with (Z.ones 2). Z.bitblast;
      rewrite ?Bm, ?Bp, ?Bt, ?Z.testbit_neg_r by lia; bits_cases.
Qed.

Lemma lor_at_least (a b n : Z) :
  0 <= n -> 0 <= a -> 0 <= b -> 2 ^ n <= a -> 2 ^ n <= Z.lor a b.
Proof.
  intros Hn Ha Hb Hle.
  assert (0 < 2 ^ n) by (apply Z.pow_pos_nonneg; lia).
  assert (Hl : n <= Z.log2 a) by (apply Z.log2_le_pow2; lia).
  assert (Hnn : 0 <= Z.lor a b) by (apply Z.lor_nonneg; lia).
  assert (Hlor : n <= Z.log2 (Z.lor a b)) by (rewrite Z.log2_lor; lia).
  destruct (Z.eq_dec (Z.lor a b) 0) as [E | Hne].
  - rewrite E in Hlor. simpl in Hlor.
    assert (n = 0) by lia. subst n. simpl in Hle.
    assert (Z.log2 a = 0 \/ 0 < Z.log2 a) as [L | L] by lia.
    + assert (Z.testbit (Z.lor a b) (Z.log2 a) = true).
      { rewrite Z.lor_spec, Z.bit_log2 by lia. reflexivity. }
      rewrite E, Z.bits_0 in *. discriminate.
    + assert (Z.testbit (Z.lor a b) (Z.log2 a) = true).
      { rewrite Z.lor_spec, Z.bit_log2 by lia. reflexivity. }
      rewrite E, Z.bits_0 in *. discriminate.
  - apply Z.log2_le_pow2; lia.
Qed.

(** One byte written to a device that answers. *)
Lemma write_byte_done (addr : Z) (bus : SimulatedI2C) (reg value : Z) :
  answers bus addr = true -> 0 <= value < 256 ->
  exists bus',
    _write_byte addr bus reg value = (Done, bus') /\
    answers bus' addr = true /\
    registers bus' reg = value /\
    (forall r, r <> reg -> registers bus' r = registers bus r).
Proof.
  intros Ha Hv. unfold _write_byte, writeto_mem.
  replace ((0 <=? value) && (value <? 256))%bool with true
    by (symmetry; apply andb_true_intro; split;
        [apply Z.leb_le | apply Z.ltb_lt]; lia).
  rewrite Ha. simpl negb. cbv iota.
  eexists. split; [reflexivity |]. split; [exact Ha |]. split.
  - simpl. unfold store. rewrite Z.eqb_refl. reflexivity.
  - intros r Hr. simpl. unfold store.
    destruct (Z.eqb_spec r reg); [contradiction | reflexivity].
Qed.

(** The calibration depends on the calibration registers alone. *)
Lemma load_calibration_ext (mem mem' : Z -> Z) :
  (forall r, 0x88 <= r <= 0x9F \/ r = 0xA1 \/ 0xE1 <= r <= 0xE7 ->
     mem' r = mem r) ->
  BME280._load_calibration mem' = BME280._load_calibration mem.
Proof.
  intros E. unfold BME280._load_calibration, BME280._read_int16_le,
    BME280._read_uint16_le, BME280.REG_DIG_T1, BME280.REG_DIG_H1,
    BME280.REG_DIG_H2.
  rewrite !E by lia. reflexivity.
Qed.

(** [set_mode] with a mode below 4, oversampling settings below 8 and a
    device that answers: the three registers hold the humidity setting, the
    packed control byte and 0xA0, the fields of the control byte are the
    settings given, every other register is as before, and so is the
    calibration read from them. *)
Theorem set_mode_registers (addr : Z) (bus : SimulatedI2C)
    (mode temp_os hum_os press_os : Z) :
  answers bus addr = true ->
  0 <= mode < 4 -> 0 <= temp_os < 8 -> 0 <= hum_os < 8 ->
  0 <= press_os < 8 ->
  exists bus',
    set_mode addr bus mode temp_os hum_os press_os = (Done, bus') /\
    registers bus' REG_CONTROL_HUM = hum_os /\
    registers bus' REG_CONFIG = 0xA0 /\
    Z.shiftr (registers bus' REG_CONTROL) 5 = temp_os /\
    Z.land (Z.shiftr (registers bus' REG_CONTROL) 2) 7 = press_os /\
    Z.land (registers bus' REG_CONTROL) 3 = mode /\
    (forall r, r <> REG_CONTROL_HUM -> r <> REG_CONTROL -> r <> REG_CONFIG ->
       registers bus' r = registers bus r) /\
    BME280._load_calibration (registers bus')
    = BME280._load_calibration (registers bus).
Proof.
  intros Ha Hm Ht Hh Hp.
  destruct (ctrl_meas_fields Hm Ht Hp) as (Cb & Ct & Cp & Cm).
  unfold set_mode.
  destruct (write_byte_done addr bus REG_CONTROL_HUM Ha (value := hum_os))
    as (b1 & -> & A1 & V1 & O1); [lia |].
  destruct (write_byte_done addr b1 REG_CONTROL A1 Cb)
    as (b2 & -> & A2 & V2 & O2).
  destruct (write_byte_done addr b2 REG_CONFIG A2 (value := 0xA0))
    as (b3 & -> & A3 & V3 & O3); [lia |].
  assert (Oall : forall r, r <> REG_CONTROL_HUM -> r <> REG_CONTROL ->
                   r <> REG_CONFIG -> registers b3 r = registers bus r).
  { intros r R1 R2 R3. rewrite O3, O2, O1 by assumption. reflexivity. }
  assert (V2' : registers b3 REG_CONTROL = ctrl_meas mode temp_os press_os).
  { rewrite O3 by discriminate. exact V2. }
  exists b3. split; [reflexivity |].
  split; [rewrite O3, O2 by discriminate; exact V1 |].
  split; [exact V3 |].
  rewrite V2'. repeat split; try assumption.
  apply load_calibration_ext. intros r Hr. apply Oall;
    unfold REG_CONTROL_HUM, REG_CONTROL, REG_CONFIG; lia.
Qed.

Lemma set_mode_registers_witness :
  exists bus',
    set_mode 0x76 __init__ 3 2 1 5 = (Done, bus') /\
    registers bus' REG_CONTROL = 0x57 /\
    BME280._load_calibration (registers bus') = HardwareSim.sensor.
Proof.
  destruct (@set_mode_registers 0x76 __init__ 3 2 1 5 eq_refl)
    as (bus' & E & _ & _ & _ & _ & _ & _ & C); try lia.
  exists bus'. split; [exact E |]. split; [| exact C].
  revert E. vm_compute. intros E. injection E as <-. reflexivity.
Defined.

(** [set_mode] with a temperature oversampling setting of 8 or more: the
    control byte does not fit a byte, so the second write raises
    [ValueError], after the humidity register has been written and before
    the other two are. *)
Theorem set_mode_out_of_range (addr : Z) (bus : SimulatedI2C)
    (mode temp_os hum_os press_os : Z) :
  answers bus addr = true ->
  0 <= mode -> 8 <= temp_os -> 0 <= hum_os < 256 -> 0 <= press_os ->
  exists bus',
    set_mode addr bus mode temp_os hum_os press_os
    = (RaisedValueError, bus') /\
    registers bus' REG_CONTROL_HUM = hum_os /\
    (forall r, r <> REG_CONTROL_HUM -> registers bus' r = registers bus r).
Proof.
  intros Ha Hm Ht Hh Hp. unfold set_mode.
  destruct (write_byte_done addr bus REG_CONTROL_HUM Ha Hh)
    as (b1 & -> & A1 & V1 & O1).
  assert (Hc : 256 <= ctrl_meas mode temp_os press_os).
  { unfold ctrl_meas. change 256 with (2 ^ 8).
    assert (0 <= Z.shiftl temp_os 5) by (apply Z.shiftl_nonneg; lia).
    assert (0 <= Z.shiftl press_os 2) by (apply Z.shiftl_nonneg; lia).
    apply lor_at_least; try lia; [apply Z.lor_nonneg; lia |].
    apply lor_at_least; try lia.
    rewrite Z.shiftl_mul_pow2 by lia. simpl. lia. }
  unfold _write_byte at 1.
  replace (ctrl_meas mode temp_os press_os <? 256) with false
    by (symmetry; apply Z.ltb_ge; exact Hc).
  rewrite Bool.andb_false_r.
  exists b1. split; [reflexivity |]. split; [exact V1 | exact O1].
Qed.

Lemma set_mode_out_of_range_witness :
  exists bus',
    set_mode 0x76 __init__ 3 8 1 5 = (RaisedValueError, bus') /\
    registers bus' REG_CONTROL_HUM = 1 /\
    registers bus' REG_CONTROL = 0.
Proof.
  destruct (@set_mode_out_of_range 0x76 __init__ 3 8 1 5 eq_refl)
    as (bus' & E & V & O); try lia.
  exists bus'. split; [exact E |]. split; [exact V |].
  rewrite O by discriminate. reflexivity.
Defined.

(** [soft_reset] on a device that answers leaves a driver object that was
    loaded from this bus as it was: the calibration read again is the same,
    and [t_fine] keeps the value of the last reading. *)
Theorem soft_reset_keeps_object (addr : Z) (bus : SimulatedI2C) (t : Z) :
  answers bus addr = true ->
  let self := BME280.set_t_fine (BME280._load_calibration (registers bus)) t in
  exists bus',
    soft_reset addr bus self = (Done, bus', self) /\
    registers bus' REG_SOFTRESET = 0xB6 /\
    BME280.t_fine self = t.
Proof.
  intros Ha self. unfold soft_reset.
  destruct (write_byte_done addr bus REG_SOFTRESET Ha (value := 0xB6))
    as (b1 & -> & A1 & V1 & O1); [lia |].
  rewrite A1. exists b1. split; [| split; [exact V1 | reflexivity]].
  f_equal. subst self.
  rewrite (@load_calibration_ext (registers bus) (registers b1)).
  - reflexivity.
  - intros r Hr. apply O1. unfold REG_SOFTRESET. lia.
Qed.

Lemma soft_reset_keeps_object_witness :
  exists bus',
    soft_reset 0x76 __init__ (BME280.set_t_fine HardwareSim.sensor 128422)
    = (Done, bus', BME280.set_t_fine HardwareSim.sensor 128422).
Proof.
  destruct (@soft_reset_keeps_object 0x76 __init__ 128422 eq_refl)
    as (bus' & E & _).
  exists bus'. exact E.
Defined.

End SimBus.

(* ================================================================== *)
(** * More on the readings *)

Module Readings.

Import BME280 ExactFacts.

(** A reading does not depend on the [t_fine] an earlier reading left:
    pressure and humidity are compensated with the [t_fine] of the
    temperature read in the same burst, and that is the one kept. *)
Theorem read_compensated_data_ignores_old_t_fine {F : Type} `{PyFloat F}
    (self : BME280) (data : list Z) (t0 : Z) :
  read_compensated_data (set_t_fine self t0) data
  = read_compensated_data self data /\
  (forall temperature pressure humidity self',
     read_compensated_data self data
     = Some (temperature, pressure, humidity, self') ->
     temperature = fdiv (of_int (t_fine self')) (of_int 5120) /\
     _compensate_pressure self' (snd (fst (_read_raw_data data)))
     = Some pressure /\
     _compensate_humidity self' (snd (_read_raw_data data)) = humidity).
Proof.
  unfold read_compensated_data.
  destruct (_read_raw_data data) as [[temp_raw press_raw] hum_raw].
  unfold _compensate_temperature. cbn [dig_T1 dig_T2 dig_T3 set_t_fine].
  destruct (to_int _) as [t |]; [| split; [reflexivity | discriminate]].
  change (set_t_fine (set_t_fine self t0) t) with (set_t_fine self t).
  split; [reflexivity |].
  intros temperature pressure humidity self' E. simpl fst. simpl snd.
  destruct (_compensate_pressure (set_t_fine self t) press_raw) as [p |]
    eqn:Ep; [| discriminate].
  injection E as <- <- <- <-. rewrite Ep. repeat split.
Qed.

Local Open Scope Q_scope.

Ltac exact_ops :=
  cbv [fadd fsub fmul fdiv feqb fltb fleb of_int dec to_int
       Exact.exact_float BME280.promote sqr checked_div].



End Readings.

(* ================================================================== *)
(** * The moving average of the battery voltage *)

Module Window.

Import St Power ListFacts.

Section Any.
Context {F : Type} `{PyFloat F}.

(** The voltage [read_battery_voltage] makes of a raw value. *)
Definition sample (s : PowerManager (F:=F)) (raw : Z) : F :=
  fmul (fmul (fmul (fdiv (of_int raw) (of_int 65535)) (vref s))
             (voltage_divider_ratio s))
       (calibration_factor s).

(** The mean as [read_battery_voltage] takes it. *)
Definition mean (l : list F) : F := fdiv (sum l) (of_int (len l)).

(** The settings a reading uses, other than the window. *)
Definition same_settings (s s' : PowerManager (F:=F)) : Prop :=
  adc s' = adc s /\ vref s' = vref s /\
  voltage_divider_ratio s' = voltage_divider_ratio s /\
  calibration_factor s' = calibration_factor s /\
  max_samples s' = max_samples s.

(** One averaged reading: the sample goes to the end of the window, the
    oldest one leaves when the window is over its size, and the mean of the
    window is returned and kept in [current_voltage]. *)
Lemma read_averaged (s : PowerManager (F:=F)) :
  let (v, s') := read_battery_voltage true s in
  voltage_samples s'
  = (let w := voltage_samples s ++ [sample s (adc s (adc_reads s))] in
     if (max_samples s <? length w)%nat then tl w else w) /\
  v = mean (voltage_samples s') /\
  current_voltage s' = v /\
  adc_reads s' = S (adc_reads s) /\
  same_settings s s'.
Proof.
  unfold read_battery_voltage, read_raw_adc, bind, get, modify, ret, when.
  cbn. unfold same_settings, sample, mean, Power.promote.
  match goal with |- context [if ?b then _ else _] => destruct b end;
    cbn; repeat split.
Qed.

(** One reading without the average: the window is not touched. *)
Lemma read_unaveraged (s : PowerManager (F:=F)) :
  let (v, s') := read_battery_voltage false s in
  v = sample s (adc s (adc_reads s)) /\
  voltage_samples s' = voltage_samples s /\
  current_voltage s' = v /\
  adc_reads s' = S (adc_reads s) /\
  same_settings s s'.
Proof.
  unfold read_battery_voltage, read_raw_adc, bind, get, modify, ret.
  cbn. unfold same_settings. repeat split.
Qed.

Lemma read_averaged_lastn (s : PowerManager (F:=F)) :
  (length (voltage_samples s) <= max_samples s)%nat ->
  voltage_samples (snd (read_battery_voltage true s))
  = lastn (max_samples s)
      (voltage_samples s ++ [sample s (adc s (adc_reads s))]).
Proof.
  intros Hl. pose proof (read_averaged s) as R.
  destruct (read_battery_voltage true s) as [v s'].
  simpl snd. destruct R as (-> & _). cbv zeta.
  destruct (Nat.ltb_spec (max_samples s)
              (length (voltage_samples s
                       ++ [sample s (adc s (adc_reads s))]))) as [Hlt | Hge].
  - rewrite length_app in Hlt. simpl in Hlt.
    unfold lastn. rewrite length_app. simpl length.
    replace (length (voltage_samples s) + 1 - max_samples s)%nat
      with 1%nat by lia.
    reflexivity.
  - symmetry. apply lastn_all. exact Hge.
Qed.

(** The manager after [n] averaged readings. *)
Definition after_reads (n : nat) (s : PowerManager (F:=F)) : PowerManager :=
  Nat.iter n (fun s => snd (read_battery_voltage true s)) s.

(** The window after [n] averaged readings of a new manager. *)
Lemma after_reads_invariant (adc : nat -> Z) (n : nat) :
  let s0 := __init__ (F:=F) adc in
  voltage_samples (after_reads n s0)
  = lastn 10 (map (fun i => sample s0 (adc i)) (seq 0 n)) /\
  adc_reads (after_reads n s0) = n /\
  same_settings s0 (after_reads n s0).
Proof.
  intros s0. induction n as [| n IH].
  - simpl. unfold same_settings. repeat split.
  - destruct IH as (IHw & IHr & IHs).
    change (after_reads (S n) s0)
      with (snd (read_battery_voltage true (after_reads n s0))).
    set (s := after_reads n s0) in *.
    assert (Hlen : (length (voltage_samples s) <= max_samples s)%nat).
    { destruct IHs as (_ & _ & _ & _ & ->). rewrite IHw, lastn_length.
      change (max_samples s0) with 10%nat. lia. }
    pose proof (read_averaged_lastn s Hlen) as W.
    pose proof (read_averaged s) as R.
    destruct (read_battery_voltage true s) as [v s']. simpl snd in *.
    destruct R as (_ & _ & _ & Hr & Hs).
    destruct IHs as (Ia & Iv & Ir & Ic & Im).
    destruct Hs as (Ha & Hv & Hra & Hc & Hm).
    split; [| split].
    + rewrite W, IHw, Im. change (max_samples s0) with 10%nat.
      rewrite seq_S, map_app. simpl map. rewrite lastn_app.
      unfold sample. rewrite Ia, Iv, Ir, Ic, IHr. reflexivity.
    + rewrite Hr, IHr. reflexivity.
    + unfold same_settings. repeat split; congruence.
Qed.

(** The reading that follows them: the mean of the window it is in. *)
Lemma next_reading_mean (adc : nat -> Z) (n : nat) :
  let s0 := __init__ (F:=F) adc in
  fst (read_battery_voltage true (after_reads n s0))
  = mean (lastn 10 (map (fun i => sample s0 (adc i)) (seq 0 (S n)))).
Proof.
  intros s0. destruct (after_reads_invariant adc (S n)) as (Iw & _).
  fold s0 in Iw.
  change (after_reads (S n) s0)
    with (snd (read_battery_voltage true (after_reads n s0))) in Iw.
  pose proof (read_averaged (after_reads n s0)) as R.
  destruct (read_battery_voltage true (after_reads n s0)) as [v s'].
  simpl fst. simpl snd in Iw. destruct R as (_ & -> & _).
  rewrite Iw. reflexivity.
Qed.

(** The moving average.  After [n] averaged readings of a new manager the
    window holds the samples of the last ten of them, the oldest first, and
    never more; the voltage a reading returns is the mean of the window
    that includes it. *)
Theorem moving_average (adc : nat -> Z) (n : nat) :
  let s0 := __init__ (F:=F) adc in
  let s := after_reads n s0 in
  voltage_samples s
  = lastn 10 (map (fun i => sample s0 (adc i)) (seq 0 n)) /\
  length (voltage_samples s) = Nat.min n 10 /\
  adc_reads s = n /\
  fst (read_battery_voltage true s)
  = mean (lastn 10 (map (fun i => sample s0 (adc i)) (seq 0 (S n)))).
Proof.
  intros s0 s. subst s.
  destruct (after_reads_invariant adc n) as (Iw & Ir & _). fold s0 in Iw, Ir.
  split; [exact Iw |]. split; [| split; [exact Ir |]].
  - rewrite Iw, lastn_length, length_map, length_seq. lia.
  - apply next_reading_mean.
Qed.

(** The thresholds are all [percentage_at] and [state_at] use of [self]. *)
Lemma percentage_at_frame (s s' : PowerManager (F:=F)) (v : F) :
  Battery.frame s s' -> percentage_at s' v = percentage_at s v.
Proof.
  intros [_ Hc Hf _ _]. unfold percentage_at. rewrite Hc, Hf. reflexivity.
Qed.

(** What [get_battery_status] returns and keeps, by its two readings. *)
Lemma get_battery_status_readings (s : PowerManager (F:=F)) :
  let (v1, s1) := read_battery_voltage true s in
  let (v2, s2) := read_battery_voltage true s1 in
  let (status, s') := get_battery_status s in
  voltage status = v1 /\
  state status = fst (fst (state_at s v1)) /\
  is_low status = snd (fst (state_at s v1)) /\
  is_critical status = snd (state_at s v1) /\
  percentage status = percentage_at s v2 /\
  current_voltage s' = v2 /\
  battery_percentage s' = percentage_at s v2 /\
  voltage_samples s' = voltage_samples s2 /\
  adc_reads s' = S (S (adc_reads s)).
Proof.
  pose proof (Battery.stable_read_battery_voltage true s) as Fr1.
  pose proof (read_averaged s) as R1.
  unfold get_battery_status, get_battery_percentage, bind.
  destruct (read_battery_voltage true s) as [v1 s1]. simpl in Fr1.
  pose proof (Battery.stable_read_battery_voltage true s1) as Fr2.
  pose proof (read_averaged s1) as R2.
  destruct (read_battery_voltage true s1) as [v2 s2]. simpl in Fr2.
  destruct R1 as (_ & _ & _ & Hr1 & _).
  destruct R2 as (_ & _ & Hv2 & Hr2 & _).
  pose proof (Battery.frame_trans Fr1 Fr2) as Fr.
  unfold get, modify, ret.
  rewrite (percentage_at_frame v2 Fr).
  assert (E : state_at (set_battery_percentage (percentage_at s v2) s2) v1
              = state_at s v1).
  { destruct Fr as [Hl Hc Hf _ _]. unfold state_at. cbn [low_voltage
      critical_voltage full_voltage set_battery_percentage].
    rewrite Hl, Hc, Hf. reflexivity. }
  rewrite E. destruct (state_at s v1) as [[st l] c]. cbn.
  repeat split; congruence.
Qed.


End Any.

(** ** In exact arithmetic *)

Section ExactWindow.

Local Open Scope Q_scope.

Ltac exact_ops :=
  cbv [fadd fsub fmul fdiv feqb fltb fleb of_int dec to_int
       Exact.exact_float Power.promote].

Lemma sum_shift (l : list Q) (a : Q) :
  fold_left (fun acc x => acc + x) l a
  == a + fold_left (fun acc x => acc + x) l 0.
Proof.
  revert a. induction l as [| x l IH]; intros a; simpl.
  - lra.
  - rewrite (IH (a + x)), (IH (0 + x)). lra.
Qed.

Lemma sum_cons (x : Q) (l : list Q) : sum (x :: l) == x + sum l.
Proof.
  unfold sum. exact_ops. simpl. rewrite sum_shift.
  change (inject_Z 0) with 0. lra.
Qed.

Lemma len_cons (x : Q) (l : list Q) :
  inject_Z (len (x :: l)) == 1 + inject_Z (len l).
Proof.
  unfold len. simpl length. rewrite Nat2Z.inj_succ.
  unfold Z.succ. rewrite inject_Z_plus. change (inject_Z 1) with 1. lra.
Qed.

Lemma sum_between (lo hi : Q) (l : list Q) :
  Forall (fun x => lo <= x <= hi) l ->
  lo * inject_Z (len l) <= sum l /\ sum l <= hi * inject_Z (len l).
Proof.
  induction 1 as [| x l [Hx1 Hx2] _ [IH1 IH2]].
  - unfold sum, len. exact_ops. simpl. change (inject_Z 0) with 0. lra.
  - rewrite sum_cons, len_cons. lra.
Qed.

(** The mean of a window that is not empty lies between its bounds. *)
Lemma mean_between (lo hi : Q) (l : list Q) :
  l <> [] -> Forall (fun x => lo <= x <= hi) l ->
  lo <= mean l /\ mean l <= hi.
Proof.
  intros Hne Hall. destruct (sum_between Hall) as [H1 H2].
  assert (Hlen : 0 < inject_Z (len l)).
  { destruct l as [| x l]; [congruence |]. unfold len.
    change 0 with (inject_Z 0). rewrite <- Zlt_Qlt. simpl length. lia. }
  unfold mean. exact_ops. split.
  - apply Qle_shift_div_l; assumption.
  - apply Qle_shift_div_r; assumption.
Qed.

Lemma Forall_lastn {A} (P : A -> Prop) (n : nat) (l : list A) :
  Forall P l -> Forall P (lastn n l).
Proof.
  unfold lastn. generalize (length l - n)%nat as k. intros k. revert l.
  induction k as [| k IH]; intros l Hl; [exact Hl |].
  destruct Hl as [| x l _ Hl]; [constructor | apply IH, Hl].
Qed.

(** The voltage of a raw value, for a new manager: it grows with the raw
    value. *)
Lemma sample_init (adc : nat -> Z) (raw : Z) :
  sample (__init__ (F:=Q) adc) raw == inject_Z raw * (66 # 655350).
Proof.
  unfold sample. cbn [vref voltage_divider_ratio calibration_factor __init__].
  unfold Config.VREF, Config.BATTERY_VOLTAGE_DIVIDER_RATIO. exact_ops.
  unfold Qdiv. change (/ inject_Z 65535) with (1 # 65535).
  change (inject_Z 2) with 2. change (inject_Z 1) with 1.
  setoid_replace (66 # 655350) with ((1 # 65535) * (33 # 10) * 2 * 1)
    by reflexivity.
  ring.
Qed.

(** The bounds of the raw values carry over to the samples in the
    window. *)
Lemma window_between (adc : nat -> Z) (a b : Z) (n : nat) :
  (forall i, (a <= adc i <= b)%Z) ->
  Forall (fun x => inject_Z a * (66 # 655350) <= x
                   /\ x <= inject_Z b * (66 # 655350))
    (lastn 10 (map (fun i => sample (__init__ (F:=Q) adc) (adc i))
                 (seq 0 n))).
Proof.
  intros Hadc. apply Forall_lastn, Forall_forall. intros x Hx.
  apply in_map_iff in Hx. destruct Hx as (i & <- & _).
  rewrite sample_init. specialize (Hadc i).
  assert (inject_Z a <= inject_Z (adc i)) by (rewrite <- Zle_Qle; lia).
  assert (inject_Z (adc i) <= inject_Z b) by (rewrite <- Zle_Qle; lia).
  lra.
Qed.

Lemma window_not_empty (adc : nat -> Z) (n : nat) :
  lastn 10 (map (fun i => sample (__init__ (F:=Q) adc) (adc i))
              (seq 0 (S n))) <> [].
Proof.
  intros E. apply (f_equal (@length Q)) in E.
  rewrite lastn_length, length_map, length_seq in E. simpl in E. lia.
Qed.






(** ** [calibrate] *)



(** What [calibrate] does, by the sign of the voltage it measures. *)
Lemma calibrate_cases (s : PowerManager (F:=Q)) (actual : Q) :
  let m := sample s (adc s (adc_reads s)) in
  let s' := snd (calibrate actual s) in
  (if Qle_bool m 0
   then fst (calibrate actual s) = None /\
        calibration_factor s' = calibration_factor s
   else fst (calibrate actual s) = Some (actual / m) /\
        calibration_factor s' = actual / m) /\
  adc s' = adc s /\ adc_reads s' = S (adc_reads s) /\
  vref s' = vref s /\ voltage_divider_ratio s' = voltage_divider_ratio s /\
  voltage_samples s' = voltage_samples s.
Proof.
  intros m s'. subst m s'.
  pose proof (read_unaveraged s) as R.
  unfold calibrate, bind, get, modify, ret.
  destruct (read_battery_voltage false s) as [m s1].
  destruct R as (<- & Hw & _ & Hreads & Ha & Hv1 & Hr1 & Hc1 & _).
  exact_ops. change (inject_Z 0) with 0.
  destruct (Qle_bool m 0); cbn; repeat split; try assumption.
Qed.





End ExactWindow.

End Window.

(* ================================================================== *)
(** * The battery monitor in binary64 *)

Module BinaryBattery.

Import Reals Rounding Magnitude Interval St Power Battery Window ListFacts.
Local Open Scope R_scope.

(** ** The thresholds of config.py, as floats *)

Definition crit : float := Config.BATTERY_CRITICAL_VOLTAGE.
Definition full : float := Config.BATTERY_FULL_VOLTAGE.
Definition hundred : float := Binary64.of_Z 100.
Definition zero : float := Binary64.of_Z 0.

Lemma small_lt (x : R) : Rabs x <= 128 -> Rabs x < b2 1023.
Proof.
  intros H. eapply Rle_lt_trans; [exact H |].
  replace 128 with (b2 7) by (rewrite b2_IZR by lia; reflexivity).
  apply b2_lt. lia.
Qed.

Lemma leb_false_finite (x y : float) :
  finite x -> finite y -> PrimFloat.leb x y = false -> B2R y < B2R x.
Proof.
  intros Fx Fy H. apply Rnot_le_lt. intros L.
  apply (@leb_finite x y Fx Fy) in L. congruence.
Qed.

Lemma crit_value : finite crit /\ B2R crit = 3.
Proof. apply (@of_Z_exact 3). reflexivity. Qed.

Lemma hundred_value : finite hundred /\ B2R hundred = 100.
Proof. apply (@of_Z_exact 100). reflexivity. Qed.

Lemma zero_value : finite zero /\ B2R zero = 0.
Proof. apply (@of_Z_exact 0). reflexivity. Qed.

Lemma full_value : finite full /\ 4 < B2R full < 5.
Proof.
  assert (F : finite full) by (unfold finite; vm_compute; reflexivity).
  split; [exact F |].
  destruct (@of_Z_exact 4 ltac:(reflexivity)) as [F4 E4].
  destruct (@of_Z_exact 5 ltac:(reflexivity)) as [F5 E5].
  rewrite <- E4, <- E5.
  split; apply ltb_finite; try assumption; vm_compute; reflexivity.
Qed.

Lemma Rnds_one : Rnds 1 1.
Proof. rewrite <- b2_0. apply Rnds_b2. lia. Qed.

(** The voltage range [full - crit], as the code rounds it. *)
Lemma range_value :
  finite (full - crit)%float /\ 1 <= B2R (full - crit)%float /\
  Rnds (B2R full - B2R crit) (B2R (full - crit)%float).
Proof.
  destruct crit_value as [Fc Ec]. destruct full_value as [Ff Bf].
  destruct (@sub_finite full crit Ff Fc) as [Fd Rd].
  { apply small_lt. apply abs_le_iff. rewrite Ec. Lra.lra. }
  split; [exact Fd |]. split; [| exact Rd].
  apply (Rnds_mono Rnds_one Rd). rewrite Ec. Lra.lra.
Qed.

(** ** The interpolation, step by step *)

Definition interp (v : float) : float :=
  ((v - crit) / (full - crit) * hundred)%float.

(** Each of the three operations rounds a value that grows with the
    voltage; the quotient is between 0 and 1 and the product between 0 and
    100. *)
Lemma interp_steps (v : float) :
  finite v -> B2R crit <= B2R v <= B2R full ->
  exists a q : R,
    Rnds (B2R v - B2R crit) a /\ 0 <= a <= B2R (full - crit)%float /\
    Rnds (a / B2R (full - crit)%float) q /\ 0 <= q <= 1 /\
    Rnds (q * 100) (B2R (interp v)) /\
    finite (interp v) /\ 0 <= B2R (interp v) <= 100.
Proof.
  intros Fv Hv.
  destruct crit_value as [Fc Ec]. destruct full_value as [Ff Bf].
  destruct range_value as (Fd & Hd & Rd).
  destruct hundred_value as [Fh Eh].
  set (d := (full - crit)%float) in *.
  destruct (@sub_finite v crit Fv Fc) as [Fa Ra].
  { apply small_lt. apply abs_le_iff. rewrite Ec in *. Lra.lra. }
  set (a := (v - crit)%float) in *.
  assert (Ha : 0 <= B2R a <= B2R d).
  { split.
    - apply (Rnds_sign_pos Ra). Lra.lra.
    - apply (Rnds_mono Ra Rd). Lra.lra. }
  assert (Hq0 : 0 <= B2R a / B2R d <= 1).
  { split.
    - apply Rmult_le_pos; [apply Ha |].
      apply Rlt_le, Rinv_0_lt_compat. Lra.lra.
    - apply (Rmult_le_reg_r (B2R d)); [Lra.lra |].
      unfold Rdiv. rewrite Rmult_assoc, Rinv_l by Lra.lra. Lra.lra. }
  destruct (@div_finite a d Fa Fd) as [Fq Rq].
  { Lra.lra. }
  { apply small_lt. apply abs_le_iff. Lra.lra. }
  set (q := (a / d)%float) in *.
  assert (Hq : 0 <= B2R q <= 1).
  { split.
    - apply (Rnds_sign_pos Rq). apply Hq0.
    - apply (Rnds_mono Rq Rnds_one). apply Hq0. }
  destruct (@mul_finite q hundred Fq Fh) as [Fp Rp].
  { apply small_lt. apply abs_le_iff. rewrite Eh. Lra.lra. }
  rewrite Eh in Rp.
  assert (R100 : Rnds 100 100).
  { rewrite <- Eh. apply B2R_Rnds. }
  exists (B2R a), (B2R q). unfold interp. fold d a q.
  repeat split; try assumption; try apply Ha; try apply Hq.
  - apply (Rnds_sign_pos Rp). Lra.lra.
  - apply (Rnds_mono Rp R100). Lra.lra.
Qed.

Lemma interp_mono (v1 v2 : float) :
  finite v1 -> finite v2 ->
  B2R crit <= B2R v1 -> B2R v1 <= B2R v2 -> B2R v2 <= B2R full ->
  B2R (interp v1) <= B2R (interp v2).
Proof.
  intros F1 F2 H1 H12 H2.
  destruct range_value as (Fd & Hd & Rd).
  destruct (@interp_steps v1 F1 ltac:(Lra.lra))
    as (a1 & q1 & Ra1 & Ha1 & Rq1 & Hq1 & Rp1 & _).
  destruct (@interp_steps v2 F2 ltac:(Lra.lra))
    as (a2 & q2 & Ra2 & Ha2 & Rq2 & Hq2 & Rp2 & _).
  assert (La : a1 <= a2) by (apply (Rnds_mono Ra1 Ra2); Lra.lra).
  assert (Lq : q1 <= q2).
  { apply (Rnds_mono Rq1 Rq2). unfold Rdiv.
    apply Rmult_le_compat_r; [| exact La].
    apply Rlt_le, Rinv_0_lt_compat. Lra.lra. }
  apply (Rnds_mono Rp1 Rp2). Lra.lra.
Qed.

(** ** [percentage_at] with the thresholds of config.py *)

Definition pct (v : float) : float :=
  if PrimFloat.leb full v then hundred
  else if PrimFloat.leb v crit then zero
  else interp v.

Lemma percentage_at_pct (s : PowerManager (F:=float)) (v : float) :
  configured s -> percentage_at s v = pct v.
Proof.
  intros (_ & Hc & Hf). unfold percentage_at, pct, interp.
  rewrite Hc, Hf. reflexivity.
Qed.

Lemma pct_cases (v : float) :
  Binary64.is_number v = true ->
  (PrimFloat.leb full v = true /\ pct v = hundred) \/
  (PrimFloat.leb full v = false /\ PrimFloat.leb v crit = true /\
   pct v = zero) \/
  (finite v /\ B2R crit < B2R v < B2R full /\ pct v = interp v).
Proof.
  intros Hn. unfold pct.
  destruct (PrimFloat.leb full v) eqn:E1; [left; auto |].
  destruct (PrimFloat.leb v crit) eqn:E2; [right; left; auto |].
  right. right.
  destruct crit_value as [Fc _]. destruct full_value as [Ff _].
  destruct (@number_cases v Hn) as [Fv | [-> | ->]].
  - split; [exact Fv |]. split; [| reflexivity].
    split; apply leb_false_finite; assumption.
  - vm_compute in E1. discriminate.
  - vm_compute in E2. discriminate.
Qed.

Lemma pct_range (v : float) :
  Binary64.is_number v = true ->
  finite (pct v) /\ 0 <= B2R (pct v) <= 100.
Proof.
  intros Hn.
  destruct hundred_value as [Fh Eh]. destruct zero_value as [Fz Ez].
  destruct (@pct_cases v Hn) as [[_ ->] | [(_ & _ & ->) | (Fv & Hv & ->)]].
  - rewrite Eh. split; [exact Fh | Lra.lra].
  - rewrite Ez. split; [exact Fz | Lra.lra].
  - destruct (@interp_steps v Fv ltac:(Lra.lra))
      as (a & q & _ & _ & _ & _ & _ & Fp & Hp).
    split; assumption.
Qed.

Lemma pct_mono (v1 v2 : float) :
  PrimFloat.leb v1 v2 = true -> B2R (pct v1) <= B2R (pct v2).
Proof.
  intros L. destruct (@Binary64Facts.leb_true_number v1 v2 L) as [N1 N2].
  destruct hundred_value as [Fh Eh]. destruct zero_value as [Fz Ez].
  destruct (@pct_range v1 N1) as [_ R1]. destruct (@pct_range v2 N2) as [_ R2].
  destruct (@pct_cases v2 N2) as [[_ E2] | [(A2 & B2 & E2) | (F2 & H2 & E2)]].
  - rewrite E2, Eh. apply R1.
  - destruct (@pct_cases v1 N1)
      as [[A1 E1] | [(_ & _ & E1) | (F1 & H1 & E1)]].
    + exfalso.
      destruct crit_value as [Fc Ec]. destruct full_value as [Ff Bf].
      destruct (@number_cases v1 N1) as [F1 | [-> | ->]];
        [| | vm_compute in A1; discriminate].
      * destruct (@number_cases v2 N2) as [F2 | [-> | ->]].
        -- apply (@leb_finite full v1 Ff F1) in A1.
           apply (@leb_finite v1 v2 F1 F2) in L.
           apply (@leb_finite v2 crit F2 Fc) in B2. Lra.lra.
        -- vm_compute in B2. discriminate.
        -- apply Binary64Facts.leb_neg_infinity in L. subst v1.
           vm_compute in F1. discriminate.
      * apply Binary64Facts.leb_infinity in L. subst v2.
        vm_compute in B2. discriminate.
    + rewrite E1, E2. apply Rle_refl.
    + exfalso. destruct crit_value as [Fc Ec].
      destruct (@number_cases v2 N2) as [F2 | [-> | ->]].
      * apply (@leb_finite v1 v2 F1 F2) in L.
        apply (@leb_finite v2 crit F2 Fc) in B2. Lra.lra.
      * vm_compute in B2. discriminate.
      * apply Binary64Facts.leb_neg_infinity in L. subst v1.
        vm_compute in F1. discriminate.
  - destruct (@pct_cases v1 N1)
      as [[A1 E1] | [(_ & _ & E1) | (F1 & H1 & E1)]].
    + exfalso. destruct full_value as [Ff Bf].
      destruct (@number_cases v1 N1) as [F1 | [-> | ->]].
      * apply (@leb_finite full v1 Ff F1) in A1.
        apply (@leb_finite v1 v2 F1 F2) in L. Lra.lra.
      * apply Binary64Facts.leb_infinity in L. subst v2.
        vm_compute in F2. discriminate.
      * vm_compute in A1. discriminate.
    + rewrite E1, Ez. apply R2.
    + rewrite E1, E2. apply (@leb_finite v1 v2 F1 F2) in L.
      apply interp_mono; try assumption; Lra.lra.
Qed.

(** The percentage of a number, in the order of the floats. *)
Lemma pct_bounds (v : float) :
  Binary64.is_number v = true ->
  PrimFloat.leb zero (pct v) = true /\ PrimFloat.leb (pct v) hundred = true.
Proof.
  intros Hn. destruct (@pct_range v Hn) as [Fp Hp].
  destruct hundred_value as [Fh Eh]. destruct zero_value as [Fz Ez].
  split.
  - apply (@leb_finite zero (pct v) Fz Fp). rewrite Ez. apply Hp.
  - apply (@leb_finite (pct v) hundred Fp Fh). rewrite Eh. apply Hp.
Qed.

Lemma pct_leb (v1 v2 : float) :
  PrimFloat.leb v1 v2 = true -> PrimFloat.leb (pct v1) (pct v2) = true.
Proof.
  intros L. destruct (@Binary64Facts.leb_true_number v1 v2 L) as [N1 N2].
  destruct (@pct_range v1 N1) as [F1 _]. destruct (@pct_range v2 N2) as [F2 _].
  apply (@leb_finite (pct v1) (pct v2) F1 F2). apply pct_mono, L.
Qed.

(** ** The readings of a manager that was not calibrated *)

Lemma mean_float (l : list float) :
  mean l = (fold_left (fun a x => (a + x)%float) l (Binary64.of_Z 0)
            / Binary64.of_Z (Z.of_nat (length l)))%float.
Proof. reflexivity. Qed.

(** A reading of a new manager, from the bounds of its samples. *)
Lemma reading_between (adc : nat -> Z) (n : nat) (lo hi mlo mhi : float) :
  (forall i, between lo hi (sample (__init__ (F:=float) adc) (adc i))) ->
  window_check lo hi mlo mhi = true ->
  between mlo mhi
    (fst (read_battery_voltage true
            (after_reads n (__init__ (F:=float) adc)))).
Proof.
  intros Hs C. rewrite (next_reading_mean (F:=float) adc n), mean_float.
  apply (@fold_mean_between lo hi mlo mhi); [| | exact C].
  - rewrite lastn_length, length_map, length_seq. lia.
  - apply Forall_lastn, Forall_forall. intros x Hx.
    apply in_map_iff in Hx. destruct Hx as (i & <- & _). apply Hs.
Qed.

(** The voltage of a 16-bit raw value lies between 0 and
    6.5999999999999996. *)
Lemma sample_16_bit (adc : nat -> Z) (raw : Z) :
  (0 <= raw <= 65535)%Z ->
  between 0%float 0x1.a666666666666p+2%float
    (sample (__init__ (F:=float) adc) raw).
Proof.
  intros Hr.
  pose proof (@between_of_Z 0 65535 raw Hr eq_refl) as Br.
  change (Binary64.of_Z 0) with 0%float in Br.
  change (Binary64.of_Z 65535) with 65535%float in Br.
  unfold sample.
  cbv [fadd fsub fmul fdiv of_int dec Binary64.binary64_float
       vref voltage_divider_ratio calibration_factor __init__
       Config.VREF Config.BATTERY_VOLTAGE_DIVIDER_RATIO Power.promote].
  match goal with |- between _ _ ?e => interval e end.
  assumption.
Qed.

(** Its mean over a window of one to ten readings lies between 0 and
    6.6000000000000005. *)
Lemma reading_16_bit (adc : nat -> Z) (n : nat) :
  (forall i, 0 <= adc i <= 65535)%Z ->
  between 0%float 0x1.a666666666667p+2%float
    (fst (read_battery_voltage true
            (after_reads n (__init__ (F:=float) adc)))).
Proof.
  intros Hadc.
  apply (@reading_between adc n 0%float 0x1.a666666666666p+2%float).
  - intros i. apply sample_16_bit, Hadc.
  - vm_compute. reflexivity.
Qed.

Lemma after_reads_configured {F : Type} `{PyFloat F} (adc : nat -> Z)
    (n : nat) :
  configured (after_reads n (__init__ (F:=F) adc)).
Proof.
  induction n as [| n IH].
  - apply configured_init.
  - change (after_reads (S n) (__init__ (F:=F) adc))
      with (snd (read_battery_voltage true
                   (after_reads n (__init__ (F:=F) adc)))).
    eapply configured_frame; [| exact IH].
    apply stable_read_battery_voltage.
Qed.

(** ** The percentage *)

Section ExactPercentage.

Local Open Scope Q_scope.

(** In exact arithmetic. *)
Lemma percentage_exact (s : PowerManager (F:=Q)) :
  configured s ->
  (forall v, 0 <= percentage_at s v /\ percentage_at s v <= 100) /\
  (forall v1 v2, v1 <= v2 -> percentage_at s v1 <= percentage_at s v2) /\
  (forall v, v <= critical_voltage s -> percentage_at s v = 0) /\
  (forall v, full_voltage s <= v -> percentage_at s v = 100) /\
  (forall v, critical_voltage s < v -> v < full_voltage s ->
     percentage_at s v
     = (v - critical_voltage s) / (full_voltage s - critical_voltage s)
       * 100).
Proof.
  intros C. destruct (configured_exact C) as (_ & Hc & Hf).
  assert (Hcf : critical_voltage s < full_voltage s).
  { rewrite Hc, Hf. reflexivity. }
  destruct (percentage_at_between s Hcf) as [Hrange Hmono].
  split; [exact Hrange |]. split; [exact Hmono |].
  split; [| split].
  - intros v Hv. unfold percentage_at.
    cbv [fleb fsub fmul fdiv of_int Exact.exact_float Power.promote].
    destruct (ExactFacts.leb_spec (full_voltage s) v); [Lqa.lra |].
    destruct (ExactFacts.leb_spec v (critical_voltage s));
      [reflexivity | Lqa.lra].
  - intros v Hv. unfold percentage_at.
    cbv [fleb fsub fmul fdiv of_int Exact.exact_float Power.promote].
    destruct (ExactFacts.leb_spec (full_voltage s) v);
      [reflexivity | Lqa.lra].
  - intros v Hv1 Hv2. unfold percentage_at.
    cbv [fleb fsub fmul fdiv of_int Exact.exact_float Power.promote].
    destruct (ExactFacts.leb_spec (full_voltage s) v); [Lqa.lra |].
    destruct (ExactFacts.leb_spec v (critical_voltage s));
      [Lqa.lra | reflexivity].
Qed.

End ExactPercentage.

(** [get_battery_percentage] returns the percentage of the voltage it
    reads, and keeps it. *)
Lemma get_battery_percentage_reading {F : Type} `{PyFloat F}
    (s : PowerManager (F:=F)) :
  let (p, s') := get_battery_percentage s in
  p = percentage_at s (fst (read_battery_voltage true s)) /\
  battery_percentage s' = p.
Proof.
  pose proof (stable_read_battery_voltage true s) as Fr.
  unfold get_battery_percentage, bind, get.
  destruct (read_battery_voltage true s) as [v s1]. simpl in *.
  split; [| reflexivity].
  destruct Fr as [_ Hc1 Hf1 _ _]. unfold percentage_at.
  rewrite Hc1, Hf1. reflexivity.
Qed.

(** A manager calibrated against an infinite voltage: the factor is
    infinite, and the next raw value, 0, gives 0 times infinity. *)
Definition miscalibrated : PowerManager (F:=float) :=
  snd (calibrate infinity
         (__init__ (fun i : nat => match i with
                                   | O => 36000%Z
                                   | S _ => 0%Z
                                   end))).




End BinaryBattery.

(* ================================================================== *)
(** * hardwaresim.py: the simulated converter *)

Module SimADC.

Import St Power Window.

Section Converter.
Context {F : Type} `{PyFloat F}.

Definition base_voltage : F := dec 37 10.

(** [read_u16]; [noise] is what [random.uniform(-0.1, 0.1)] gives. *)
Definition read_u16 (noise : F) : option Z :=
  let voltage := fadd base_voltage noise in
  let adc_value :=
    to_int (fdiv (fmul (fdiv voltage (of_int 2)) (of_int 65535)) (dec 33 10))
  in
  adc_value.

End Converter.

Local Open Scope Q_scope.

Ltac exact_ops :=
  cbv [fadd fsub fmul fdiv feqb fltb fleb of_int dec to_int
       Exact.exact_float Power.promote].

(** The raw value of a voltage between 3.6 and 3.8 volts, and the voltage
    it stands for. *)
Lemma read_u16_range (noise : Q) :
  - (1 # 10) <= noise <= 1 # 10 ->
  exists raw : Z,
    read_u16 noise = Some raw /\ (35746 <= raw <= 37732)%Z /\
    inject_Z raw * (66 # 655350) <= (37 # 10) + noise /\
    (37 # 10) + noise < inject_Z raw * (66 # 655350) + (66 # 655350).
Proof.
  intros [Hlo Hhi]. unfold read_u16, base_voltage. exact_ops.
  set (x := ((37 # 10) + noise) / inject_Z 2 * inject_Z 65535 / (33 # 10)).
  assert (Ex : x == ((37 # 10) + noise) * (655350 # 66)).
  { unfold x. change (inject_Z 2) with 2. change (inject_Z 65535) with 65535.
    field. }
  exists (Exact.trunc x). split; [reflexivity |].
  destruct (ExactFacts.trunc_truncates x) as [Hp _].
  destruct Hp as [H1 H2]; [lra |].
  assert (Hu : inject_Z (Exact.trunc x) < inject_Z 37733).
  { change (inject_Z 37733) with 37733. lra. }
  assert (Hl : inject_Z 35745 < inject_Z (Exact.trunc x)).
  { change (inject_Z 35745) with 35745. lra. }
  rewrite <- Zlt_Qlt in Hu, Hl.
  split; [lia |]. split; lra.
Qed.



Lemma configured_after_reads (adc : nat -> Z) (n : nat) :
  Battery.configured (after_reads n (__init__ (F:=Q) adc)).
Proof.
  induction n as [| n IH].
  - apply Battery.configured_init.
  - change (after_reads (S n) (__init__ (F:=Q) adc))
      with (snd (read_battery_voltage true (after_reads n (__init__ (F:=Q) adc)))).
    eapply Battery.configured_frame; [| exact IH].
    apply Battery.stable_read_battery_voltage.
Qed.



End SimADC.

(* ================================================================== *)
(** * What [send_data] does with a datum *)

Module Delivery.

Import St WiFi ListFacts Buffer.

Section Facts.
Context {Data World : Type} `{Surroundings Data World}.

Local Open Scope Z_scope.

Local Abbreviation Manager := (WiFiManager (Data:=Data) (World:=World)).
Local Abbreviation Entry := (WiFi.Entry (Data:=Data)).

(** The count of failed transmissions after the results [rs], from [n]:
    a success clears it, a failure adds one. *)
Definition run_failures (rs : list bool) (n : Z) : Z :=
  fold_left (fun n (r : bool) => if r then 0 else n + 1) rs n.

(** [send_data], with its steps in a row: the drain, the send, and the
    insertion when the send failed. *)
Lemma send_data_cases (d : Data) (s : Manager) :
  send_data d s
  = let s1 := snd (transmit_buffered_data s) in
    let (success, s2) := send_configured d s1 in
    if success then (true, s2) else (false, snd (buffer_data d s2)).
Proof.
  rewrite transmit_buffered_data_cases.
  unfold send_data. unfold bind at 1. unfold get at 1. unfold bind at 1.
  destruct (data_buffer s) as [| e es] eqn:Eb.
  - unfold ret at 1. cbv zeta. simpl snd. unfold bind at 1.
    destruct (send_configured d s) as [success s2].
    unfold bind, when, ret. destruct success; simpl; [reflexivity |].
    destruct (buffer_data d s2) as [[] s3]. reflexivity.
  - unfold bind at 1. rewrite transmit_buffered_data_cases, Eb.
    destruct (ensure_connected s) as [ok s0].
    assert (E : forall (p : Z * Manager),
               (let (success, s2) := send_configured d (snd p) in
                if success then (true, s2)
                else (false, snd (buffer_data d s2)))
               = (let (_, s') := let (_, s') := p in ret tt s' in
                  bind (send_configured d)
                    (fun success =>
                       bind (when (negb success) (buffer_data d))
                            (fun _ => ret success)) s')).
    { intros [n s1]. unfold ret at 1. simpl snd. unfold bind at 1.
      destruct (send_configured d s1) as [success s2].
      unfold bind, when, ret. destruct success; simpl; [reflexivity |].
      destruct (buffer_data d s2) as [[] s3]. reflexivity. }
    symmetry. apply E.
Qed.

(** A send, on any manager: the buffer is kept; a success means the request
    was made, on a manager that holds itself connected. *)
Lemma send_configured_result (d : Data) (s : Manager) :
  let (ok, s') := send_configured d s in
  data_buffer s' = data_buffer s /\
  (ok = true ->
   requests s' = requests s ++ [d] /\ is_connected s' = true /\
   failed_transmissions s' = 0).
Proof.
  pose proof (ensure_connected_result s) as C.
  unfold send_configured, send_to_thingspeak, request, bind, get, modify, ret.
  simpl. destruct (ensure_connected s) as [ok s0].
  destruct C as (C1 & C2 & C3).
  destruct ok; simpl; [| split; [exact C3 | discriminate]].
  destruct (http_get d (env s0)) as [r w]. simpl.
  destruct r as [code |]; simpl; [| split; [exact C3 | discriminate]].
  destruct (code =? 200); simpl; [| split; [exact C3 | discriminate]].
  split; [exact C3 |]. intros _. rewrite C2. auto.
Qed.

(** A datum handed to [send_data] is sent or kept.  When [send_data]
    returns true, its request was the last one made, and the buffer is what
    the drain left of it.  When it returns false, the datum is the newest
    entry of the buffer, behind what the drain left. *)
Theorem send_data_sends_or_buffers (d : Data) (s : Manager) :
  reachable s ->
  let drained := data_buffer (snd (transmit_buffered_data s)) in
  let (ok, s') := send_data d s in
  if ok
  then data_buffer s' = drained /\ (exists l, requests s' = l ++ [d]) /\
       failed_transmissions s' = 0
  else exists t : Z,
       data_buffer s'
       = lastn Config.DATA_BUFFER_SIZE
           (drained ++ [{| timestamp := t; data := d |}]).
Proof.
  intros R drained. subst drained.
  pose proof (reachable_bounded (reach_transmit_buffered_data R)) as Hb.
  rewrite send_data_cases. cbv zeta.
  set (s1 := snd (transmit_buffered_data s)) in *.
  pose proof (send_configured_result d s1) as S.
  destruct (send_configured d s1) as [ok s2]. destruct S as (S1 & S2).
  destruct ok.
  - destruct (S2 eq_refl) as (Hr & _ & Hf).
    split; [exact S1 |]. split; [| exact Hf]. eexists. exact Hr.
  - exists (time (env s2)).
    rewrite buffer_data_lastn by (rewrite S1; exact Hb).
    rewrite S1. reflexivity.
Qed.

(** ** A manager that holds itself connected *)

(** What a send leaves of the connection attributes, and of the count of
    failures. *)
Lemma send_configured_connected_rest (d : Data) (s : Manager) :
  is_connected s = true ->
  let s' := snd (send_configured d s) in
  connection_attempts s' = connection_attempts s /\
  last_connection_time s' = last_connection_time s /\
  failed_transmissions s'
  = run_failures [succeeded (fst (http_get d (env s)))]
      (failed_transmissions s).
Proof.
  intros Hc.
  unfold send_configured, send_to_thingspeak, ensure_connected, request,
    bind, get, modify, ret.
  simpl. rewrite Hc. simpl.
  destruct (http_get d (env s)) as [r w]. simpl.
  destruct r as [code |]; simpl; [| auto].
  destruct (code =? 200); simpl; auto.
Qed.

Lemma transmit_loop_rest (entries : list Entry) :
  forall (c : Z) (f : list Entry) (s : Manager),
  is_connected s = true ->
  let (rs, w) := answers (map data entries) (env s) in
  let (r, s') := transmit_loop entries c f s in
  connection_attempts s' = connection_attempts s /\
  last_connection_time s' = last_connection_time s /\
  failed_transmissions s' = run_failures rs (failed_transmissions s).
Proof.
  induction entries as [| e es IH]; intros c f s Hc.
  - simpl. unfold ret. auto.
  - simpl answers. simpl map.
    pose proof (send_configured_connected (data e) s Hc) as Hs.
    pose proof (send_configured_connected_rest (data e) s Hc) as Hr.
    cbv zeta in Hr.
    destruct (http_get (data e) (env s)) as [r w1].
    cbn [transmit_loop]. unfold bind at 1.
    destruct (send_configured (data e) s) as [success s1].
    destruct Hs as (-> & <- & _ & Hc1 & _).
    simpl fst in Hr. simpl snd in Hr. destruct Hr as (Ha & Ht & Hf).
    unfold bind at 1. unfold get at 1. unfold bind at 1.
    unfold modify at 1.
    assert (Hc2 : is_connected (set_env (sleep (env s1)) s1) = true)
      by exact Hc1.
    assert (G : forall c' f',
               let (rs, w) := answers (map data es) (sleep (env s1)) in
               let (r', s') := transmit_loop es c' f'
                                 (set_env (sleep (env s1)) s1) in
               connection_attempts s' = connection_attempts s /\
               last_connection_time s' = last_connection_time s /\
               failed_transmissions s'
               = run_failures (succeeded r :: rs) (failed_transmissions s)).
    { intros c' f'. specialize (IH c' f' _ Hc2).
      simpl env in IH.
      destruct (answers (map data es) (sleep (env s1))) as [rs w2].
      destruct (transmit_loop es c' f' _) as [r' s'].
      destruct IH as (I1 & I2 & I3).
      rewrite I1, I2, I3. simpl connection_attempts.
      simpl last_connection_time. simpl failed_transmissions.
      rewrite Ha, Ht, Hf. auto. }
    destruct (succeeded r); cbv beta iota.
    + specialize (G (c + 1) f).
      destruct (answers (map data es) (sleep (env s1))) as [rs w2].
      exact G.
    + specialize (G c (f ++ [e])).
      destruct (answers (map data es) (sleep (env s1))) as [rs w2].
      exact G.
Qed.

Lemma answers_app (l1 l2 : list Data) : forall w,
  answers (l1 ++ l2) w
  = let (r1, w1) := answers l1 w in
    let (r2, w2) := answers l2 w1 in (r1 ++ r2, w2).
Proof.
  induction l1 as [| d l1 IH]; intros w; simpl.
  - destruct (answers l2 w); reflexivity.
  - destruct (http_get d w) as [r w1]. rewrite IH.
    destruct (answers l1 (sleep w1)) as [r1 w2].
    destruct (answers l2 w2) as [r2 w3]. reflexivity.
Qed.

Lemma run_failures_app (r1 r2 : list bool) (n : Z) :
  run_failures (r1 ++ r2) n = run_failures r2 (run_failures r1 n).
Proof. apply fold_left_app. Qed.

(** The drain and the send of [send_data] on a manager that holds itself
    connected. *)
Lemma send_data_connected (d : Data) (s : Manager) :
  is_connected s = true ->
  let rs := fst (answers (map data (data_buffer s) ++ [d]) (env s)) in
  let (ok, s') := send_data d s in
  is_connected s' = true /\
  connection_attempts s' = connection_attempts s /\
  last_connection_time s' = last_connection_time s /\
  requests s' = requests s ++ map data (data_buffer s) ++ [d] /\
  failed_transmissions s' = run_failures rs (failed_transmissions s) /\
  ok = last rs false.
Proof.
  intros Hc rs. subst rs.
  rewrite send_data_cases, transmit_buffered_data_cases. cbv zeta.
  rewrite answers_app.
  assert (D : exists s1 : Manager,
             snd (match data_buffer s with
                  | [] => (0, s)
                  | _ :: _ =>
                      let (ok, s0) := ensure_connected s in
                      if ok
                      then let (r, s1) :=
                             transmit_loop (data_buffer s0) 0 [] s0 in
                           (fst r, set_data_buffer (snd r) s1)
                      else (0, s0)
                  end) = s1 /\
             is_connected s1 = true /\
             connection_attempts s1 = connection_attempts s /\
             last_connection_time s1 = last_connection_time s /\
             requests s1 = requests s ++ map data (data_buffer s) /\
             failed_transmissions s1
             = run_failures
                 (fst (answers (map data (data_buffer s)) (env s)))
                 (failed_transmissions s) /\
             env s1 = snd (answers (map data (data_buffer s)) (env s))).
  { destruct (data_buffer s) as [| e es] eqn:Eb.
    - exists s. simpl. rewrite ?app_nil_r. auto 10.
    - unfold ensure_connected, bind, get, ret. rewrite Hc. cbn [negb].
      cbv beta iota. rewrite Eb.
      pose proof (transmit_loop_spec (e :: es) 0 [] s Hc) as L.
      pose proof (transmit_loop_rest (e :: es) 0 [] s Hc) as L'.
      destruct (answers (map data (e :: es)) (env s)) as [rs w].
      destruct (transmit_loop (e :: es) 0 [] s) as [r s1].
      destruct L as (_ & _ & L3 & L4 & L5 & _).
      destruct L' as (L6 & L7 & L8). simpl snd in *. simpl fst in *.
      exists (set_data_buffer (snd r) s1). simpl. auto 10. }
  destruct D as (s1 & -> & Hc1 & Ha1 & Ht1 & Hr1 & Hf1 & He1).
  pose proof (send_configured_connected d s1 Hc1) as S.
  pose proof (send_configured_connected_rest d s1 Hc1) as S'. cbv zeta in S'.
  destruct (answers (map data (data_buffer s)) (env s)) as [r1 w1].
  simpl fst in Hf1. simpl snd in He1. rewrite He1 in S, S'.
  simpl answers.
  destruct (http_get d w1) as [r w2].
  destruct (send_configured d s1) as [ok s2].
  simpl fst in S'. simpl snd in S'.
  destruct S as (-> & _ & Hr2 & Hc2 & _). destruct S' as (Ha2 & Ht2 & Hf2).
  simpl fst. rewrite run_failures_app, last_last.
  assert (G : is_connected s2 = true /\
              connection_attempts s2 = connection_attempts s /\
              last_connection_time s2 = last_connection_time s /\
              requests s2 = requests s ++ map data (data_buffer s) ++ [d] /\
              failed_transmissions s2
              = run_failures [succeeded r]
                  (run_failures r1 (failed_transmissions s))).
  { rewrite Ha2, Ht2, Hf2, Hr2, Hr1, Ha1, Ht1, Hf1, <- app_assoc. auto. }
  destruct (succeeded r).
  - destruct G as (G1 & G2 & G3 & G4 & G5). auto 10.
  - pose proof (buffer_data_rest d s2) as B. cbv zeta in B.
    unfold buffer_data, bind, get, modify, when, ret in *. simpl in *.
    destruct G as (G1 & G2 & G3 & G4 & G5).
    destruct (Config.DATA_BUFFER_SIZE <? _)%nat; simpl; auto 10.
Qed.

(** The flag [is_connected] is trusted.  On a manager that holds itself
    connected, whatever the interface says, [reconnect] does nothing, and
    [send_data] makes the request of every buffered entry and of the datum
    without a connection attempt, and leaves the flag on. *)
Theorem connected_flag_is_trusted (d : Data) (s : Manager) :
  is_connected s = true ->
  reconnect s = (true, s) /\
  let (ok, s') := send_data d s in
  is_connected s' = true /\
  connection_attempts s' = connection_attempts s /\
  last_connection_time s' = last_connection_time s /\
  requests s' = requests s ++ map data (data_buffer s) ++ [d].
Proof.
  intros Hc. split.
  - unfold reconnect, bind, get, ret. rewrite Hc. reflexivity.
  - pose proof (send_data_connected d s Hc) as S. cbv zeta in S.
    destruct (send_data d s) as [ok s'].
    destruct S as (S1 & S2 & S3 & S4 & _). auto.
Qed.

(** [failed_transmissions] counts the requests that failed in a row: after
    [send_data] on a manager that holds itself connected it is the count
    before, cleared by each success and raised by each failure among the
    requests of the buffered entries and of the datum; and [send_data]
    returns the result of the last of them. *)
Theorem failed_transmissions_run (d : Data) (s : Manager) :
  is_connected s = true ->
  let rs := fst (answers (map data (data_buffer s) ++ [d]) (env s)) in
  let (ok, s') := send_data d s in
  failed_transmissions s' = run_failures rs (failed_transmissions s) /\
  ok = last rs false /\
  (ok = true -> failed_transmissions s' = 0) /\
  (forallb negb rs = true ->
   failed_transmissions s'
   = failed_transmissions s + Z.of_nat (length (data_buffer s)) + 1).
Proof.
  intros Hc rs.
  pose proof (send_data_connected d s Hc) as HS. cbv zeta in HS. fold rs in HS.
  assert (Hl : length rs = S (length (data_buffer s))).
  { unfold rs. rewrite answers_length, length_app, length_map. simpl. lia. }
  destruct (send_data d s) as [ok s'].
  destruct HS as (_ & _ & _ & _ & S5 & S6).
  split; [exact S5 |]. split; [exact S6 |].
  rewrite S5, S6. clear S5 S6.
  replace (failed_transmissions s + Z.of_nat (length (data_buffer s)) + 1)
    with (failed_transmissions s + Z.of_nat (length rs)) by (rewrite Hl; lia).
  clear Hl. generalize (failed_transmissions s) as n.
  generalize rs as l. clear.
  induction l as [| r l IH] using rev_ind; intros n.
  - simpl. split; [discriminate | intros _; lia].
  - rewrite last_last, run_failures_app, forallb_app, length_app.
    simpl. destruct r; simpl.
    + split; [reflexivity |]. rewrite andb_false_r. discriminate.
    + split; [discriminate |]. rewrite andb_true_r. intros Hall.
      destruct (IH n) as [_ IH2]. rewrite (IH2 Hall). lia.
Qed.

(** ** A network that cannot be joined *)

Lemma buffer_data_attempts (d : Data) (s : Manager) :
  connection_attempts (snd (buffer_data d s)) = connection_attempts s.
Proof.
  unfold buffer_data, bind, get, modify, when, ret. simpl.
  destruct (Config.DATA_BUFFER_SIZE <? _)%nat; reflexivity.
Qed.

(** With entries buffered and no network to be had, [send_data] makes two
    connection attempts, one for the drain and one for the send; it makes no
    request, returns false and buffers the datum. *)
Theorem unreachable_network_two_attempts (d : Data) (s : Manager) :
  is_connected s = false ->
  data_buffer s <> [] ->
  (length (data_buffer s) <= Config.DATA_BUFFER_SIZE)%nat ->
  wlan_isconnected (env s) = false ->
  wlan_isconnected (wlan_join (env s)) = false ->
  wlan_isconnected (wlan_join (wlan_join (env s))) = false ->
  let (ok, s') := send_data d s in
  ok = false /\
  connection_attempts s' = connection_attempts s + 2 /\
  requests s' = requests s /\
  is_connected s' = false /\
  data_buffer s'
  = lastn Config.DATA_BUFFER_SIZE
      (data_buffer s
       ++ [{| timestamp := time (wlan_join (wlan_join (env s)));
              data := d |}]).
Proof.
  intros Hc Hne Hlen W0 W1 W2.
  rewrite send_data_cases, transmit_buffered_data_cases. cbv zeta.
  destruct (data_buffer s) as [| e es] eqn:Eb; [congruence |].
  unfold ensure_connected at 1. unfold bind at 1. unfold get at 1.
  rewrite Hc. cbn [negb]. cbv beta iota.
  unfold connect at 1. unfold bind, get, modify, ret. cbv beta iota.
  rewrite W0. cbn [env set_env]. rewrite W1. cbn [negb snd].
  unfold send_configured, send_to_thingspeak, ensure_connected, connect,
    bind, get, modify, ret.
  cbn [Config.USE_THINGSPEAK negb is_connected set_is_connected
       set_connection_attempts set_env env].
  rewrite W1. cbn [env set_env]. rewrite W2. cbn [negb].
  match goal with
  | |- context [buffer_data d ?s2] =>
      pose proof (buffer_data_lastn d s2) as B;
      pose proof (buffer_data_rest d s2) as B';
      pose proof (buffer_data_attempts d s2) as B4
  end.
  cbn [data_buffer set_connection_attempts set_is_connected set_env] in B.
  rewrite Eb in B. specialize (B Hlen). cbv zeta in B'.
  destruct B' as (_ & B2 & B3).
  split; [reflexivity |].
  match goal with
  | |- context [buffer_data d ?s2] => destruct (buffer_data d s2) as [[] s3]
  end.
  simpl snd in *. rewrite B, B2, B3, B4.
  cbn [connection_attempts set_connection_attempts set_is_connected set_env
       requests is_connected].
  repeat split. lia.
Qed.

End Facts.

End Delivery.

(* ================================================================== *)
(** * [send_data] on a link that is down *)

Module DeliveryScenarios.

Import Scenarios.

Local Open Scope Z_scope.

(** A manager that connected in range and was then carried out of range:
    it holds itself connected, and the interface is not. *)
Definition carried_away : WiFi.WiFiManager (Data:=Z) (World:=Air) :=
  WiFi.set_env
    {| in_range := false; associated := false; clock := 300 |}
    (snd (WiFi.connect (H:=air) (WiFi.__init__ (H:=air) (within_range 0)))).

Lemma send_data_sends_or_buffers_witness :
  let s := after_three_failures in
  let drained :=
    WiFi.data_buffer (snd (WiFi.transmit_buffered_data (H:=air) s)) in
  let (ok, s') := WiFi.send_data (H:=air) 4 s in
  if ok
  then WiFi.data_buffer s' = drained /\
       (exists l, WiFi.requests s' = l ++ [4]) /\
       WiFi.failed_transmissions s' = 0
  else exists t : Z,
       WiFi.data_buffer s'
       = ListFacts.lastn Config.DATA_BUFFER_SIZE
           (drained ++ [{| WiFi.timestamp := t; WiFi.data := 4 |}]).
Proof.
  exact (@Delivery.send_data_sends_or_buffers Z Air air 4
           after_three_failures after_three_failures_reachable).
Defined.

Lemma connected_flag_is_trusted_witness :
  WiFi.wlan_isconnected (Surroundings:=air) (WiFi.env carried_away) = false /\
  WiFi.reconnect (H:=air) carried_away = (true, carried_away) /\
  let (ok, s') := WiFi.send_data (H:=air) 7 carried_away in
  WiFi.is_connected s' = true /\
  WiFi.connection_attempts s' = WiFi.connection_attempts carried_away /\
  WiFi.last_connection_time s' = WiFi.last_connection_time carried_away /\
  WiFi.requests s'
  = WiFi.requests carried_away
    ++ map WiFi.data (WiFi.data_buffer carried_away) ++ [7].
Proof.
  split; [reflexivity |].
  exact (@Delivery.connected_flag_is_trusted Z Air air 7 carried_away
           eq_refl).
Defined.

Lemma failed_transmissions_run_witness :
  let s := carried_away in
  let rs := fst (Buffer.answers (H:=air)
                   (map WiFi.data (WiFi.data_buffer s) ++ [7]) (WiFi.env s))
  in
  let (ok, s') := WiFi.send_data (H:=air) 7 s in
  WiFi.failed_transmissions s'
  = Delivery.run_failures rs (WiFi.failed_transmissions s) /\
  ok = last rs false /\
  (ok = true -> WiFi.failed_transmissions s' = 0) /\
  (forallb negb rs = true ->
   WiFi.failed_transmissions s'
   = WiFi.failed_transmissions s
     + Z.of_nat (length (WiFi.data_buffer s)) + 1).
Proof.
  exact (@Delivery.failed_transmissions_run Z Air air 7 carried_away
           eq_refl).
Defined.

Lemma unreachable_network_two_attempts_witness :
  let s := after_three_failures in
  let (ok, s') := WiFi.send_data (H:=air) 4 s in
  ok = false /\
  WiFi.connection_attempts s' = WiFi.connection_attempts s + 2 /\
  WiFi.requests s' = WiFi.requests s /\
  WiFi.is_connected s' = false /\
  WiFi.data_buffer s'
  = ListFacts.lastn Config.DATA_BUFFER_SIZE
      (WiFi.data_buffer s
       ++ [{| WiFi.timestamp :=
                WiFi.time (Surroundings:=air)
                  (WiFi.wlan_join (Surroundings:=air)
                     (WiFi.wlan_join (Surroundings:=air) (WiFi.env s)));
              WiFi.data := 4 |}]).
Proof.
  refine (@Delivery.unreachable_network_two_attempts Z Air air 4
            after_three_failures eq_refl _ _ eq_refl eq_refl eq_refl).
  - discriminate.
  - vm_compute. lia.
Defined.

End DeliveryScenarios.

(* ================================================================== *)
(** * hardwaresim.py: the simulated network *)

Module SimNet.

Import St WiFi ListFacts Buffer.

Section Sim.
Context {Data Text : Type}.
Variables (WIFI_SSID WIFI_PASSWORD : Text).

Local Open Scope Z_scope.

(** [SimulatedWLAN] *)
Record SimulatedWLAN : Type := {
  interface : Z;
  active_state : bool;
  connected : bool;
  ssid : option Text;
  password : option Text
}.

Definition STA_IF : Z := 0.

Definition wlan__init__ (interface : Z) : SimulatedWLAN :=
  {| interface := interface; active_state := false; connected := false;
     ssid := None; password := None |}.

(** [active(state)]; [None] is the call without an argument. *)
Definition active (state : option bool) (self : SimulatedWLAN)
  : bool * SimulatedWLAN :=
  match state with
  | Some st =>
      (st, {| interface := interface self; active_state := st;
              connected := connected self; ssid := ssid self;
              password := password self |})
  | None => (active_state self, self)
  end.

Definition connect (ssid' password' : Text) (self : SimulatedWLAN)
  : SimulatedWLAN :=
  {| interface := interface self; active_state := active_state self;
     connected := true; ssid := Some ssid'; password := Some password' |}.

Definition disconnect (self : SimulatedWLAN) : SimulatedWLAN :=
  {| interface := interface self; active_state := active_state self;
     connected := false; ssid := ssid self; password := password self |}.

Definition isconnected (self : SimulatedWLAN) : bool := connected self.

(** [SimulatedHTTPResponse], by its status code, and [SimulatedRequests]:
    both branches of [get] answer 200. *)
Definition get (thingspeak : bool) : Response :=
  if thingspeak then Status 200 else Status 200.

Definition post : Response := Status 201.

(** The simulated station: its interface, and the clock that [time.sleep]
    moves. *)
Record Sim : Type := {
  wlan : SimulatedWLAN;
  clock : Z
}.

(** [connect] of the interface sleeps one second and is connected at once,
    so the wait loop of the manager is not entered. *)
#[local] Instance sim : Surroundings Data Sim := {|
  wlan_isconnected := fun w => isconnected (wlan w);
  wlan_join := fun w =>
    {| wlan := connect WIFI_SSID WIFI_PASSWORD (wlan w);
       clock := clock w + 1 |};
  wlan_disconnect := fun w =>
    {| wlan := disconnect (wlan w); clock := clock w |};
  wlan_active := fun st w =>
    {| wlan := snd (active (Some st) (wlan w)); clock := clock w |};
  http_get := fun _ w => (get true, w);
  http_post := fun _ w => (post, w);
  time := clock;
  sleep := fun w => {| wlan := wlan w; clock := clock w + 1 |}
|}.

Local Abbreviation Manager := (WiFiManager (Data:=Data) (World:=Sim)).

(** Every request is answered with a success. *)
Lemma sim_answers (ds : list Data) : forall w : Sim,
  fst (answers ds w) = map (fun _ => true) ds.
Proof.
  induction ds as [| d ds IH]; intros w; simpl; [reflexivity |].
  specialize (IH {| wlan := wlan w; clock := clock w + 1 |}).
  destruct (answers ds _) as [rs w2]. simpl in *. rewrite IH. reflexivity.
Qed.

(** A connection is always to be had. *)
Lemma sim_ensure_connected (s : Manager) :
  let (ok, s0) := ensure_connected s in
  ok = true /\ is_connected s0 = true /\ requests s0 = requests s /\
  data_buffer s0 = data_buffer s.
Proof.
  unfold ensure_connected, WiFi.connect, bind, get, modify, ret. simpl.
  destruct (is_connected s) eqn:Hc; simpl; [auto |].
  destruct (isconnected (wlan (env s))); simpl; auto.
Qed.

Lemma sim_send_configured (d : Data) (s : Manager) :
  let (ok, s') := send_configured d s in
  ok = true /\ is_connected s' = true /\
  requests s' = requests s ++ [d] /\ data_buffer s' = data_buffer s /\
  failed_transmissions s' = 0.
Proof.
  pose proof (sim_ensure_connected s) as C.
  unfold send_configured, send_to_thingspeak, request, bind, get, modify, ret.
  simpl. destruct (ensure_connected s) as [ok s0].
  destruct C as (-> & C1 & C2 & C3). simpl. rewrite C2. auto.
Qed.

Lemma sim_transmit_buffered_data (s : Manager) :
  let (n, s') := transmit_buffered_data s in
  n = Z.of_nat (length (data_buffer s)) /\ data_buffer s' = [] /\
  requests s' = requests s ++ map data (data_buffer s).
Proof.
  rewrite transmit_buffered_data_cases.
  destruct (data_buffer s) as [| e es] eqn:Eb.
  - rewrite Eb, app_nil_r. auto.
  - pose proof (sim_ensure_connected s) as C.
    destruct (ensure_connected s) as [ok s0].
    destruct C as (-> & C1 & C2 & C3).
    pose proof (transmit_loop_spec (data_buffer s0) 0 [] s0 C1) as L.
    pose proof (sim_answers (map data (data_buffer s0)) (env s0)) as A.
    pose proof (answers_length (map data (data_buffer s0)) (env s0)) as Hl.
    destruct (answers (map data (data_buffer s0)) (env s0)) as [rs w].
    destruct (transmit_loop (data_buffer s0) 0 [] s0) as [r s1].
    simpl fst in A, Hl. rewrite length_map in Hl.
    destruct L as (L1 & L2 & _ & L4 & _).
    destruct (all_succeeded (data_buffer s0) rs Hl) as [F1 F2].
    { rewrite A. clear. induction (data_buffer s0); [reflexivity | assumption]. }
    cbn [data_buffer set_data_buffer requests fst].
    rewrite L1, L2, L4, F1, F2, C2, C3, Eb. auto.
Qed.

(** On the simulated network every [send_data] succeeds, on any manager: a
    connection is made when there is none, what was buffered is sent, oldest
    first, before the datum, and the buffer is left empty. *)
Theorem simulated_network_delivers (d : Data) (s : Manager) :
  let (ok, s') := send_data d s in
  ok = true /\ data_buffer s' = [] /\
  requests s' = requests s ++ map data (data_buffer s) ++ [d] /\
  is_connected s' = true /\ failed_transmissions s' = 0.
Proof.
  rewrite Delivery.send_data_cases. cbv zeta.
  pose proof (sim_transmit_buffered_data s) as D.
  destruct (transmit_buffered_data s) as [n s1]. simpl snd.
  destruct D as (_ & D1 & D2).
  pose proof (sim_send_configured d s1) as S.
  destruct (send_configured d s1) as [ok s2].
  destruct S as (-> & S1 & S2 & S3 & S4).
  rewrite S3, S2, D1, D2, <- app_assoc. auto.
Qed.

End Sim.

End SimNet.

(* ================================================================== *)
(** * The driver on the simulated sensor *)

Module SimReading.

Local Open Scope Q_scope.

Ltac exact_ops :=
  cbv [fadd fsub fmul fdiv feqb fltb fleb of_int dec to_int
       Exact.exact_float BME280.promote sqr checked_div].

(** The calibration the driver reads from the simulated registers. *)
Lemma sensor_values (t : Z) :
  BME280.set_t_fine HardwareSim.sensor t =
  {| BME280.dig_T1 := 27504; BME280.dig_T2 := 26435;
     BME280.dig_T3 := -1000;
     BME280.dig_P1 := 36447; BME280.dig_P2 := -10577;
     BME280.dig_P3 := 12299; BME280.dig_P4 := -30317;
     BME280.dig_P5 := 4; BME280.dig_P6 := 8; BME280.dig_P7 := 0;
     BME280.dig_P8 := 0; BME280.dig_P9 := 136;
     BME280.dig_H1 := 75; BME280.dig_H2 := 356; BME280.dig_H3 := 0;
     BME280.dig_H4 := 256; BME280.dig_H5 := 480; BME280.dig_H6 := 30;
     BME280.t_fine := t |}.
Proof. reflexivity. Qed.

Lemma between_Z (a b x : Z) :
  (a <= x <= b)%Z -> inject_Z a <= inject_Z x /\ inject_Z x <= inject_Z b.
Proof. intros [H1 H2]. split; rewrite <- Zle_Qle; assumption. Qed.

(** Products of bounded factors that are not negative. *)
Lemma mul_between (a b lo1 hi1 lo2 hi2 : Q) :
  0 <= lo1 -> lo1 <= a -> a <= hi1 -> 0 <= lo2 -> lo2 <= b -> b <= hi2 ->
  lo1 * lo2 <= a * b /\ a * b <= hi1 * hi2.
Proof. intros. split; nra. Qed.

Ltac literals :=
  unfold Qdiv;
  repeat match goal with
         | |- context [/ inject_Z (Zpos ?p)] =>
             change (/ inject_Z (Zpos p)) with (1 # p)
         end;
  repeat match goal with
         | |- context [inject_Z (Zpos ?p)] =>
             change (inject_Z (Zpos p)) with (Zpos p # 1)
         | |- context [inject_Z (Zneg ?p)] =>
             change (inject_Z (Zneg p)) with (Zneg p # 1)
         | |- context [inject_Z 0] =>
             change (inject_Z 0) with (0 # 1)
         end.

Lemma sim_temperature (raw t0 : Z) :
  (518888 <= raw <= 520888)%Z ->
  exists t : Z,
    BME280._compensate_temperature (F:=Q)
      (BME280.set_t_fine HardwareSim.sensor t0) raw
    = Some (inject_Z t / 5120, BME280.set_t_fine HardwareSim.sensor t) /\
    (126817 <= t <= 130027)%Z.
Proof.
  intros Hraw. apply between_Z in Hraw.
  rewrite sensor_values. unfold BME280._compensate_temperature.
  cbn [BME280.dig_T1 BME280.dig_T2 BME280.dig_T3]. exact_ops.
  eexists. split; [reflexivity |].
  match goal with |- (_ <= Exact.trunc ?e <= _)%Z => set (y := e) end.
  destruct (ExactFacts.trunc_truncates y) as [Hp _].
  assert (By : 126818 <= y /\ y <= 130027).
  { unfold y. clear y Hp. literals.
    change (inject_Z 518888) with 518888 in Hraw.
    change (inject_Z 520888) with 520888 in Hraw.
    remember (inject_Z raw) as r eqn:Er. clear Er raw.
    remember (r * (1 # 131072) - 27504 * (1 # 8192)) as u eqn:Eu.
    assert (Eu' : u == r * (1 # 131072) - 27504 * (1 # 8192))
      by (rewrite Eu; reflexivity).
    clear Eu.
    assert (Bu : (78824 # 131072) <= u /\ u <= (80824 # 131072)) by lra.
    assert (P1 : 0 <= (u - (78824 # 131072)) * ((80824 # 131072) - u))
      by (apply Qmult_le_0_compat; lra).
    assert (P2 : 0 <= ((80824 # 131072) - u) * ((80824 # 131072) - u))
      by (apply Qmult_le_0_compat; lra).
    split; nra. }
  destruct Hp as [H1 H2]; [lra |].
  assert (Hl : inject_Z 126816 < inject_Z (Exact.trunc y))
    by (change (inject_Z 126816) with 126816; lra).
  assert (Hu : inject_Z (Exact.trunc y) < inject_Z 130028)
    by (change (inject_Z 130028) with 130028; lra).
  rewrite <- Zlt_Qlt in Hl, Hu. lia.
Qed.

Lemma sim_pressure (t raw : Z) :
  (126817 <= t <= 130027)%Z -> (329228 <= raw <= 330228)%Z ->
  exists p : Q,
    BME280._compensate_pressure (F:=Q)
      (BME280.set_t_fine HardwareSim.sensor t) raw = Some p /\
    2064 <= p /\ p <= 2069.
Proof.
  intros Ht Hraw. apply between_Z in Ht. apply between_Z in Hraw.
  change (inject_Z 126817) with 126817 in Ht.
  change (inject_Z 130027) with 130027 in Ht.
  change (inject_Z 329228) with 329228 in Hraw.
  change (inject_Z 330228) with 330228 in Hraw.
  rewrite sensor_values. unfold BME280._compensate_pressure.
  cbn [BME280.dig_P1 BME280.dig_P2 BME280.dig_P3 BME280.dig_P4 BME280.dig_P5
       BME280.dig_P6 BME280.dig_P7 BME280.dig_P8 BME280.dig_P9 BME280.t_fine].
  exact_ops. literals.
  remember (inject_Z t) as x eqn:Ex. clear Ex t.
  remember (inject_Z raw) as r eqn:Er. clear Er raw.
  remember (x * (1 # 2) - 64000) as v eqn:Ev.
  assert (Bv : - (592) <= v /\ v <= 1014) by (rewrite Ev; lra).
  clear Ev Ht x.
  assert (Bq : 0 <= v * v /\ v * v <= 1028196) by (split; nra).
  remember (v * v) as q eqn:Eq.
  assert (E1 : 12299 * v * v == 12299 * q) by (rewrite Eq; ring).
  clear Eq.
  remember ((1 + (12299 * v * v * (1 # 524288) + -10577 * v) * (1 # 524288)
                 * (1 # 32768)) * 36447) as w eqn:Ew.
  assert (Bw : 36424 <= w /\ w <= 36461).
  { rewrite Ew. rewrite E1. lra. }
  clear Ew E1.
  destruct (ExactFacts.eqb_spec w 0) as [E0 | _]; [lra |].
  eexists. split; [reflexivity |].
  remember ((1048576 - r
             - ((q * 8 * (1 # 32768) + v * 4 * 2) * (1 # 4)
                + -30317 * 65536) * (1 # 4096)) * 6250) as N eqn:EN.
  assert (BN : 7521371000 <= N /\ N <= 7527627000) by (rewrite EN; lra).
  clear EN Hraw Bv Bq r v q.
  remember (/ w) as k eqn:Ek.
  assert (Hk : w * k == 1) by (rewrite Ek; apply Qmult_inv_r; lra).
  clear Ek.
  assert (Bk : (1 # 36461) <= k /\ k <= (1 # 36424)) by (split; nra).
  assert (M1 : 7521371000 * (1 # 36461) <= N * k
               /\ N * k <= 7527627000 * (1 # 36424))
    by (apply mul_between; lra).
  remember (N * k) as p eqn:Ep.
  assert (Bp : 206285 <= p /\ p <= 206668) by lra.
  clear Ep M1 BN Bk Hk Bw N k w.
  assert (M2 : 136 * 206285 * 206285 <= 136 * p * p
               /\ 136 * p * p <= 136 * 206668 * 206668)
    by (apply mul_between; lra).
  remember (136 * p * p) as pp eqn:Epp. clear Epp.
  lra.
Qed.

Lemma sim_humidity (t raw : Z) :
  (126817 <= t <= 130027)%Z -> (28172 <= raw <= 29172)%Z ->
  56 <= BME280._compensate_humidity (F:=Q)
          (BME280.set_t_fine HardwareSim.sensor t) raw /\
  BME280._compensate_humidity (F:=Q)
    (BME280.set_t_fine HardwareSim.sensor t) raw <= 63.
Proof.
  intros Ht Hraw. apply between_Z in Ht. apply between_Z in Hraw.
  change (inject_Z 126817) with 126817 in Ht.
  change (inject_Z 130027) with 130027 in Ht.
  change (inject_Z 28172) with 28172 in Hraw.
  change (inject_Z 29172) with 29172 in Hraw.
  rewrite sensor_values. unfold BME280._compensate_humidity.
  remember (BME280.humidity_poly _ raw) as h eqn:Eh.
  assert (Bh : 56 <= h /\ h <= 63).
  { rewrite Eh. clear Eh h. unfold BME280.humidity_poly.
    cbn [BME280.dig_H1 BME280.dig_H2 BME280.dig_H3 BME280.dig_H4
         BME280.dig_H5 BME280.dig_H6 BME280.t_fine].
    exact_ops. literals.
    remember (inject_Z t) as x eqn:Ex. clear Ex t.
    remember (inject_Z raw) as r eqn:Er. clear Er raw.
    remember (x - 76800) as h0 eqn:E0.
    assert (B0 : 50017 <= h0 /\ h0 <= 53227) by (rewrite E0; lra).
    clear E0 Ht x.
    remember (r - (256 * 64 + 480 * (1 # 16384) * h0)) as a eqn:Ea.
    assert (Ba : 10228 <= a /\ a <= 11323) by (rewrite Ea; lra).
    clear Ea Hraw r.
    remember (356 * (1 # 65536)
              * (1 + 30 * (1 # 67108864) * h0
                     * (1 + 0 * (1 # 67108864) * h0))) as b eqn:Eb.
    assert (Bb : (55535 # 10000000) <= b /\ b <= (55615 # 10000000)).
    { rewrite Eb. clear Eb.
      assert (E : 30 * (1 # 67108864) * h0 * (1 + 0 * (1 # 67108864) * h0)
                  == 30 * (1 # 67108864) * h0) by ring.
      rewrite E. lra. }
    clear Eb B0 h0.
    assert (M : 10228 * (55535 # 10000000) <= a * b
                /\ a * b <= 11323 * (55615 # 10000000))
      by (apply mul_between; lra).
    remember (a * b) as h1 eqn:E1.
    assert (B1 : (568 # 10) <= h1 /\ h1 <= (6298 # 100)) by lra.
    clear E1 M Ba Bb a b.
    assert (P : 0 <= (h1 - (568 # 10)) * ((6298 # 100) - h1))
      by (apply Qmult_le_0_compat; lra).
    split; nra. }
  clear Eh. exact_ops. literals.
  destruct (ExactFacts.leb_spec h 100) as [_ | Hn]; [| lra].
  destruct (ExactFacts.leb_spec 0 h) as [_ | Hn]; [| lra].
  simpl. exact Bh.
Qed.

(** ** The driver on the simulated bus *)

Local Open Scope Z_scope.

Definition REG_CHIPID : Z := 0xD0.
Definition OVERSAMPLE_X1 : Z := 0x01.
Definition OVERSAMPLE_X2 : Z := 0x02.
Definition OVERSAMPLE_X16 : Z := 0x05.
Definition MODE_NORMAL : Z := 0x03.

(** How [BME280.__init__] ends: with the object, with the [RuntimeError] of
    the chip check, or with what the bus or a write raised. *)
Inductive Start : Type :=
| Ready (self : BME280.BME280)
| ChipNotFound (chip_id : Z)
| Stopped (raised : SimBus.Outcome).

(** [_read_byte]: [readfrom_mem(addr, reg, 1)[0]]; [None] is the [OSError]
    of the bus.  The bytes of the bus are never empty. *)
Definition _read_byte (bus : SimBus.SimulatedI2C) (noise : Z * Z * Z)
    (addr reg : Z) : option Z :=
  match SimBus.readfrom_mem bus noise addr reg 1 with
  | Some data => Some (nth 0 data 0)
  | None => None
  end.

(** [BME280.__init__]: the chip check, the calibration, the default mode,
    and [t_fine]. *)
Definition __init__ (bus : SimBus.SimulatedI2C) (noise : Z * Z * Z)
    (addr : Z) : Start * SimBus.SimulatedI2C :=
  match _read_byte bus noise addr REG_CHIPID with
  | None => (Stopped SimBus.RaisedOSError, bus)
  | Some chip_id =>
      if negb (chip_id =? 0x60) then (ChipNotFound chip_id, bus)
      else
        let self := BME280._load_calibration (SimBus.registers bus) in
        match SimBus.set_mode addr bus MODE_NORMAL OVERSAMPLE_X2
                OVERSAMPLE_X1 OVERSAMPLE_X16 with
        | (SimBus.Done, bus') => (Ready (BME280.set_t_fine self 0), bus')
        | (failed, bus') => (Stopped failed, bus')
        end
  end.

(** [__init__] builds the object exactly when the device answers and its
    register 0xD0 holds 0x60.  Then the calibration is that of the
    registers, [t_fine] is 0, and the three control registers hold 1, 0x57
    and 0xA0, every other register being as before.  Otherwise nothing is
    written. *)
Theorem init_checks_chip_id (bus : SimBus.SimulatedI2C) (noise : Z * Z * Z)
    (addr : Z) :
  let bus' := snd (__init__ bus noise addr) in
  match fst (__init__ bus noise addr) with
  | Ready self =>
      SimBus.answers bus addr = true /\
      SimBus.registers bus REG_CHIPID = 0x60 /\
      self = BME280.set_t_fine
               (BME280._load_calibration (SimBus.registers bus)) 0 /\
      SimBus.registers bus' 0xF2 = 1 /\
      SimBus.registers bus' 0xF4 = 0x57 /\
      SimBus.registers bus' 0xF5 = 0xA0 /\
      (forall r, r <> 0xF2 -> r <> 0xF4 -> r <> 0xF5 ->
         SimBus.registers bus' r = SimBus.registers bus r)
  | ChipNotFound chip_id =>
      SimBus.answers bus addr = true /\
      chip_id = SimBus.registers bus REG_CHIPID /\ chip_id <> 0x60 /\
      bus' = bus
  | Stopped raised =>
      raised = SimBus.RaisedOSError /\ SimBus.answers bus addr = false /\
      bus' = bus
  end.
Proof.
  unfold __init__, _read_byte, SimBus.readfrom_mem, MODE_NORMAL,
    OVERSAMPLE_X1, OVERSAMPLE_X2, OVERSAMPLE_X16.
  destruct (SimBus.answers bus addr) eqn:Ha; simpl negb; cbv iota;
    [| simpl; auto].
  change (REG_CHIPID =? 0xF7) with false. cbv iota.
  change (nth 0 (map (fun i => SimBus.registers bus (REG_CHIPID + Z.of_nat i))
                   (seq 0 1)) 0)
    with (SimBus.registers bus (REG_CHIPID + 0)).
  rewrite Z.add_0_r.
  destruct (Z.eqb_spec (SimBus.registers bus REG_CHIPID) 0x60) as [Ec | Ec];
    simpl negb; cbv iota; [| simpl; auto].
  unfold SimBus.set_mode.
  destruct (SimBus.write_byte_done addr bus SimBus.REG_CONTROL_HUM Ha
              (value := 1)) as (b1 & -> & A1 & V1 & O1); [lia |].
  destruct (SimBus.write_byte_done addr b1 SimBus.REG_CONTROL A1
              (value := SimBus.ctrl_meas 3 2 5))
    as (b2 & -> & A2 & V2 & O2); [vm_compute; split; congruence |].
  destruct (SimBus.write_byte_done addr b2 SimBus.REG_CONFIG A2
              (value := 0xA0)) as (b3 & -> & A3 & V3 & O3); [lia |].
  cbv zeta. simpl fst. simpl snd.
  split; [reflexivity |]. split; [exact Ec |]. split; [reflexivity |].
  split; [rewrite O3, O2 by discriminate; exact V1 |].
  split; [rewrite O3 by discriminate; exact V2 |].
  split; [exact V3 |].
  intros r R1 R2 R3. rewrite O3, O2, O1 by assumption. reflexivity.
Qed.



End SimReading.
